(** * kiro-cli-acp: the transcript-to-event translator and the session bridge

    A shallow embedding of the TypeScript sources of the bridge
    (ansi.ts, prompt.ts, kiro.ts and agent.ts) and the properties of the
    specification that can be stated over it, followed by further
    properties of the same code: the sessions across calls, the tool
    calls as the client sees them, the lines of the stream processor,
    the listing of the agents and the text of the settings.

    JavaScript strings are sequences of UTF-16 code units; a code unit is
    modelled as an [N] and a string as a [list N].  Regular expressions are
    kept as syntax and run by a backtracking matcher that returns every
    way to match in the priority order of the ECMAScript semantics, so the
    head of the result is the match the JavaScript engine reports. *)

From Stdlib Require Import NArith Lia String Ascii DecimalString DecimalN.
From stdpp Require Import base option list gmap.

Open Scope N_scope.
Open Scope nat_scope.

(** ** JavaScript strings *)

Module Js.

Abbreviation jsstring := (list N).

(** An ASCII literal of the source as code units. *)
Definition lit (s : string) : jsstring :=
  List.map N_of_ascii (list_ascii_of_string s).

Definition ESC : N := 27%N.   (* U+001B *)
Definition CSI : N := 155%N.  (* U+009B *)
Definition LF : N := 10%N.
Definition CR : N := 13%N.

(** [String.prototype.startsWith]. *)
Fixpoint startsWith (s prefix : jsstring) : bool :=
  match prefix, s with
  | [], _ => true
  | p :: prefix', c :: s' => N.eqb p c && startsWith s' prefix'
  | _ :: _, [] => false
  end.

(** White space and line terminators of ECMAScript ([\s], [trim]). *)
Definition is_space (c : N) : bool :=
  ((9 <=? c) && (c <=? 13) || (c =? 32) || (c =? 160) || (c =? 5760)
   || ((8192 <=? c) && (c <=? 8202)) || (c =? 8232) || (c =? 8233)
   || (c =? 8239) || (c =? 8287) || (c =? 12288) || (c =? 65279))%N.

Fixpoint trimStart (s : jsstring) : jsstring :=
  match s with
  | c :: s' => if is_space c then trimStart s' else s
  | [] => []
  end.

Definition trimEnd (s : jsstring) : jsstring := rev (trimStart (rev s)).

Definition trim (s : jsstring) : jsstring := trimEnd (trimStart s).

(** [Array.prototype.join]. *)
Fixpoint join (sep : jsstring) (parts : list jsstring) : jsstring :=
  match parts with
  | [] => []
  | [p] => p
  | p :: ps => p ++ sep ++ join sep ps
  end.

(** [String(n)] for a non-negative integer: its decimal digits. *)
Fixpoint digits (u : Decimal.uint) : jsstring :=
  match u with
  | Decimal.Nil => []
  | Decimal.D0 u' => 48%N :: digits u'
  | Decimal.D1 u' => 49%N :: digits u'
  | Decimal.D2 u' => 50%N :: digits u'
  | Decimal.D3 u' => 51%N :: digits u'
  | Decimal.D4 u' => 52%N :: digits u'
  | Decimal.D5 u' => 53%N :: digits u'
  | Decimal.D6 u' => 54%N :: digits u'
  | Decimal.D7 u' => 55%N :: digits u'
  | Decimal.D8 u' => 56%N :: digits u'
  | Decimal.D9 u' => 57%N :: digits u'
  end.

Definition ofNumber (n : N) : jsstring := digits (N.to_uint n).

End Js.

Import Js.

(** ** Regular expressions *)

Module Regex.

Inductive regex : Type :=
| Eps                                   (* the empty pattern *)
| Chr (p : N -> bool)                   (* a character or a class *)
| Seq (r1 r2 : regex)
| Alt (r1 r2 : regex)                   (* r1|r2 *)
| Star (greedy : bool) (r : regex)      (* r* and r*? *)
| Group (i : nat) (r : regex)           (* the i-th capturing group *)
| Bol                                   (* ^ (no multiline flag) *)
| Eol.                                  (* $ (no multiline flag) *)

(** The matcher's state: the index reached, the input still ahead of it
    and the captures so far. *)
Record mstate : Type := MState {
  pos : nat;
  rest : jsstring;
  caps : list (nat * jsstring)
}.

Definition advance (st : mstate) (s' : jsstring) : mstate :=
  MState (S (pos st)) s' (caps st).

Definition capture (i : nat) (from : mstate) (st : mstate) : mstate :=
  MState (pos st) (rest st)
         ((i, firstn (pos st - pos from) (rest from)) :: caps st).

(** The iterations of a star whose body is matched by [body]: a greedy
    star prefers one more iteration to stopping, a lazy one stopping.
    An iteration that consumes nothing is rejected, as in ECMAScript's
    RepeatMatcher, so the length of the input bounds the number of
    iterations and [fuel] above it is never used up. *)
Fixpoint iterate (body : mstate -> list mstate) (greedy : bool)
    (fuel : nat) (st : mstate) {struct fuel} : list mstate :=
  match fuel with
  | O => [st]
  | S fuel' =>
      let more :=
        flat_map
          (fun st' =>
             if length (rest st') <? length (rest st)
             then iterate body greedy fuel' st' else [])
          (body st) in
      if greedy then more ++ [st] else st :: more
  end.

(** All the ways to match [r] from [st], most preferred first. *)
Fixpoint rmatch (r : regex) (st : mstate) {struct r} : list mstate :=
  match r with
  | Eps => [st]
  | Chr p =>
      match rest st with
      | c :: s' => if p c then [advance st s'] else []
      | [] => []
      end
  | Seq r1 r2 => flat_map (rmatch r2) (rmatch r1 st)
  | Alt r1 r2 => rmatch r1 st ++ rmatch r2 st
  | Star greedy r1 => iterate (rmatch r1) greedy (S (length (rest st))) st
  | Group i r1 => List.map (capture i st) (rmatch r1 st)
  | Bol => if pos st =? 0 then [st] else []
  | Eol => match rest st with [] => [st] | _ :: _ => [] end
  end.

(** The match found with the scan starting at index [p] exactly. *)
Definition match_at (r : regex) (p : nat) (s : jsstring) : option mstate :=
  head (rmatch r (MState p s [])).

(** [RegExp.prototype.exec] without the sticky flag: the leftmost index
    from which the pattern matches.  [s] is the input from index [p]. *)
Fixpoint search (r : regex) (p : nat) (s : jsstring)
  : option (nat * mstate) :=
  match match_at r p s with
  | Some st => Some (p, st)
  | None =>
      match s with
      | [] => None
      | _ :: s' => search r (S p) s'
      end
  end.

Definition exec (r : regex) (s : jsstring) : option (nat * mstate) :=
  search r 0 s.

(** [RegExp.prototype.test]. *)
Definition test (r : regex) (s : jsstring) : bool :=
  match exec r s with Some _ => true | None => false end.

(** The text of capture group [i] of a match ([undefined] is [None]). *)
Fixpoint group (i : nat) (cs : list (nat * jsstring)) : option jsstring :=
  match cs with
  | [] => None
  | (j, v) :: cs' => if j =? i then Some v else group i cs'
  end.

(** [String.prototype.replace] with a global pattern and the empty
    replacement.  [skip] counts the code units of the current match
    that are still to be dropped; after an empty match the scan moves
    one code unit on. *)
Fixpoint replace_all (r : regex) (skip p : nat) (s : jsstring)
  : jsstring :=
  match s with
  | [] => []
  | c :: s' =>
      match skip with
      | S k => replace_all r k (S p) s'
      | O =>
          match match_at r p s with
          | Some st =>
              match pos st - p with
              | O => c :: replace_all r 0 (S p) s'
              | S k => replace_all r k (S p) s'
              end
          | None => c :: replace_all r 0 (S p) s'
          end
      end
  end.

(** [String.prototype.split] with a pattern that has no capture group
    (so nothing is spliced into the result).  [cur] is the piece since
    the last separator.  A match that ends where the piece starts is
    not a separator. *)
Fixpoint split_from (r : regex) (skip p : nat) (cur s : jsstring)
  : list jsstring :=
  match s with
  | [] => [cur]
  | c :: s' =>
      match skip with
      | S k => split_from r k (S p) cur s'
      | O =>
          match match_at r p s with
          | Some st =>
              match pos st - p, cur with
              | O, [] => split_from r 0 (S p) [c] s'
              | O, _ :: _ => cur :: split_from r 0 (S p) [c] s'
              | S k, _ => cur :: split_from r k (S p) [] s'
              end
          | None => split_from r 0 (S p) (cur ++ [c]) s'
          end
      end
  end.

Definition split (r : regex) (s : jsstring) : list jsstring :=
  match s with
  | [] => match match_at r 0 [] with Some _ => [] | None => [[]] end
  | _ :: _ => split_from r 0 0 [] s
  end.

(** Pattern syntax used by the sources. *)

Definition chr (c : N) : regex := Chr (N.eqb c).

Definition none_of (cs : jsstring) : regex :=
  Chr (fun c => negb (existsb (N.eqb c) cs)).

Definition in_range (lo hi c : N) : bool := ((lo <=? c) && (c <=? hi))%N.

(** [.] : any code unit but a line terminator. *)
Definition dot : regex :=
  Chr (fun c => negb ((c =? 10) || (c =? 13) || (c =? 8232) || (c =? 8233))%N).

Definition space : regex := Chr is_space.   (* \s *)

Definition digit : regex := Chr (in_range 48 57).   (* [0-9] *)

Fixpoint text (s : jsstring) : regex :=
  match s with
  | [] => Eps
  | [c] => chr c
  | c :: s' => Seq (chr c) (text s')
  end.

Definition opt (r : regex) : regex := Alt r Eps.           (* r? *)
Definition plus (greedy : bool) (r : regex) : regex :=     (* r+ and r+? *)
  Seq r (Star greedy r).

(** [r{0,n}] and [r{lo,hi}], greedy. *)
Fixpoint upto (n : nat) (r : regex) : regex :=
  match n with
  | O => Eps
  | S k => opt (Seq r (upto k r))
  end.

Fixpoint rep (lo hi : nat) (r : regex) : regex :=
  match lo with
  | O => upto hi r
  | S k => Seq r (rep k (Nat.pred hi) r)
  end.

(** The text does not go on with a code unit of the class. *)
Definition stops (cls : N -> bool) (s : jsstring) : Prop :=
  match s with
  | c :: _ => cls c = false
  | [] => True
  end.

(** Patterns without [^] do not see the index they are tried at. *)
Fixpoint anchor_free (r : regex) : bool :=
  match r with
  | Bol => false
  | Seq r1 r2 | Alt r1 r2 => anchor_free r1 && anchor_free r2
  | Star _ r1 | Group _ r1 => anchor_free r1
  | Eps | Chr _ | Eol => true
  end.

Definition shift (k : nat) (st : mstate) : mstate :=
  MState (pos st + k) (rest st) (caps st).

(** The length of the match found at the start of [s]. *)
Definition match_length (r : regex) (s : jsstring) : option nat :=
  pos <$> match_at r 0 s.

End Regex.

Import Regex.

(** ** ansi.ts *)

Module Ansi.

(** [[0-9A-ORZcf-nqry=><]] *)
Definition final_byte (c : N) : bool :=
  (in_range 48 57 c || in_range 65 79 c || (c =? 82) || (c =? 90)
   || (c =? 99) || in_range 102 110 c || (c =? 113) || (c =? 114)
   || (c =? 121) || (c =? 61) || (c =? 62) || (c =? 60))%N.

(** [[\u001B\u009B]] *)
Definition introducer (c : N) : bool := ((c =? 27) || (c =? 155))%N.

(** [[[()#;?]] *)
Definition prefix_byte (c : N) : bool :=
  ((c =? 91) || (c =? 40) || (c =? 41) || (c =? 35) || (c =? 59)
   || (c =? 63))%N.

(** The global pattern of the source, piece by piece: an introducer
    [[\u001B\u009B]]; any number of prefix bytes; optionally one to four
    digits followed by any number of groups of a semicolon and up to
    four digits; a final byte. *)
Definition ANSI_PATTERN : regex :=
  Seq (Chr introducer)
    (Seq (Star true (Chr prefix_byte))
       (Seq (opt (Seq (rep 1 4 digit)
                      (Star true (Seq (chr 59) (rep 0 4 digit)))))
            (Chr final_byte))).

Definition stripAnsi (input : jsstring) : jsstring :=
  replace_all ANSI_PATTERN 0 0 input.

Definition is_digit (c : N) : bool := in_range 48 57 c.

(** A decimal number of [lo] to four digits. *)
Definition number (lo : nat) (d : jsstring) : Prop :=
  lo <= length d <= 4 /\ Forall (fun c => is_digit c = true) d.

(** Parameters: a number, then numbers that each follow a semicolon and
    may be empty. *)
Definition groups (more : list jsstring) : jsstring :=
  concat (List.map (fun d => 59%N :: d) more).

Definition parameters (first : jsstring) (more : list jsstring) : jsstring :=
  first ++ groups more.

(** The control sequences in their usual shape, such as the colour and
    cursor sequences: an introducer, prefix bytes, no parameter or
    parameters, and a final byte that is not a digit. *)
Inductive controlSequence : jsstring -> Prop :=
| cs_bare (i : N) (pre : jsstring) (f : N) :
    introducer i = true -> Forall (fun c => prefix_byte c = true) pre ->
    final_byte f = true -> is_digit f = false ->
    controlSequence (i :: pre ++ [f])
| cs_parameters (i : N) (pre first : jsstring) (more : list jsstring) (f : N) :
    introducer i = true -> Forall (fun c => prefix_byte c = true) pre ->
    number 1 first -> Forall (number 0) more ->
    final_byte f = true -> is_digit f = false ->
    controlSequence (i :: pre ++ parameters first more ++ [f]).

(** The control sequences that the specification names, written out
    code unit by code unit.  They start with the escape character and an
    opening bracket, or with U+009B alone, and a question mark may
    follow. *)
Definition sequenceStart (start : jsstring) : Prop :=
  start = [ESC; 91%N] \/ start = [CSI]
  \/ start = [ESC; 91%N; 63%N] \/ start = [CSI; 63%N].

(** Their final letters: cursor movement (A to H and f), erasing (J and
    K), colour and style (m), and modes such as the visibility of the
    cursor (h and l). *)
Definition sequenceFinals : jsstring := lit "ABCDEFGHfJKmhl".

(** A start, no parameter or parameters, and one of the final letters:
    [ESC [ H], [ESC [ 2 K], [ESC [ 1 ; 31 m], [ESC [ ? 25 l]. *)
Inductive namedSequence : jsstring -> Prop :=
| named_bare (start : jsstring) (f : N) :
    sequenceStart start -> In f sequenceFinals ->
    namedSequence (start ++ [f])
| named_parameters (start first : jsstring) (more : list jsstring) (f : N) :
    sequenceStart start -> number 1 first -> Forall (number 0) more ->
    In f sequenceFinals ->
    namedSequence (start ++ parameters first more ++ [f]).

(** [e] is a recognized escape sequence in front of [s]: the pattern,
    tried where [e] starts, matches exactly [e]. *)
Definition recognized (e s : jsstring) : Prop :=
  match_length ANSI_PATTERN (e ++ s) = Some (length e).

End Ansi.

Import Ansi.

(** ** prompt.ts *)

Module Prompt.

(** The embedded resource of a [resource] chunk: text contents have a
    [text] field, blob contents have none. *)
Record EmbeddedResource : Type := {
  resource_uri : jsstring;
  resource_text : option jsstring
}.

(** The content blocks of a prompt, by their [type] tag.  The [uri] of
    an image is optional. *)
Inductive ContentBlock : Type :=
| TextBlock (text : jsstring)
| ResourceLinkBlock (uri : jsstring)
| ResourceBlock (resource : EmbeddedResource)
| ImageBlock (uri : option jsstring)
| AudioBlock.

(** The template literal of the [resource] case:
    a line feed, the opening tag with the uri in double quotes, the
    text on a line of its own, the closing tag, a line feed. *)
Definition contextBlock (uri text : jsstring) : jsstring :=
  LF :: lit "<context ref=" ++ 34%N :: uri ++ 34%N :: lit ">" ++ LF :: text
     ++ LF :: lit "</context>" ++ [LF].

(** A JavaScript string is truthy when it is not empty. *)
Definition truthy (s : jsstring) : bool :=
  match s with [] => false | _ :: _ => true end.

(** One turn of the loop: what [switch (chunk.type)] pushes on [parts]. *)
Definition pushChunk (parts : list jsstring) (chunk : ContentBlock)
  : list jsstring :=
  match chunk with
  | TextBlock text => parts ++ [text]
  | ResourceLinkBlock uri => parts ++ [uri]
  | ResourceBlock resource =>
      match resource_text resource with
      | Some text => parts ++ [contextBlock (resource_uri resource) text]
      | None => parts
      end
  | ImageBlock (Some uri) => if truthy uri then parts ++ [uri] else parts
  | ImageBlock None => parts
  | AudioBlock => parts
  end.

Definition promptToText (prompt : list ContentBlock) : jsstring :=
  join [] (fold_left pushChunk prompt []).

(** The text of a resource wrapped as context, written out piece by
    piece: a line feed; the opening tag, which holds the uri between
    double quotes; a line feed; the text; a line feed; the closing tag;
    a line feed. *)
Definition contextWrapped (uri text : jsstring) : jsstring :=
  concat [[LF];
          lit "<context ref="; [34%N]; uri; [34%N]; lit ">"; [LF];
          text; [LF];
          lit "</context>"; [LF]].

(** What the specification says a chunk contributes. *)
Definition contribution (chunk : ContentBlock) : jsstring :=
  match chunk with
  | TextBlock text => text
  | ResourceLinkBlock uri => uri
  | ResourceBlock resource =>
      match resource_text resource with
      | Some text => contextWrapped (resource_uri resource) text
      | None => []
      end
  | ImageBlock (Some uri) => uri
  | ImageBlock None => []
  | AudioBlock => []
  end.

(** A resource chunk without text, or an image chunk without uri. *)
Definition silent (chunk : ContentBlock) : Prop :=
  match chunk with
  | ResourceBlock resource => resource_text resource = None
  | ImageBlock None => True
  | _ => False
  end.

End Prompt.

Import Prompt.

(** ** kiro.ts *)

(** What the subprocess does, as the bridge sees it. *)
Inductive ProcEvent : Type :=
| StdoutData (data : jsstring)
| StderrData (data : jsstring).

Module Kiro.

(** /\r\n|\r|\n/ *)
Definition lineBreak : regex :=
  Alt (text [CR; LF]) (Alt (chr CR) (chr LF)).

(** /(\r\n|\r|\n)$/ *)
Definition lineBreakAtEnd : regex := Seq (Group 1 lineBreak) Eol.

(** [parts.pop()]: the array without its last element, and that element
    ([undefined] on an empty array). *)
Definition pop (parts : list jsstring) : list jsstring * option jsstring :=
  (removelast parts, last parts).

(** [processChunk]: the texts of the chunk events it emits, in order,
    and the buffer it returns. *)
Definition processChunk (rawChunk : jsstring) (isFinal : bool)
    (buffer : jsstring) : list jsstring * jsstring :=
  let cleaned := stripAnsi rawChunk in
  let combined := buffer ++ cleaned in
  let endsWithNewline := test lineBreakAtEnd combined in
  let parts := split lineBreak combined in
  let '(parts, popped) := pop parts in
  let nextBuffer :=
    if negb endsWithNewline then default [] popped else [] in
  let events := List.map (fun line => line ++ [LF]) parts in
  if isFinal && (0 <? length nextBuffer)
  then (events ++ [nextBuffer], [])
  else (events, nextBuffer).

(** The variables of [runKiroChat]. *)
Record State : Type := {
  rawStdout : jsstring;
  stdoutBuffer : jsstring;
  stderrBuffer : jsstring
}.

Definition initial : State := Build_State [] [] [].

(** The [data] listeners of stdout and stderr. *)
Definition onData (ev : ProcEvent) (st : State) : list jsstring * State :=
  match ev with
  | StdoutData data =>
      let '(events, buffer) := processChunk data false (stdoutBuffer st) in
      (events, Build_State (rawStdout st ++ data) buffer (stderrBuffer st))
  | StderrData data =>
      let '(events, buffer) := processChunk data false (stderrBuffer st) in
      (events, Build_State (rawStdout st) (stdoutBuffer st) buffer)
  end.

(** The [close] listener, up to the exit event. *)
Definition onClose (st : State) : list jsstring * State :=
  let '(events1, buffer1) := processChunk [] true (stdoutBuffer st) in
  let '(events2, buffer2) := processChunk [] true (stderrBuffer st) in
  (events1 ++ events2, Build_State (rawStdout st) buffer1 buffer2).

End Kiro.

(** ** kiro.ts, the variant with a carry window and an answer marker *)

Module KiroMarker.

Definition CARRY_BYTES : nat := 64.

(** [String.prototype.indexOf]. *)
Fixpoint indexOf_from (needle : jsstring) (p : nat) (s : jsstring)
  : option nat :=
  if startsWith s needle then Some p
  else match s with
       | [] => None
       | _ :: s' => indexOf_from needle (S p) s'
       end.

Definition indexOf (s needle : jsstring) : option nat :=
  indexOf_from needle 0 s.

Record State : Type := {
  rawStdout : jsstring;
  rawCarry : jsstring;
  cleanStdout : jsstring;
  emitting : bool;
  emitCleanIndex : nat
}.

Definition initial : State := Build_State [] [] [] false 0.

(** Where the answer body starts, if the marker has been seen. *)
Definition markerPos (clean : jsstring) : option nat :=
  if startsWith clean (lit "> ") then Some 0
  else match indexOf clean (LF :: lit "> ") with
       | Some idx => Some (idx + 1)
       | None => None
       end.

(** [processStdout]: the texts of the chunk events it emits and the new
    state. *)
Definition processStdout (rawChunk : jsstring) (isFinal : bool)
    (st : State) : list jsstring * State :=
  let raw := rawStdout st ++ rawChunk in
  let carry := rawCarry st ++ rawChunk in
  let processUpto :=
    if isFinal then length carry else length carry - CARRY_BYTES in
  let rawToProcess := take processUpto carry in
  let carry := drop processUpto carry in
  match rawToProcess with
  | [] => ([], Build_State raw carry (cleanStdout st) (emitting st)
                           (emitCleanIndex st))
  | _ :: _ =>
      let clean := cleanStdout st ++ stripAnsi rawToProcess in
      let '(emit, index) :=
        if emitting st then (true, emitCleanIndex st)
        else match markerPos clean with
             | Some m => (true, m + 2)
             | None => (false, emitCleanIndex st)
             end in
      if emit then
        let next := drop index clean in
        (match next with [] => [] | _ :: _ => [next] end,
         Build_State raw carry clean true (length clean))
      else ([], Build_State raw carry clean false index)
  end.

(** The [close] listener, up to the exit event. *)
Definition onClose (st : State) : list jsstring * State :=
  let '(events, st') := processStdout [] true st in
  if emitting st' then (events, st')
  else
    let cleaned := trimEnd (cleanStdout st') in
    match trim cleaned with
    | [] => (events, st')
    | _ :: _ => (events ++ [cleaned], st')
    end.

(** A run of the stream processor: the stdout deliveries in order, then
    the close. *)
Fixpoint run (chunks : list jsstring) (st : State) : list jsstring :=
  match chunks with
  | [] => fst (onClose st)
  | chunk :: chunks' =>
      let '(events, st') := processStdout chunk false st in
      events ++ run chunks' st'
  end.

End KiroMarker.

(** ** agent.ts *)

Module Agent.

(** *** Session updates *)

Inductive ToolKind : Type := Execute | Other.

Inductive ToolStatus : Type := InProgress | Completed | Failed.

(** The [update] of a session notification.  A tool call update has an
    optional status, content text and raw output. *)
Inductive Update : Type :=
| AgentMessageChunk (text : jsstring)
| AgentThoughtChunk (text : jsstring)
| ToolCall (toolCallId title : jsstring) (kind : ToolKind)
           (status : ToolStatus) (rawInput : jsstring)
| ToolCallUpdate (toolCallId : jsstring) (status : option ToolStatus)
                 (content rawOutput : option jsstring)
| CurrentModeUpdate (currentModeId : jsstring).

(** *** The turn: the variables that the closures of [prompt] share *)

Record ActiveTool : Type := {
  id : jsstring;
  kind : ToolKind;
  title : jsstring;
  rawInput : jsstring;
  output : list jsstring
}.

(** [cancelled] is the flag of the session, which [cancel] sets while
    the turn runs; [sendChain] is the chain of deliveries, as the
    updates enqueued on it in order. *)
Record Turn : Type := {
  cancelled : bool;
  sentAny : bool;
  sendChain : list Update;
  toolSeq : N;
  activeTool : option ActiveTool;
  lineBuffer : jsstring
}.

Definition sendUpdate (update : Update) (t : Turn) : Turn :=
  if cancelled t then t
  else {| cancelled := cancelled t; sentAny := true;
          sendChain := sendChain t ++ [update];
          toolSeq := toolSeq t; activeTool := activeTool t;
          lineBuffer := lineBuffer t |}.

Definition sendText (text : jsstring) : Turn -> Turn :=
  sendUpdate (AgentMessageChunk text).

Definition sendThought (text : jsstring) : Turn -> Turn :=
  sendUpdate (AgentThoughtChunk text).

(** /^I will run the following command:\s*(.+?)\s*\(using tool:\s*([^)]+)\)\s*$/ *)
Definition toolStartRe : regex :=
  Seq Bol
    (Seq (text (lit "I will run the following command:"))
    (Seq (Star true space)
    (Seq (Group 1 (plus false dot))
    (Seq (Star true space)
    (Seq (text (lit "(using tool:"))
    (Seq (Star true space)
    (Seq (Group 2 (plus true (none_of (lit ")"))))
    (Seq (chr 41)
    (Seq (Star true space) Eol))))))))).

(** /- Completed in / *)
Definition toolDoneRe : regex := text (lit "- Completed in ").

Definition thoughtPrefixes : list jsstring :=
  [lit "Thought:"; lit "Reasoning:"; lit "Chain of Thought:";
   lit "Chain-of-thought:"; lit "Scratchpad:"].

Definition setActiveTool (a : option ActiveTool) (t : Turn) : Turn :=
  {| cancelled := cancelled t; sentAny := sentAny t;
     sendChain := sendChain t; toolSeq := toolSeq t; activeTool := a;
     lineBuffer := lineBuffer t |}.

Definition setToolSeq (n : N) (t : Turn) : Turn :=
  {| cancelled := cancelled t; sentAny := sentAny t;
     sendChain := sendChain t; toolSeq := n; activeTool := activeTool t;
     lineBuffer := lineBuffer t |}.

Definition setLineBuffer (b : jsstring) (t : Turn) : Turn :=
  {| cancelled := cancelled t; sentAny := sentAny t;
     sendChain := sendChain t; toolSeq := toolSeq t;
     activeTool := activeTool t; lineBuffer := b |}.

Definition setCancelled (b : bool) (t : Turn) : Turn :=
  {| cancelled := b; sentAny := sentAny t;
     sendChain := sendChain t; toolSeq := toolSeq t;
     activeTool := activeTool t; lineBuffer := lineBuffer t |}.

(** The text of the [content] of a tool call update. *)
Definition toolContent (t : Turn) : option jsstring :=
  match activeTool t with
  | None => None
  | Some a =>
      match output a with
      | [] => None
      | _ :: _ => Some (join [LF] (output a))
      end
  end.

Definition sendToolCall (t : Turn) : Turn :=
  match activeTool t with
  | None => t
  | Some a =>
      sendUpdate (ToolCall (id a) (title a) (kind a) InProgress (rawInput a)) t
  end.

Definition sendToolUpdate (status : option ToolStatus) (t : Turn) : Turn :=
  match activeTool t with
  | None => t
  | Some a =>
      let rawOutput :=
        match output a with
        | [] => None
        | _ :: _ => Some (join [LF] (output a))
        end in
      sendUpdate (ToolCallUpdate (id a) status (toolContent t) rawOutput) t
  end.

Fixpoint str_eqb (a b : jsstring) : bool :=
  match a, b with
  | [], [] => true
  | x :: a', y :: b' => N.eqb x y && str_eqb a' b'
  | _, _ => false
  end.

Section Clock.

(** [Date.now()] when the [n]-th tool call of the turn is created. *)
Variable now : N -> N.

Definition toolId (seq : N) : jsstring :=
  lit "tool-" ++ ofNumber (now seq) ++ lit "-" ++ ofNumber seq.

Definition handleLine (line : jsstring) (t : Turn) : Turn :=
  match exec toolStartRe line with
  | Some (_, toolMatch) =>
      let t := match activeTool t with
               | Some _ => sendToolUpdate (Some Completed) t
               | None => t
               end in
      let command := trim (default [] (group 1 (caps toolMatch))) in
      let toolName := trim (default [] (group 2 (caps toolMatch))) in
      let seq := (toolSeq t + 1)%N in
      let t := setToolSeq seq t in
      let tool :=
        {| id := toolId seq;
           kind := if str_eqb toolName (lit "shell") then Execute else Other;
           title := match toolName with
                    | [] => command
                    | _ :: _ => toolName ++ lit ": " ++ command
                    end;
           rawInput := command;
           output := [] |} in
      sendToolCall (setActiveTool (Some tool) t)
  | None =>
      match activeTool t with
      | Some a =>
          if test toolDoneRe line
          then setActiveTool None (sendToolUpdate (Some Completed) t)
          else
            let a' := {| id := id a; kind := kind a; title := title a;
                         rawInput := rawInput a;
                         output := output a ++ [line] |} in
            sendToolUpdate (Some InProgress) (setActiveTool (Some a') t)
      | None =>
          if existsb (startsWith line) thoughtPrefixes
          then sendThought (line ++ [LF]) t
          else sendText (line ++ [LF]) t
      end
  end.

Definition handleChunk (text : jsstring) (t : Turn) : Turn :=
  let buffer := lineBuffer t ++ text in
  let '(parts, popped) := Kiro.pop (split Kiro.lineBreak buffer) in
  fold_left (fun t part => handleLine part t) parts
            (setLineBuffer (default [] popped) t).

(** The callback given to [runKiroChat], over the chunk events of one
    listener call. *)
Definition onEvents (texts : list jsstring) (t : Turn) : Turn :=
  fold_left (fun t text => handleChunk text t) texts t.

(** What happens while the subprocess runs: a delivery from it, or a
    [cancel] request of the client. *)
Inductive Step : Type :=
| Proc (ev : ProcEvent)
| CancelReq.

Fixpoint runSteps (steps : list Step) (k : Kiro.State) (t : Turn)
  : Kiro.State * Turn :=
  match steps with
  | [] => (k, t)
  | Proc ev :: steps' =>
      let '(texts, k') := Kiro.onData ev k in
      runSteps steps' k' (onEvents texts t)
  | CancelReq :: steps' => runSteps steps' k (setCancelled true t)
  end.

(** The close of the subprocess: the processor flushes its buffers,
    then [prompt] resumes and flushes the line buffer. *)
Definition flush (k : Kiro.State) (t : Turn) : Turn :=
  let t := onEvents (fst (Kiro.onClose k)) t in
  match lineBuffer t with
  | [] => t
  | _ :: _ => setLineBuffer [] (handleLine (lineBuffer t) t)
  end.

End Clock.

(** [prompt] then closes the tool call that is still open, with a status
    that depends on the exit code. *)
Definition exitStatus (code : option N) : ToolStatus :=
  match code with
  | Some 0%N => Completed
  | _ => Failed
  end.

Definition closeTool (code : option N) (t : Turn) : Turn :=
  match activeTool t with
  | Some _ => setActiveTool None (sendToolUpdate (Some (exitStatus code)) t)
  | None => t
  end.

Definition finish (now : N -> N) (code : option N) (k : Kiro.State)
    (t : Turn) : Turn :=
  closeTool code (flush now k t).

(** *** Sessions *)

Record Mode : Type := {
  mode_id : jsstring;
  mode_name : jsstring;
  mode_description : option jsstring
}.

Record Model : Type := {
  modelId : jsstring;
  model_name : jsstring;
  model_description : option jsstring
}.

Record DefaultAgentSync : Type := {
  lastAttempt : option jsstring;
  lastOk : option bool
}.

(** The [Session] type; [modes] and [models] are flattened into their
    fields and [child] says whether a subprocess handle is stored. *)
Record Session : Type := {
  cwd : jsstring;
  started : bool;
  session_cancelled : bool;
  preflightOk : bool;
  kiroDefaultAgent : option jsstring;
  defaultAgentSync : DefaultAgentSync;
  trustAllTools : bool;
  trustTools : option jsstring;
  wrap : jsstring;
  verbose : bool;
  child : bool;
  currentModeId : jsstring;
  availableModes : list Mode;
  currentModelId : jsstring;
  availableModels : list Model
}.

(** The collaborators of the bridge: the environment of the process,
    the default mode read from the settings of the host, the listing of
    the agents of the external tool, the exit code of its [agent
    set-default] call, the path of its binary and the identifier drawn
    for a new session. *)
Record Host : Type := {
  getenv : jsstring -> option jsstring;
  zedDefaultMode : option jsstring;
  listKiroAgents : list Mode * option jsstring;
  setDefaultExit : option N;
  resolveKiroCli : jsstring;
  randomUUID : jsstring
}.

Definition envString (host : Host) (name : jsstring) : option jsstring :=
  match getenv host name with
  | Some (c :: v) => Some (c :: v)
  | _ => None
  end.

(** [toLowerCase], on the letters that can give the words [envBool]
    compares with: only A to Z lower-case into ASCII letters other
    than k. *)
Definition toLowerCase (s : jsstring) : jsstring :=
  List.map (fun c => if in_range 65 90 c then (c + 32)%N else c) s.

Definition envBool (host : Host) (name : jsstring) : bool :=
  match getenv host name with
  | Some (c :: v) =>
      str_eqb (c :: v) (lit "1")
      || str_eqb (toLowerCase (c :: v)) (lit "true")
      || str_eqb (toLowerCase (c :: v)) (lit "yes")
  | _ => false
  end.

Definition hasMode (modeId : jsstring) (modes : list Mode) : bool :=
  existsb (fun m => str_eqb (mode_id m) modeId) modes.

Definition hasModel (id : jsstring) (models : list Model) : bool :=
  existsb (fun m => str_eqb (modelId m) id) models.

Definition builtinModels : list Model :=
  [ {| modelId := lit "auto"; model_name := lit "Auto";
       model_description :=
         Some (lit "Models chosen by task for optimal usage and consistent quality") |};
    {| modelId := lit "claude-sonnet-4.5"; model_name := lit "Claude Sonnet 4.5";
       model_description := Some (lit "The latest Claude Sonnet model") |};
    {| modelId := lit "claude-sonnet-4"; model_name := lit "Claude Sonnet 4";
       model_description :=
         Some (lit "Hybrid reasoning and coding for regular use") |};
    {| modelId := lit "claude-haiku-4.5"; model_name := lit "Claude Haiku 4.5";
       model_description := Some (lit "The latest Claude Haiku model") |};
    {| modelId := lit "claude-opus-4.5"; model_name := lit "Claude Opus 4.5";
       model_description := Some (lit "The latest Claude Opus model") |} ].

(** The mode that [newSession] starts in. *)
Definition preferredMode (host : Host) : jsstring :=
  let '(agents, defaultAgent) := listKiroAgents host in
  let configured :=
    default (default (default (lit "default") (mode_id <$> head agents))
                     defaultAgent)
            (zedDefaultMode host) in
  match envString host (lit "KIRO_ACP_AGENT") with
  | Some requested =>
      if negb (str_eqb requested (lit "default")) then requested
      else configured
  | None => configured
  end.

(** The modes listed before the preferred one is looked up in them. *)
Definition discoveredModes (host : Host) : list Mode :=
  match fst (listKiroAgents host) with
  | [] => [ {| mode_id := lit "default"; mode_name := lit "default";
               mode_description := None |} ]
  | m :: agents => m :: agents
  end.

(** The entry that [newSession] adds for a preferred mode that is not
    listed. *)
Definition settingsMode (preferred : jsstring) : Mode :=
  {| mode_id := preferred; mode_name := preferred;
     mode_description := Some (lit "From settings") |}.

(** The session that [newSession] stores. *)
Definition freshSession (host : Host) (dir : jsstring) : Session :=
  let defaultAgent := snd (listKiroAgents host) in
  let preferred := preferredMode host in
  let modes := discoveredModes host in
  let modes :=
    if truthy preferred && negb (str_eqb preferred (lit "default"))
       && negb (hasMode preferred modes)
    then modes ++ [settingsMode preferred]
    else modes in
  {| cwd := dir;
     started := false;
     session_cancelled := false;
     preflightOk := false;
     kiroDefaultAgent := defaultAgent;
     defaultAgentSync := {| lastAttempt := None; lastOk := None |};
     trustAllTools := envBool host (lit "KIRO_ACP_TRUST_ALL_TOOLS");
     trustTools := envString host (lit "KIRO_ACP_TRUST_TOOLS");
     wrap := default (lit "auto") (envString host (lit "KIRO_ACP_WRAP"));
     verbose := match envString host (lit "KIRO_ACP_VERBOSE") with
                | Some _ => envBool host (lit "KIRO_ACP_VERBOSE")
                | None => true
                end;
     child := false;
     currentModeId := preferred;
     availableModes := modes;
     currentModelId :=
       default (lit "auto") (envString host (lit "KIRO_ACP_MODEL"));
     availableModels := builtinModels |}.

(** The current mode of a session is one of its available modes. *)
Definition modeListed (s : Session) : Prop :=
  hasMode (currentModeId s) (availableModes s) = true.

(** [newSession]: the identifier returned and the registry after it. *)
Definition newSession (host : Host) (dir : jsstring)
    (sessions : gmap (list N) Session)
  : jsstring * gmap (list N) Session :=
  (randomUUID host, <[randomUUID host := freshSession host dir]> sessions).

Definition opt_eqb (a : option jsstring) (b : jsstring) : bool :=
  match a with Some a => str_eqb a b | None => false end.

(** [syncKiroDefaultAgent] up to its [await]: the guards, which are
    passed when the call is made.  The result is the mode that [agent
    set-default] is started with, if it is started. *)
Definition syncStarts (host : Host) (s : Session) : option jsstring :=
  match zedDefaultMode host with
  | None => None
  | Some desired =>
      if negb (truthy desired) || str_eqb desired (lit "default") then None
      else if opt_eqb (lastAttempt (defaultAgentSync s)) desired
              && match lastOk (defaultAgentSync s) with
                 | Some false => true
                 | _ => false
                 end then None
      else if opt_eqb (kiroDefaultAgent s) desired then None
      else Some desired
  end.

(** [syncKiroDefaultAgent] after its [await]: the assignments, made on
    the session as it is when [agent set-default] has returned. *)
Definition syncCompletes (host : Host) (desired : jsstring) (s : Session)
  : Session :=
  let ok := match setDefaultExit host with
            | Some 0%N => true
            | _ => false
            end in
  {| cwd := cwd s; started := started s;
     session_cancelled := session_cancelled s;
     preflightOk := preflightOk s;
     kiroDefaultAgent := if ok then Some desired else kiroDefaultAgent s;
     defaultAgentSync :=
       {| lastAttempt := Some desired; lastOk := Some ok |};
     trustAllTools := trustAllTools s; trustTools := trustTools s;
     wrap := wrap s; verbose := verbose s; child := child s;
     currentModeId := currentModeId s;
     availableModes := availableModes s;
     currentModelId := currentModelId s;
     availableModels := availableModels s |}.

(** A run of [syncKiroDefaultAgent] that the caller awaits, as [prompt]
    does. *)
Definition syncKiroDefaultAgent (host : Host) (s : Session) : Session :=
  match syncStarts host s with
  | Some desired => syncCompletes host desired s
  | None => s
  end.

(** What a handler gives back: a value, or the error it throws. *)
Inductive Failure : Type :=
| PlainError (message : jsstring)       (* new Error(message) *)
| InternalError (message : jsstring).   (* RequestError.internalError *)

Inductive StopReason : Type := EndTurn | Cancelled.

Definition setMode (modeId : jsstring) (s : Session) : Session :=
  {| cwd := cwd s; started := started s;
     session_cancelled := session_cancelled s;
     preflightOk := preflightOk s;
     kiroDefaultAgent := kiroDefaultAgent s;
     defaultAgentSync := defaultAgentSync s;
     trustAllTools := trustAllTools s; trustTools := trustTools s;
     wrap := wrap s; verbose := verbose s; child := child s;
     currentModeId := modeId;
     availableModes := availableModes s;
     currentModelId := currentModelId s;
     availableModels := availableModels s |}.

Definition setModel (id : jsstring) (s : Session) : Session :=
  {| cwd := cwd s; started := started s;
     session_cancelled := session_cancelled s;
     preflightOk := preflightOk s;
     kiroDefaultAgent := kiroDefaultAgent s;
     defaultAgentSync := defaultAgentSync s;
     trustAllTools := trustAllTools s; trustTools := trustTools s;
     wrap := wrap s; verbose := verbose s; child := child s;
     currentModeId := currentModeId s;
     availableModes := availableModes s;
     currentModelId := id;
     availableModels := availableModels s |}.

(** The flags that [prompt] and [cancel] write. *)
Definition setFlags (isStarted isCancelled isPreflightOk : bool)
    (s : Session) : Session :=
  {| cwd := cwd s; started := isStarted;
     session_cancelled := isCancelled;
     preflightOk := isPreflightOk;
     kiroDefaultAgent := kiroDefaultAgent s;
     defaultAgentSync := defaultAgentSync s;
     trustAllTools := trustAllTools s; trustTools := trustTools s;
     wrap := wrap s; verbose := verbose s; child := false;
     currentModeId := currentModeId s;
     availableModes := availableModes s;
     currentModelId := currentModelId s;
     availableModels := availableModels s |}.

(** [setSessionMode]: the error thrown if any, the registry after the
    call and the notifications sent to the client.  The handler starts
    [syncKiroDefaultAgent] without awaiting it ([void]), so the registry
    it leaves holds the session with its new mode and with the fields of
    the default agent as they were. *)
Definition setSessionMode (host : Host) (sessionId modeId : jsstring)
    (sessions : gmap (list N) Session)
  : option Failure * gmap (list N) Session * list Update :=
  match sessions !! sessionId with
  | None => (Some (PlainError (lit "Session not found")), sessions, [])
  | Some session =>
      if negb (hasMode modeId (availableModes session))
      then (Some (PlainError (lit "Invalid mode")), sessions, [])
      else
        let session := setMode modeId session in
        (None, <[sessionId := session]> sessions, [CurrentModeUpdate modeId])
  end.

(** The call of [agent set-default] that [setSessionMode] leaves
    running: the mode it was started with, if the handler started one. *)
Definition setSessionModeStarts (host : Host) (sessionId modeId : jsstring)
    (sessions : gmap (list N) Session) : option jsstring :=
  match sessions !! sessionId with
  | None => None
  | Some session =>
      if negb (hasMode modeId (availableModes session)) then None
      else
        let session := setMode modeId session in
        if opt_eqb (zedDefaultMode host) modeId
           && negb (opt_eqb (kiroDefaultAgent session) modeId)
        then syncStarts host session
        else None
  end.

(** The call of [agent set-default] left running for the session
    returns: [syncKiroDefaultAgent] resumes and makes its assignments on
    the session, which is still the one of the registry. *)
Definition syncSettles (host : Host) (sessionId desired : jsstring)
    (sessions : gmap (list N) Session) : gmap (list N) Session :=
  match sessions !! sessionId with
  | None => sessions
  | Some session => <[sessionId := syncCompletes host desired session]> sessions
  end.

(** [setSessionModel]. *)
Definition setSessionModel (sessionId id : jsstring)
    (sessions : gmap (list N) Session)
  : option Failure * gmap (list N) Session :=
  match sessions !! sessionId with
  | None => (Some (PlainError (lit "Session not found")), sessions)
  | Some session =>
      if negb (hasModel id (availableModels session))
      then (Some (PlainError (lit "Invalid model")), sessions)
      else (None, <[sessionId := setModel id session]> sessions)
  end.

(** [cancel], for a session with no turn in flight (a request that
    arrives during a turn is the step [CancelReq] of that turn). *)
Definition cancel (sessionId : jsstring) (sessions : gmap (list N) Session)
  : option Failure * gmap (list N) Session :=
  match sessions !! sessionId with
  | None => (Some (PlainError (lit "Session not found")), sessions)
  | Some session =>
      (None,
       <[sessionId := setFlags (started session) true (preflightOk session)
                               session]> sessions)
  end.

(** *** prompt *)

(** The answer of the capability check. *)
Inductive Ready : Type :=
| ReadyOk
| NotReady (message : jsstring).

(** What the world does during one call of [prompt]: whether a cancel
    request arrives while the checks before the launch are awaited, the
    answer of the capability check, the deliveries of the subprocess
    interleaved with cancel requests, its exit code ([None] when a
    signal ended it) and whether a cancel request arrives while the
    chain of deliveries is awaited. *)
Record Script : Type := {
  preCancel : bool;
  ready : Ready;
  steps : list Step;
  exitCode : option N;
  drainCancel : bool
}.

(** The configuration handed to [runKiroChat]. *)
Record KiroChatConfig : Type := {
  config_kiroCli : jsstring;
  config_cwd : jsstring;
  config_input : jsstring;
  config_agent : option jsstring;
  config_model : option jsstring;
  config_resume : bool;
  config_verbose : bool;
  config_trustAllTools : bool;
  config_trustTools : option jsstring;
  config_wrap : jsstring
}.

Definition chatConfig (host : Host) (input : jsstring) (s : Session)
  : KiroChatConfig :=
  {| config_kiroCli := resolveKiroCli host;
     config_cwd := cwd s;
     config_input := input;
     config_agent := if str_eqb (currentModeId s) (lit "default")
                     then None else Some (currentModeId s);
     config_model := if str_eqb (currentModelId s) (lit "auto")
                     then None else Some (currentModelId s);
     config_resume := started s;
     config_verbose := verbose s;
     config_trustAllTools := trustAllTools s;
     config_trustTools := trustTools s;
     config_wrap := wrap s |}.

(** [exit.code ?? "?"] in a template literal. *)
Definition codeText (code : option N) : jsstring :=
  match code with
  | Some n => ofNumber n
  | None => lit "?"
  end.

Definition exitedZero (code : option N) : bool :=
  match code with Some 0%N => true | _ => false end.

(** The notice appended after a failed exit: a line feed, an opening
    parenthesis, [kiro-cli], the three ideographs of the source (U+9000,
    U+51FA, U+7801), a colon, the code, a closing parenthesis, a line
    feed. *)
Definition exitNotice (code : option N) : jsstring :=
  LF :: lit "(kiro-cli " ++ [36864%N; 20986%N; 30721%N] ++ lit ": "
     ++ codeText code ++ lit ")" ++ [LF].

Definition exitMessage (code : option N) : jsstring :=
  lit "kiro-cli exited with code " ++ codeText code.

(** What a call of [prompt] yields: the stop reason or the error, the
    session after it, the updates enqueued on the chain of deliveries in
    order and the subprocess launched, if one was. *)
Record PromptResult : Type := {
  outcome : StopReason + Failure;
  session_after : option Session;
  updates : list Update;
  launched : option KiroChatConfig
}.

Definition initialTurn (isCancelled : bool) : Turn :=
  {| cancelled := isCancelled; sentAny := false; sendChain := [];
     toolSeq := 0%N; activeTool := None; lineBuffer := [] |}.

(** The turn of [prompt] from the launch of the subprocess to the end
    of the wait for the chain of deliveries. *)
Definition runTurn (now : N -> N) (script : Script) : Turn :=
  let '(k, t) :=
    runSteps now (steps script) Kiro.initial
             (initialTurn (preCancel script)) in
  let t := finish now (exitCode script) k t in
  if drainCancel script then setCancelled true t else t.

(** The turn when the subprocess has closed and the line buffer is
    flushed, before the open tool call is closed. *)
Definition atExit (now : N -> N) (script : Script) : Turn :=
  let '(k, t) :=
    runSteps now (steps script) Kiro.initial
             (initialTurn (preCancel script)) in
  flush now k t.

(** The deliveries before the first cancel request that arrives while
    the subprocess runs. *)
Fixpoint beforeCancel (steps : list Step) : list Step :=
  match steps with
  | Proc ev :: steps' => Proc ev :: beforeCancel steps'
  | _ => []
  end.

Definition isCancelReq (step : Step) : bool :=
  match step with
  | CancelReq => true
  | Proc _ => false
  end.

(** The tool call that is open when the first cancel request arrives
    while the subprocess runs, if a request arrives then and finds a
    tool call open. *)
Definition openAtCancel (now : N -> N) (script : Script)
  : option ActiveTool :=
  if existsb isCancelReq (steps script)
  then activeTool (snd (runSteps now (beforeCancel (steps script))
                                 Kiro.initial
                                 (initialTurn (preCancel script))))
  else None.

Definition promptSession (now : N -> N) (host : Host) (script : Script)
    (blocks : list ContentBlock) (session : Session) : PromptResult :=
  let input := promptToText blocks in
  match preflightOk session, ready script with
  | false, NotReady message =>
      let t := sendText message (initialTurn (preCancel script)) in
      {| outcome := inl EndTurn;
         session_after :=
           Some (setFlags (started session) (cancelled t) false session);
         updates := sendChain t;
         launched := None |}
  | _, _ =>
      let session := syncKiroDefaultAgent host session in
      let config := chatConfig host input session in
      let t := runTurn now script in
      if cancelled t then
        {| outcome := inl Cancelled;
           session_after := Some (setFlags (started session) true true session);
           updates := sendChain t;
           launched := Some config |}
      else if negb (sentAny t) && negb (exitedZero (exitCode script)) then
        {| outcome := inr (InternalError (exitMessage (exitCode script)));
           session_after := Some (setFlags (started session) false true session);
           updates := sendChain t;
           launched := Some config |}
      else
        let t := if negb (exitedZero (exitCode script))
                 then sendText (exitNotice (exitCode script)) t else t in
        {| outcome := inl EndTurn;
           session_after := Some (setFlags true false true session);
           updates := sendChain t;
           launched := Some config |}
  end.

(** [prompt] on the registry. *)
Definition prompt (now : N -> N) (host : Host) (script : Script)
    (sessionId : jsstring) (blocks : list ContentBlock)
    (sessions : gmap (list N) Session)
  : PromptResult * gmap (list N) Session :=
  match sessions !! sessionId with
  | None =>
      ({| outcome := inr (PlainError (lit "Session not found"));
          session_after := None; updates := []; launched := None |},
       sessions)
  | Some session =>
      let r := promptSession now host script blocks session in
      (r, match session_after r with
          | Some session' => <[sessionId := session']> sessions
          | None => sessions
          end)
  end.

(** The part of the turn that the client can see. *)
Definition visible (t : Turn) : bool * bool * list Update :=
  (cancelled t, sentAny t, sendChain t).

(** The subprocess is launched unless the capability check fails. *)
Definition launches (session : Session) (script : Script) : Prop :=
  preflightOk session = true \/ ready script = ReadyOk.

(** [sentAny] says whether the chain of deliveries has an update. *)
Definition sentInv (t : Turn) : Prop :=
  sentAny t = match sendChain t with [] => false | _ :: _ => true end.

(** *** What the client sees of a tool call *)

(** The tool call an update is about. *)
Definition updateId (u : Update) : option jsstring :=
  match u with
  | ToolCall i _ _ _ _ => Some i
  | ToolCallUpdate i _ _ _ => Some i
  | _ => None
  end.

Definition about (i : jsstring) (u : Update) : bool :=
  match updateId u with
  | Some j => str_eqb j i
  | None => false
  end.

(** The update that opens the tool call [i]. *)
Definition opens (i : jsstring) (u : Update) : bool :=
  match u with
  | ToolCall j _ _ _ _ => str_eqb j i
  | _ => false
  end.

(** An update that gives the tool call [i] a terminal status. *)
Definition terminalFor (i : jsstring) (u : Update) : bool :=
  match u with
  | ToolCallUpdate j (Some Completed) _ _
  | ToolCallUpdate j (Some Failed) _ _ => str_eqb j i
  | _ => false
  end.

(** Nothing about the tool call [i] follows a terminal status of it. *)
Definition silentAfterTerminal (i : jsstring) (us : list Update) : Prop :=
  forall before u after,
    us = before ++ u :: after -> terminalFor i u = true ->
    Forall (fun v => about i v = false) after.

(** How many updates give the tool call [i] a terminal status. *)
Definition terminalCount (i : jsstring) (us : list Update) : nat :=
  length (List.filter (terminalFor i) us).

(** What holds of the chain of deliveries and of the open tool call all
    along a turn: every update about a tool call carries an identifier
    issued so far; the open tool call is the latest one issued and has no
    terminal status yet; nothing about a tool call follows its terminal
    status; and while the turn is not cancelled every tool call that is
    no longer open has been given a terminal status. *)
Record ToolInv (now : N -> N) (t : Turn) : Prop := {
  ids_issued :
    forall u i, In u (sendChain t) -> updateId u = Some i ->
                exists k, (1 <= k <= toolSeq t)%N /\ i = toolId now k;
  active_latest :
    forall a, activeTool t = Some a ->
              id a = toolId now (toolSeq t) /\ (1 <= toolSeq t)%N;
  active_open :
    forall a, activeTool t = Some a ->
              Forall (fun u => terminalFor (id a) u = false) (sendChain t);
  closed_silent : forall i, silentAfterTerminal i (sendChain t);
  closed_told :
    cancelled t = false ->
    forall k, (1 <= k <= toolSeq t)%N ->
              (k < toolSeq t)%N \/ activeTool t = None ->
              existsb (terminalFor (toolId now k)) (sendChain t) = true
}.

(** No cancel request arrives during the call. *)
Definition undisturbed (script : Script) : Prop :=
  preCancel script = false /\ ~ In CancelReq (steps script)
  /\ drainCancel script = false.

End Agent.

(** ** The stream of the subprocess, as the specification sees it *)

Module Stream.

Import Agent.

(** The pieces of a text between its line feeds; [cur] is the piece read
    so far.  The last piece is the unterminated rest. *)
Fixpoint cut (cur s : jsstring) : list jsstring :=
  match s with
  | [] => [cur]
  | c :: s' => if (LF =? c)%N then cur :: cut [] s' else cut (cur ++ [c]) s'
  end.

(** A text without escape introducer and without carriage return. *)
Definition plain (s : jsstring) : Prop :=
  ~ In ESC s /\ ~ In CSI s /\ ~ In CR s.

Definition handleLines (now : N -> N) (lines : list jsstring) (t : Turn)
  : Turn :=
  fold_left (fun t line => handleLine now line t) lines t.

(** The turn over a stream taken as a whole: its terminated lines are
    handled in order, then its unterminated rest if there is one, then the
    open tool call is closed. *)
Definition turnOfStream (now : N -> N) (code : option N) (s : jsstring)
  : Turn :=
  let t := handleLines now (removelast (cut [] s)) (initialTurn false) in
  let t := match last (cut [] s) with
           | Some (c :: b) => handleLine now (c :: b) t
           | _ => t
           end in
  closeTool code t.

(** The subprocess delivers the chunks on its standard output and exits;
    no cancel request arrives. *)
Definition stdoutOnly (chunks : list jsstring) (code : option N) : Script :=
  {| preCancel := false; ready := ReadyOk;
     steps := List.map (fun data => Proc (StdoutData data)) chunks;
     exitCode := code; drainCancel := false |}.

End Stream.

(** ** Concrete inputs of the examples *)

Module Sample.

Import Agent.

Definition noenv : jsstring -> option jsstring := fun _ => None.

Definition buildMode : Mode :=
  {| mode_id := lit "build"; mode_name := lit "build";
     mode_description := None |}.

(** The external tool lists one agent, [build], and the settings of the
    host name [default] as the default mode. *)
Definition hostDefault : Host :=
  {| getenv := noenv;
     zedDefaultMode := Some (lit "default");
     listKiroAgents := ([buildMode], None);
     setDefaultExit := Some 0%N;
     resolveKiroCli := lit "kiro-cli";
     randomUUID := lit "session-1" |}.

(** The external tool lists one agent, [build], and the settings of the
    host name [review] as the default mode. *)
Definition hostReview : Host :=
  {| getenv := noenv;
     zedDefaultMode := Some (lit "review");
     listKiroAgents := ([buildMode], None);
     setDefaultExit := Some 0%N;
     resolveKiroCli := lit "kiro-cli";
     randomUUID := lit "session-1" |}.

Definition session1 : Session := freshSession hostReview (lit "/tmp").

Definition registry1 : gmap (list N) Session :=
  {[ lit "session-1" := session1 ]}.

(** The scenario of the specification, one delivery for each line. *)
Definition scenarioLines : list jsstring :=
  [ lit "I will run the following command: ls (using tool: shell)" ++ [LF];
    lit "file.txt" ++ [LF];
    lit "- Completed in 0.1s" ++ [LF];
    lit "Done." ++ [LF] ].

Definition deliveries (chunks : list jsstring) : list Step :=
  List.map (fun data => Proc (StdoutData data)) chunks.

Definition scenario : Script :=
  {| preCancel := false; ready := ReadyOk;
     steps := deliveries scenarioLines;
     exitCode := Some 0%N; drainCancel := false |}.

(** A turn cancelled before the subprocess says anything, which then
    exits with code 2. *)
Definition cancelledExit2 : Script :=
  {| preCancel := false; ready := ReadyOk; steps := [CancelReq];
     exitCode := Some 2%N; drainCancel := false |}.

(** A subprocess that says nothing, or one line, and exits with code 2. *)
Definition silentExit2 : Script :=
  {| preCancel := false; ready := ReadyOk; steps := [];
     exitCode := Some 2%N; drainCancel := false |}.

Definition helloExit2 : Script :=
  {| preCancel := false; ready := ReadyOk;
     steps := deliveries [lit "hello" ++ [LF]];
     exitCode := Some 2%N; drainCancel := false |}.

(** One line and exit code 2, and a cancel request while the chain of
    deliveries is awaited. *)
Definition helloExit2Drained : Script :=
  {| preCancel := false; ready := ReadyOk;
     steps := deliveries [lit "hello" ++ [LF]];
     exitCode := Some 2%N; drainCancel := true |}.

(** A cancel request before the launch of a subprocess that exits with
    code 2. *)
Definition earlyCancelExit2 : Script :=
  {| preCancel := true; ready := ReadyOk;
     steps := deliveries [lit "hello" ++ [LF]];
     exitCode := Some 2%N; drainCancel := false |}.

(** A tool call is announced and completed, then the turn is
    cancelled. *)
Definition closedThenCancelled : Script :=
  {| preCancel := false; ready := ReadyOk;
     steps := deliveries
                [lit "I will run the following command: ls (using tool: shell)"
                     ++ [LF];
                 lit "- Completed in 0.1s" ++ [LF]]
              ++ [CancelReq];
     exitCode := Some 0%N; drainCancel := false |}.

(** A tool call is still open when the subprocess exits with code 1,
    and a cancel request arrives while the chain of deliveries is
    awaited. *)
Definition openAtExitDrained : Script :=
  {| preCancel := false; ready := ReadyOk;
     steps := deliveries
                [lit "I will run the following command: ls (using tool: shell)"
                     ++ [LF];
                 lit "file.txt" ++ [LF]];
     exitCode := Some 1%N; drainCancel := true |}.

(** A tool call is announced, then the turn is cancelled. *)
Definition cancelledTool : Script :=
  {| preCancel := false; ready := ReadyOk;
     steps := deliveries
                [lit "I will run the following command: ls (using tool: shell)"
                     ++ [LF]]
              ++ [CancelReq];
     exitCode := Some 0%N; drainCancel := false |}.

Definition clock : N -> N := fun _ => 1700000000000%N.

(** A script that delivers the given chunks on stdout, with exit code 0
    and no cancel request. *)
Definition delivering (chunks : list jsstring) : Script :=
  {| preCancel := false; ready := ReadyOk; steps := deliveries chunks;
     exitCode := Some 0%N; drainCancel := false |}.

(** Two lines ended by CR LF and LF, whole and cut between CR and LF. *)
Definition crlfWhole : list jsstring := [lit "a" ++ [CR; LF] ++ lit "b" ++ [LF]].
Definition crlfCut : list jsstring := [lit "a" ++ [CR]; LF :: lit "b" ++ [LF]].

(** A coloured line, whole and cut after the escape character. *)
Definition colourWhole : list jsstring := [ESC :: lit "[31mred" ++ [LF]].
Definition colourCut : list jsstring := [[ESC]; lit "[31mred" ++ [LF]].

(** An answer marker, an escape character, and the rest of a colour
    sequence with sixty letters after it. *)
Definition markerCut : list jsstring :=
  [lit "> " ++ [ESC]; lit "[31m" ++ repeat 120%N 60].

(** The stream of the scenario cut in the middle of its lines. *)
Definition scenarioCut : list jsstring :=
  [ lit "I will run the following command: ls (usi";
    lit "ng tool: shell)" ++ [LF] ++ lit "file";
    lit ".txt" ++ [LF] ++ lit "- Completed in 0.1s" ++ [LF] ++ lit "Done.";
    [LF] ].

(** A tool call is announced and prints a line; the subprocess then
    exits with code 1 without a completion line. *)
Definition openAtExit : Script :=
  {| preCancel := false; ready := ReadyOk;
     steps := deliveries
                [lit "I will run the following command: ls (using tool: shell)"
                     ++ [LF];
                 lit "file.txt" ++ [LF]];
     exitCode := Some 1%N; drainCancel := false |}.

End Sample.

(** ** What else the sessions and the turn show *)

Module Trace.

Import Agent.

(** The update starts a tool call. *)
Definition isStart (u : Update) : bool :=
  match u with
  | ToolCall _ _ _ _ _ => true
  | _ => false
  end.

(** The identifiers of the tool calls started by the updates, in order. *)
Definition startedIds (us : list Update) : list jsstring :=
  omap (fun u => match u with
                 | ToolCall i _ _ _ _ => Some i
                 | _ => None
                 end) us.

(** Every update about a tool call comes after the update that starts
    the tool call. *)
Definition startsFirst (us : list Update) : Prop :=
  forall before u after i,
    us = before ++ u :: after -> updateId u = Some i -> isStart u = false ->
    In i (startedIds before).

(** The tool call [a] with the lines [lines] added to its output. *)
Definition withOutput (a : ActiveTool) (lines : list jsstring) : ActiveTool :=
  {| id := id a; kind := kind a; title := title a; rawInput := rawInput a;
     output := output a ++ lines |}.

(** The line that announces the tool call [name] on the command
    [command], as the external tool writes it. *)
Definition announcement (command name : jsstring) : jsstring :=
  lit "I will run the following command: " ++ command
    ++ lit " (using tool: " ++ name ++ lit ")".

(** The content and the raw output of an update for a tool call that
    has printed [lines]. *)
Definition reported (lines : list jsstring) : option jsstring :=
  match lines with
  | [] => None
  | _ :: _ => Some (join [LF] lines)
  end.

(** The part of [toolStartRe] after the command. *)
Definition toolStartTail : regex :=
  Seq (Star true space)
    (Seq (text (lit "(using tool:"))
    (Seq (Star true space)
    (Seq (Group 2 (plus true (none_of (lit ")"))))
    (Seq (chr 41)
    (Seq (Star true space) Eol))))).

(** A line terminator, which the dot of a pattern does not match. *)
Definition is_terminator (c : N) : bool :=
  ((c =? 10) || (c =? 13) || (c =? 8232) || (c =? 8233))%N.

(** A word of an announcement: it is not empty, has no white space at
    its ends and holds no line terminator. *)
Definition word (s : jsstring) : Prop :=
  s <> [] /\ stops is_space s /\ stops is_space (rev s)
  /\ Forall (fun c => is_terminator c = false) s.

(** The tool call that [handleLine] opens for an announcement. *)
Definition announced (i command name : jsstring) : ActiveTool :=
  {| id := i;
     kind := if str_eqb name (lit "shell") then Execute else Other;
     title := name ++ lit ": " ++ command;
     rawInput := command;
     output := [] |}.

(** The update that reports the output lines [lines] of the tool call
    [i]. *)
Definition progressUpdate (i : jsstring) (lines : list jsstring) : Update :=
  ToolCallUpdate i (Some InProgress) (Some (join [LF] lines))
                 (Some (join [LF] lines)).

(** A line that neither announces a tool call nor reports its end. *)
Definition outputLine (line : jsstring) : Prop :=
  exec toolStartRe line = None /\ test toolDoneRe line = false.

(** A text without carriage return and without line feed. *)
Definition unbroken (s : jsstring) : Prop := ~ In CR s /\ ~ In LF s.

(** A carriage return or a line feed. *)
Definition is_break (c : N) : bool := ((CR =? c) || (LF =? c))%N.

(** A text without code unit of the class. *)
Definition free (cls : N -> bool) (s : jsstring) : Prop :=
  Forall (fun c => cls c = false) s.

(** The pattern matches, over one code unit at least, wherever the text
    goes on with a code unit of the class. *)
Definition separates (r : regex) (cls : N -> bool) : Prop :=
  forall p c s, cls c = true ->
    exists st, match_at r p (c :: s) = Some st /\ p < pos st.

(** The answer in a transcript: what follows the first answer marker,
    which stands at the start of the transcript or of one of its lines;
    without a marker, the transcript without the white space at its end,
    or nothing when it holds white space only. *)
Definition answer (s : jsstring) : jsstring :=
  match KiroMarker.markerPos s with
  | Some m => drop (m + 2) s
  | None =>
      match trim (trimEnd s) with
      | [] => []
      | _ :: _ => trimEnd s
      end
  end.

(** The text holds no answer marker: it does not start with the
    marker, and the marker follows none of its line feeds. *)
Definition unmarked (s : jsstring) : Prop :=
  (forall b, s <> lit "> " ++ b)
  /\ (forall a b, s <> a ++ LF :: lit "> " ++ b).

(** The text is made of whole lines: it is empty or ends with a line
    feed. *)
Definition wholeLines (s : jsstring) : Prop :=
  s = [] \/ exists l, s = l ++ [LF].

(** What holds of the tool calls started so far all along a turn: their
    identifiers have been issued, each one once; every update about a
    tool call follows its start; and the open tool call has been started
    for the client unless the turn is cancelled. *)
Record Orderly (now : N -> N) (t : Turn) : Prop := {
  started_issued :
    forall i, In i (startedIds (sendChain t)) ->
              exists k, (1 <= k <= toolSeq t)%N /\ i = toolId now k;
  started_once : NoDup (startedIds (sendChain t));
  started_first : startsFirst (sendChain t);
  active_started :
    forall a, activeTool t = Some a -> cancelled t = false ->
              In (id a) (startedIds (sendChain t))
}.

(** The state between two calls: while the marker has not been seen the
    transcript so far holds none, and afterwards all of it has been
    emitted. *)
Definition settled (st : KiroMarker.State) : Prop :=
  if KiroMarker.emitting st
  then KiroMarker.emitCleanIndex st = length (KiroMarker.cleanStdout st)
  else KiroMarker.markerPos (KiroMarker.cleanStdout st) = None.

(** All the chunk events of a run of [runKiroChat]: those of the
    deliveries in order, then those of the close. *)
Fixpoint emitted (evs : list ProcEvent) (st : Kiro.State) : list jsstring :=
  match evs with
  | [] => fst (Kiro.onClose st)
  | ev :: evs' =>
      let '(texts, st') := Kiro.onData ev st in
      texts ++ emitted evs' st'
  end.

End Trace.

(** ** agent.ts: the listing of the agents *)

Module AgentList.

Import Agent.

(** The separator of the lines of the listing: an optional carriage
    return, then a line feed. *)
Definition lineEnd : regex := Seq (opt (chr CR)) (chr LF).

(** The colour sequences removed from a line: the escape character, an
    opening bracket, digits and semicolons, then the letter m. *)
Definition colour : regex :=
  Seq (chr ESC)
    (Seq (chr 91)
      (Seq (Star true (Chr (fun c => in_range 48 57 c || (c =? 59)%N)))
           (chr 109))).

(** A run of white space, the separator of the words of a line. *)
Definition spaces : regex := plus true space.

(** The lines of the output: colour removed, trimmed, the empty ones
    dropped. *)
Definition outputLines (out : jsstring) : list jsstring :=
  List.filter truthy
    (List.map (fun l => trim (replace_all colour 0 0 l)) (split lineEnd out)).

(** One turn of the loop over the lines: [agents] and [defaultAgent]
    after it. *)
Definition parseLine (acc : list Mode * option jsstring) (line : jsstring)
  : list Mode * option jsstring :=
  let isDefault := startsWith line (lit "*") in
  let rest := if isDefault then trimStart (drop 1 line) else line in
  match split spaces rest with
  | [] => acc
  | name :: tail =>
      if negb (truthy name) then acc
      else
        (fst acc
           ++ [ {| mode_id := name; mode_name := name;
                   mode_description :=
                     match tail with
                     | [] => None
                     | _ :: _ => Some (join (lit " ") tail)
                     end |} ],
         if isDefault then Some name else snd acc)
  end.

(** What [listKiroAgents] resolves with when the external tool has
    written [out] and closed. *)
Definition parseAgentList (out : jsstring) : list Mode * option jsstring :=
  fold_left parseLine (outputLines out) ([], None).

(** An agent as the listing can give it: its name, which is also its
    identifier, is not empty and holds no white space. *)
Definition wellFormed (m : Mode) : Prop :=
  mode_id m <> [] /\ Trace.free is_space (mode_id m)
  /\ mode_name m = mode_id m.

End AgentList.

(** ** agent.ts: the settings of the host *)

Module Settings.

(** Where the scan of the text is: in code; in a string literal opened
    by [quote], [escape] being set after a backslash; in a line comment;
    on the star that opens a block comment; in a block comment; on the
    slash that closes one.  The three variables [inString], [quote] and
    [escape] of the source are the first two cases, and the inner loops
    that move the index over a comment are the last four. *)
Inductive Scan : Type :=
| Code
| InString (quote : N) (escape : bool)
| LineComment
| BlockOpen
| BlockComment
| BlockClose.

(** The scan after the code unit [ch] of a string literal. *)
Definition inString (quote : N) (escape : bool) (ch : N) : Scan :=
  if escape then InString quote false
  else if (ch =? 92)%N then InString quote true
  else if (ch =? quote)%N then Code
  else InString quote false.

(** A double or a single quote. *)
Definition is_quote (ch : N) : bool := ((ch =? 34) || (ch =? 39))%N.

(** [source[i + 1] === c]. *)
Definition next_is (c : N) (s : jsstring) : bool :=
  match s with
  | d :: _ => (d =? c)%N
  | [] => false
  end.

Fixpoint stripComments (m : Scan) (source : jsstring) : jsstring :=
  match source with
  | [] => match m with LineComment => [LF] | _ => [] end
  | ch :: s' =>
      match m with
      | InString quote escape =>
          ch :: stripComments (inString quote escape ch) s'
      | Code =>
          if is_quote ch then ch :: stripComments (InString ch false) s'
          else if (ch =? 47)%N && next_is 47 s'
          then stripComments LineComment s'
          else if (ch =? 47)%N && next_is 42 s'
          then stripComments BlockOpen s'
          else ch :: stripComments Code s'
      | LineComment =>
          if (ch =? LF)%N then LF :: stripComments Code s'
          else stripComments LineComment s'
      | BlockOpen => stripComments BlockComment s'
      | BlockComment =>
          if (ch =? 42)%N && next_is 47 s'
          then stripComments BlockClose s'
          else stripComments BlockComment s'
      | BlockClose => stripComments Code s'
      end
  end.

Definition stripJsonWithComments (source : jsstring) : jsstring :=
  stripComments Code source.

(** [next === "}" || next === "]"], [next] being the first code unit
    that is not white space. *)
Definition closes (s : jsstring) : bool :=
  match trimStart s with
  | next :: _ => ((next =? 125) || (next =? 93))%N
  | [] => false
  end.

(** [inCode] is the negation of [inString]; [quote] and [escape] only
    count in a string literal. *)
Fixpoint stripCommas (inCode : bool) (quote : N) (escape : bool)
    (source : jsstring) : jsstring :=
  match source with
  | [] => []
  | ch :: s' =>
      if inCode then
        if is_quote ch then ch :: stripCommas false ch false s'
        else if (ch =? 44)%N && closes s' then stripCommas true quote escape s'
        else ch :: stripCommas true quote escape s'
      else
        ch :: match inString quote escape ch with
              | InString quote' escape' => stripCommas false quote' escape' s'
              | _ => stripCommas true 0%N false s'
              end
  end.

Definition stripTrailingCommas (source : jsstring) : jsstring :=
  stripCommas true 0%N false source.

(** The text that [zedDefaultMode] hands to the JSON parser. *)
Definition cleaned (raw : jsstring) : jsstring :=
  stripTrailingCommas (stripJsonWithComments raw).

(** The text holds no end of block comment. *)
Definition unclosed (body : jsstring) : Prop :=
  forall a b, body <> a ++ [42%N; 47%N] ++ b.

(** A text of code that starts no string literal and no comment. *)
Definition bare (s : jsstring) : Prop :=
  ~ In 34%N s /\ ~ In 39%N s /\ ~ In 47%N s.

(** The body of a string literal opened by [quote] that has no backslash
    and does not close the literal. *)
Definition inside (quote : N) (body : jsstring) : Prop :=
  ~ In quote body /\ ~ In 92%N body.

(** The body of a whole string literal opened by [quote]: a backslash
    takes the code unit after it along, and no other code unit is the
    quote. *)
Inductive literalBody (quote : N) : jsstring -> Prop :=
| body_end : literalBody quote []
| body_plain (c : N) (body : jsstring) :
    c <> quote -> c <> 92%N -> literalBody quote body ->
    literalBody quote (c :: body)
| body_escaped (c : N) (body : jsstring) :
    literalBody quote body -> literalBody quote (92%N :: c :: body).

(** A text that ends outside the string literals: it is made of code
    units of the class [code] that are no quotes and of whole string
    literals. *)
Inductive wholeLiterals (code : N -> bool) : jsstring -> Prop :=
| whole_end : wholeLiterals code []
| whole_code (c : N) (s : jsstring) :
    is_quote c = false -> code c = true -> wholeLiterals code s ->
    wholeLiterals code (c :: s)
| whole_literal (q : N) (body s : jsstring) :
    is_quote q = true -> literalBody q body -> wholeLiterals code s ->
    wholeLiterals code (q :: body ++ q :: s).

(** Any code unit. *)
Definition any (c : N) : bool := true.

(** Any code unit but the slash, with which a comment starts. *)
Definition no_slash (c : N) : bool := negb (c =? 47)%N.

(** A closing brace or bracket. *)
Definition is_closer (c : N) : bool := ((c =? 125) || (c =? 93))%N.

End Settings.

(** ** Concrete inputs of the further properties *)

Module Cases.

Import Agent.

(** The host of [Sample.hostReview] with an external tool that refuses
    to change its default agent. *)
Definition hostRefusing : Host :=
  {| getenv := Sample.noenv;
     zedDefaultMode := Some (lit "review");
     listKiroAgents := ([Sample.buildMode], None);
     setDefaultExit := Some 1%N;
     resolveKiroCli := lit "kiro-cli";
     randomUUID := lit "session-1" |}.

(** A capability check that fails. *)
Definition notLoggedIn : Script :=
  {| preCancel := false; ready := NotReady (lit "not logged in");
     steps := []; exitCode := None; drainCancel := false |}.

(** A listing of three agents, the first one marked as the default and
    the third one in bold. *)
Definition listing : jsstring :=
  lit "* build   Default agent" ++ [CR; LF]
  ++ lit "  review" ++ [LF]
  ++ [ESC] ++ lit "[1mplanner" ++ [ESC] ++ lit "[0m  plans things" ++ [LF].

(** A host without settings whose external tool writes [listing]. *)
Definition hostListing : Host :=
  {| getenv := Sample.noenv;
     zedDefaultMode := None;
     listKiroAgents := AgentList.parseAgentList listing;
     setDefaultExit := Some 0%N;
     resolveKiroCli := lit "kiro-cli";
     randomUUID := lit "session-2" |}.

(** An open tool call that has printed nothing yet. *)
Definition listingFiles : ActiveTool :=
  {| id := lit "tool-1700000000000-1"; kind := Execute;
     title := lit "shell: ls"; rawInput := lit "ls"; output := [] |}.

Definition toolOpen : Turn :=
  {| cancelled := false; sentAny := true; sendChain := [];
     toolSeq := 1%N; activeTool := Some listingFiles; lineBuffer := [] |}.

(** A transcript with a banner before the answer marker, in three
    deliveries. *)
Definition bannerThenAnswer : list jsstring :=
  [lit "Po"; lit "wered by kiro" ++ [LF] ++ lit "> Hel"; lit "lo" ++ [LF]].

End Cases.

(** * Properties *)

(** ** The matcher *)

Section Matcher.

Implicit Types (r : regex) (st : mstate) (s : jsstring).

(** A pattern that starts with a class fails at once on a code unit
    outside the class. *)
Lemma match_at_head_reject (cls : N -> bool) r p c s :
  cls c = false -> match_at (Seq (Chr cls) r) p (c :: s) = None.
Proof. intros H. unfold match_at. simpl. rewrite H. reflexivity. Qed.

Lemma match_at_head_empty (cls : N -> bool) r p :
  match_at (Seq (Chr cls) r) p [] = None.
Proof. reflexivity. Qed.

Lemma flat_map_shift (f : mstate -> list mstate) k (l : list mstate) :
  (forall st, f (shift k st) = List.map (shift k) (f st)) ->
  flat_map f (List.map (shift k) l) = List.map (shift k) (flat_map f l).
Proof.
  intros Hf. induction l as [|x l IH]; simpl; [reflexivity|].
  rewrite Hf, IH, List.map_app. reflexivity.
Qed.

Lemma rmatch_shift r k :
  anchor_free r = true ->
  forall st, rmatch r (shift k st) = List.map (shift k) (rmatch r st).
Proof.
  induction r as [|cls|r1 IH1 r2 IH2|r1 IH1 r2 IH2|g r1 IH1|i r1 IH1| |];
    cbn [rmatch anchor_free]; intros Hr st.
  - reflexivity.
  - change (rest (shift k st)) with (rest st).
    destruct (rest st) as [|c s']; [reflexivity|].
    destruct (cls c); reflexivity.
  - apply andb_prop in Hr as [H1 H2].
    rewrite IH1 by assumption. apply flat_map_shift. auto.
  - apply andb_prop in Hr as [H1 H2].
    rewrite IH1, IH2, List.map_app by assumption. reflexivity.
  - change (rest (shift k st)) with (rest st).
    generalize (S (length (rest st))). intros fuel. revert st.
    induction fuel as [|fuel IHf]; intros st; [reflexivity|].
    cbn [iterate]. rewrite IH1 by assumption.
    rewrite flat_map_shift.
    + destruct g; [rewrite List.map_app|]; reflexivity.
    + intros st'. change (rest (shift k st')) with (rest st').
      destruct (_ <? _); [apply IHf | reflexivity].
  - rewrite IH1, List.map_map by assumption. rewrite List.map_map.
    apply List.map_ext. intros st'. unfold capture, shift. simpl.
    replace (pos st' + k - (pos st + k)) with (pos st' - pos st) by lia.
    reflexivity.
  - discriminate.
  - change (rest (shift k st)) with (rest st).
    destruct (rest st); reflexivity.
Qed.

Lemma match_at_shift r p s :
  anchor_free r = true ->
  match_at r p s = shift p <$> match_at r 0 s.
Proof.
  intros Hr. unfold match_at.
  change (MState p s []) with (shift p (MState 0 s [])).
  rewrite rmatch_shift by assumption.
  destruct (rmatch r (MState 0 s [])); reflexivity.
Qed.

Lemma match_at_length r p s :
  anchor_free r = true ->
  (fun st => pos st - p) <$> match_at r p s = match_length r s.
Proof.
  intros Hr. unfold match_length. rewrite (match_at_shift r p) by assumption.
  destruct (match_at r 0 s) as [st|]; simpl; [|reflexivity].
  f_equal. lia.
Qed.

Lemma replace_all_shift r skip p s :
  anchor_free r = true ->
  replace_all r skip p s = replace_all r skip 0 s.
Proof.
  intros Hr. revert skip p.
  induction s as [|c s IH]; intros skip p; [reflexivity|].
  simpl. destruct skip as [|k].
  - pose proof (match_at_length r p (c :: s) Hr) as Hp.
    pose proof (match_at_length r 0 (c :: s) Hr) as H0.
    destruct (match_at r p (c :: s)) as [st|],
             (match_at r 0 (c :: s)) as [st0|];
      simpl in Hp, H0; rewrite <- H0 in Hp; try discriminate Hp.
    + injection Hp as Hp. rewrite Hp.
      destruct (pos st0 - 0); rewrite (IH _ (S p)), (IH _ 1); reflexivity.
    + rewrite (IH _ (S p)), (IH _ 1); reflexivity.
  - rewrite (IH _ (S p)), (IH _ 1); reflexivity.
Qed.

(** Dropping the rest of a match. *)
Lemma replace_all_skip r (e : jsstring) p s :
  replace_all r (length e) p (e ++ s) = replace_all r 0 (p + length e) s.
Proof.
  revert p. induction e as [|c e IH]; intros p; simpl.
  - rewrite Nat.add_0_r. reflexivity.
  - rewrite IH. f_equal. lia.
Qed.

(** Code units that start no match are copied. *)
Lemma replace_all_copy (cls : N -> bool) r (t : jsstring) p s :
  Forall (fun c => cls c = false) t ->
  replace_all (Seq (Chr cls) r) 0 p (t ++ s)
  = t ++ replace_all (Seq (Chr cls) r) 0 (p + length t) s.
Proof.
  intros Ht. revert p. induction Ht as [|c t Hc Ht IH]; intros p.
  - simpl. rewrite Nat.add_0_r. reflexivity.
  - change ((c :: t) ++ s) with (c :: (t ++ s)).
    cbn [replace_all]. rewrite match_at_head_reject by assumption.
    rewrite IH.
    replace (p + length (c :: t)) with (S p + length t) by (simpl; lia).
    reflexivity.
Qed.

(** *** The preferred match *)

Lemma head_app_some {A} (l1 l2 : list A) (x : A) :
  head l1 = Some x -> head (l1 ++ l2) = Some x.
Proof. destruct l1; [discriminate | auto]. Qed.

Lemma head_flat_map_some {A B} (f : A -> list B) (l : list A) (x : A) (y : B) :
  head l = Some x -> head (f x) = Some y -> head (flat_map f l) = Some y.
Proof.
  destruct l as [|x' l]; [discriminate|]. intros [= ->] H.
  simpl. apply head_app_some, H.
Qed.

Lemma prefer_seq r1 r2 st st1 st2 :
  head (rmatch r1 st) = Some st1 -> head (rmatch r2 st1) = Some st2 ->
  head (rmatch (Seq r1 r2) st) = Some st2.
Proof. apply head_flat_map_some. Qed.

Lemma prefer_chr (cls : N -> bool) p c s cs :
  cls c = true ->
  head (rmatch (Chr cls) (MState p (c :: s) cs)) = Some (MState (S p) s cs).
Proof. intros H. simpl. rewrite H. reflexivity. Qed.

Lemma reject_chr (cls : N -> bool) p s cs :
  stops cls s -> rmatch (Chr cls) (MState p s cs) = [].
Proof. destruct s as [|c s]; simpl; [reflexivity | intros ->; reflexivity]. Qed.

(** A greedy star goes on while its body matches and consumes. *)
Lemma prefer_star_more body fuel st st1 st2 :
  head (body st) = Some st1 -> length (rest st1) < length (rest st) ->
  head (iterate body true fuel st1) = Some st2 ->
  head (iterate body true (S fuel) st) = Some st2.
Proof.
  intros H1 Hlt H2. cbn [iterate]. apply head_app_some.
  apply (head_flat_map_some _ _ st1); [exact H1|].
  apply Nat.ltb_lt in Hlt. rewrite Hlt. exact H2.
Qed.

Lemma prefer_star_stop body fuel st :
  body st = [] -> head (iterate body true (S fuel) st) = Some st.
Proof. intros H. cbn [iterate]. rewrite H. reflexivity. Qed.

(** A greedy star over a class takes all the code units of the class. *)
Lemma prefer_star_class (cls : N -> bool) (pre : jsstring) fuel p s cs :
  Forall (fun c => cls c = true) pre -> stops cls s ->
  length (pre ++ s) < fuel ->
  head (iterate (rmatch (Chr cls)) true fuel (MState p (pre ++ s) cs))
  = Some (MState (p + length pre) s cs).
Proof.
  intros Hpre Hs. revert fuel p.
  induction Hpre as [|c pre Hc Hpre IH]; intros fuel p Hf;
    (destruct fuel as [|fuel]; [lia|]).
  - rewrite Nat.add_0_r. apply prefer_star_stop, reject_chr, Hs.
  - apply (prefer_star_more _ _ _ (MState (S p) (pre ++ s) cs)).
    + apply prefer_chr, Hc.
    + simpl. lia.
    + rewrite IH by (simpl in Hf; lia). do 2 f_equal. simpl. lia.
Qed.

Lemma rmatch_alt r1 r2 st :
  rmatch (Alt r1 r2) st = rmatch r1 st ++ rmatch r2 st.
Proof. reflexivity. Qed.

Lemma rmatch_seq r1 r2 st :
  rmatch (Seq r1 r2) st = flat_map (rmatch r2) (rmatch r1 st).
Proof. reflexivity. Qed.

(** An optional pattern whose first part fails matches the empty string. *)
Lemma prefer_opt_skip r1 r2 st :
  rmatch r1 st = [] -> head (rmatch (opt (Seq r1 r2)) st) = Some st.
Proof.
  intros H. unfold opt. rewrite rmatch_alt, rmatch_seq, H. reflexivity.
Qed.

Lemma prefer_opt_take r st st1 :
  head (rmatch r st) = Some st1 -> head (rmatch (opt r) st) = Some st1.
Proof. intros H. unfold opt. rewrite rmatch_alt. apply head_app_some, H. Qed.

(** Up to [n] code units of a class, taken greedily. *)
Lemma prefer_upto (cls : N -> bool) n (d : jsstring) p s cs :
  Forall (fun c => cls c = true) d -> length d <= n -> stops cls s ->
  head (rmatch (upto n (Chr cls)) (MState p (d ++ s) cs))
  = Some (MState (p + length d) s cs).
Proof.
  intros Hd. revert n p. induction Hd as [|c d Hc Hd IH]; intros n p Hn Hs.
  - rewrite Nat.add_0_r. destruct n as [|n]; [reflexivity|].
    cbn [upto app]. apply prefer_opt_skip, reject_chr, Hs.
  - destruct n as [|n]; [simpl in Hn; lia|].
    cbn [upto]. apply prefer_opt_take.
    apply (prefer_seq _ _ _ (MState (S p) (d ++ s) cs)).
    + apply prefer_chr, Hc.
    + rewrite IH by (simpl in Hn; auto; lia).
      do 2 f_equal. simpl. lia.
Qed.

End Matcher.

(** ** ansi.ts *)

Section AnsiProperties.

Implicit Types (s t e : jsstring).

Lemma ANSI_PATTERN_anchor_free : anchor_free ANSI_PATTERN = true.
Proof. reflexivity. Qed.

(** A string has no introducer when it holds neither U+001B nor U+009B. *)
Lemma no_introducer s :
  ~ In ESC s -> ~ In CSI s -> Forall (fun c => introducer c = false) s.
Proof.
  intros He Hc. apply Forall_forall. intros c Hin.
  unfold introducer. apply orb_false_intro; apply N.eqb_neq; intros ->.
  - apply He. apply list_elem_of_In. exact Hin.
  - apply Hc. apply list_elem_of_In. exact Hin.
Qed.

Lemma stripAnsi_copy t s :
  ~ In ESC t -> ~ In CSI t -> stripAnsi (t ++ s) = t ++ stripAnsi s.
Proof.
  intros He Hc. unfold stripAnsi, ANSI_PATTERN.
  rewrite replace_all_copy by (apply no_introducer; assumption).
  f_equal. apply replace_all_shift. reflexivity.
Qed.

(** The pattern needs an introducer and a final byte. *)
Lemma recognized_nonempty e s : recognized e s -> e <> [].
Proof.
  unfold recognized, match_length. intros H ->. simpl in H.
  destruct s as [|c s]; [discriminate|].
  unfold match_at in H.
  destruct (rmatch ANSI_PATTERN (MState 0 (c :: s) [])) as [|st l] eqn:E;
    [discriminate|].
  simpl in H. injection H as H.
  assert (Hin : In st (rmatch ANSI_PATTERN (MState 0 (c :: s) [])))
    by (rewrite E; left; reflexivity).
  unfold ANSI_PATTERN in Hin. simpl in Hin.
  destruct (introducer c); simpl in Hin; [|contradiction].
  rewrite List.app_nil_r in Hin.
  apply List.in_flat_map in Hin as (st1 & _ & Hin).
  apply List.in_flat_map in Hin as (st2 & _ & Hin).
  simpl in Hin. destruct (rest st2) as [|c2 s2]; [contradiction|].
  destruct (final_byte c2); [|contradiction].
  destruct Hin as [<-|[]]. discriminate H.
Qed.

Lemma stripAnsi_remove e s : recognized e s -> stripAnsi (e ++ s) = stripAnsi s.
Proof.
  intros H. pose proof (recognized_nonempty e s H) as Hne.
  unfold recognized, match_length in H.
  destruct e as [|c e]; [congruence|].
  unfold stripAnsi. change ((c :: e) ++ s) with (c :: (e ++ s)) in *.
  cbn [replace_all].
  destruct (match_at ANSI_PATTERN 0 (c :: e ++ s)) as [st|]; [|discriminate].
  simpl in H. injection H as H. rewrite Nat.sub_0_r, H.
  rewrite replace_all_skip. apply replace_all_shift. reflexivity.
Qed.

(** *** Control sequences in their usual shape *)

Ltac class_facts :=
  unfold is_digit, prefix_byte, final_byte, introducer, in_range in *;
  repeat rewrite ?andb_true_iff, ?orb_true_iff, ?orb_false_iff,
                 ?N.leb_le, ?N.eqb_eq, ?N.eqb_neq in *;
  lia.

Lemma digit_not_prefix c : is_digit c = true -> prefix_byte c = false.
Proof. intros H. class_facts. Qed.

Lemma final_not_prefix c : final_byte c = true -> prefix_byte c = false.
Proof. intros H. class_facts. Qed.

Lemma final_not_semicolon c : final_byte c = true -> (59 =? c)%N = false.
Proof. intros H. class_facts. Qed.

Lemma semicolon_not_digit : is_digit 59 = false.
Proof. reflexivity. Qed.

(** After the parameters comes a semicolon or the final byte, so no
    digit. *)
Lemma stops_digit_groups more f s :
  is_digit f = false -> stops is_digit (groups more ++ f :: s).
Proof. intros Hf. destruct more; [exact Hf | reflexivity]. Qed.

(** The star over the groups of a semicolon and up to four digits takes
    them all. *)
Lemma prefer_groups more fuel p f s cs :
  Forall (number 0) more -> final_byte f = true -> is_digit f = false ->
  length (groups more ++ f :: s) < fuel ->
  head (iterate (rmatch (Seq (chr 59) (rep 0 4 digit))) true fuel
                (MState p (groups more ++ f :: s) cs))
  = Some (MState (p + length (groups more)) (f :: s) cs).
Proof.
  intros Hmore Hf Hd. revert fuel p.
  induction Hmore as [|d more [Hlen Hdigits] Hmore IH]; intros fuel p Hfuel;
    (destruct fuel as [|fuel]; [lia|]).
  - rewrite Nat.add_0_r. apply prefer_star_stop.
    rewrite rmatch_seq. unfold chr. rewrite reject_chr; [reflexivity|].
    apply final_not_semicolon, Hf.
  - unfold groups in *. cbn [List.map concat app] in Hfuel |- *.
    rewrite <- List.app_assoc in Hfuel |- *.
    apply (prefer_star_more _ _ _
             (MState (S p + length d)
                     (concat (List.map (fun d => 59%N :: d) more) ++ f :: s) cs)).
    + apply (prefer_seq _ _ _
               (MState (S p)
                  (d ++ concat (List.map (fun d => 59%N :: d) more) ++ f :: s)
                  cs)).
      * apply prefer_chr. reflexivity.
      * apply (prefer_upto is_digit); [exact Hdigits | lia|].
        apply stops_digit_groups, Hd.
    + cbn [rest length]. rewrite !length_app. lia.
    + rewrite IH.
      * do 2 f_equal. cbn [length]. rewrite length_app. lia.
      * cbn [length] in Hfuel. rewrite !length_app in Hfuel.
        rewrite !length_app. lia.
Qed.

Lemma recognized_by_head e s n :
  head (rmatch ANSI_PATTERN (MState 0 (e ++ s) [])) = Some (MState n s []) ->
  n = length e -> recognized e s.
Proof.
  intros H ->. unfold recognized, match_length, match_at. rewrite H.
  reflexivity.
Qed.

Lemma controlSequence_recognized e s : controlSequence e -> recognized e s.
Proof.
  intros [i pre f Hi Hpre Hf Hd | i pre first more f Hi Hpre [Hlen Hfirst]
                                    Hmore Hf Hd].
  - eapply recognized_by_head.
    + cbn [app]. rewrite <- List.app_assoc. cbn [app]. unfold ANSI_PATTERN.
      eapply prefer_seq; [apply prefer_chr, Hi|].
      eapply prefer_seq.
      { cbn [rmatch rest]. apply prefer_star_class; [exact Hpre | | lia].
        apply final_not_prefix, Hf. }
      eapply prefer_seq; [|apply prefer_chr, Hf].
      apply prefer_opt_skip. cbn [rep]. rewrite rmatch_seq.
      unfold digit. rewrite reject_chr; [reflexivity | exact Hd].
    + cbn [length]. rewrite length_app. simpl. lia.
  - destruct first as [|c first]; [simpl in Hlen; lia|].
    inversion Hfirst as [|? ? Hc Hfirst']; subst.
    eapply recognized_by_head.
    + replace ((i :: pre ++ parameters (c :: first) more ++ [f]) ++ s)
        with (i :: pre ++ c :: first ++ groups more ++ f :: s)
        by (unfold parameters, groups; cbn [app];
            repeat (rewrite <- List.app_assoc; cbn [app]); reflexivity).
      unfold ANSI_PATTERN.
      eapply prefer_seq; [apply prefer_chr, Hi|].
      eapply prefer_seq.
      { cbn [rmatch rest]. apply prefer_star_class; [exact Hpre | | lia].
        apply digit_not_prefix, Hc. }
      eapply prefer_seq; [|apply prefer_chr, Hf].
      apply prefer_opt_take.
      eapply prefer_seq.
      * cbn [rep]. eapply prefer_seq; [apply prefer_chr, Hc|].
        apply (prefer_upto is_digit);
          [exact Hfirst' | simpl in Hlen; simpl; lia|].
        apply stops_digit_groups, Hd.
      * cbn [rmatch rest]. apply prefer_groups; auto.
    + unfold parameters. fold (groups more). cbn [length app].
      rewrite !length_app. cbn [length]. rewrite ?length_app. simpl. lia.
Qed.

Lemma stripAnsi_plain s : ~ In ESC s -> ~ In CSI s -> stripAnsi s = s.
Proof.
  intros He Hc. rewrite <- (List.app_nil_r s) at 1.
  rewrite stripAnsi_copy by assumption. apply List.app_nil_r.
Qed.

Lemma stripAnsi_keep c s :
  match_length ANSI_PATTERN (c :: s) = None ->
  stripAnsi (c :: s) = c :: stripAnsi s.
Proof.
  unfold match_length, stripAnsi. intros H. cbn [replace_all].
  destruct (match_at ANSI_PATTERN 0 (c :: s)); [discriminate|].
  f_equal. apply replace_all_shift. reflexivity.
Qed.

(** The sequences that the specification names have the usual shape. *)
Lemma sequenceFinals_final f :
  In f sequenceFinals -> final_byte f = true /\ is_digit f = false.
Proof.
  intros H. vm_compute in H.
  repeat (destruct H as [<-|H]; [split; reflexivity|]). destruct H.
Qed.

Lemma namedSequence_controlSequence e : namedSequence e -> controlSequence e.
Proof.
  intros [start f Hs Hf | start first more f Hs Hfirst Hmore Hf];
    destruct (sequenceFinals_final f Hf) as [H1 H2];
    destruct Hs as [-> | [-> | [-> | ->]]].
  - apply (cs_bare ESC [91%N] f); auto; repeat constructor.
  - apply (cs_bare CSI [] f); auto; repeat constructor.
  - apply (cs_bare ESC [91%N; 63%N] f); auto; repeat constructor.
  - apply (cs_bare CSI [63%N] f); auto; repeat constructor.
  - apply (cs_parameters ESC [91%N] first more f); auto;
      repeat constructor.
  - apply (cs_parameters CSI [] first more f); auto; repeat constructor.
  - apply (cs_parameters ESC [91%N; 63%N] first more f); auto;
      repeat constructor.
  - apply (cs_parameters CSI [63%N] first more f); auto;
      repeat constructor.
Qed.

(** C9: [stripAnsi] is a function of its input alone; it returns a
    string that holds neither U+001B nor U+009B as it is, whatever else
    the string holds; in front of text without introducer it removes a
    recognized escape sequence entirely and goes on after it; the control
    sequences of the usual shape are recognized whatever follows them,
    and among them the sequences that the specification names: a start
    [ESC [] or U+009B with or without a question mark, no parameter or
    numbers of up to four digits between semicolons, and a final letter
    of cursor movement (A to H, f), of erasing (J, K), of colour and
    style (m) or of a mode (h, l); and it keeps a code unit at which the
    pattern does not match.  So exactly the recognized sequences are
    removed. *)
Theorem stripAnsi_removes_recognized :
  (forall s, ~ In ESC s -> ~ In CSI s -> stripAnsi s = s)
  /\ (forall t e s,
        ~ In ESC t -> ~ In CSI t -> recognized e s ->
        stripAnsi (t ++ e ++ s) = t ++ stripAnsi s)
  /\ (forall t e s,
        ~ In ESC t -> ~ In CSI t -> controlSequence e ->
        stripAnsi (t ++ e ++ s) = t ++ stripAnsi s)
  /\ (forall t c s,
        ~ In ESC t -> ~ In CSI t ->
        match_length ANSI_PATTERN (c :: s) = None ->
        stripAnsi (t ++ c :: s) = t ++ c :: stripAnsi s)
  /\ (forall t e s,
        ~ In ESC t -> ~ In CSI t -> namedSequence e ->
        stripAnsi (t ++ e ++ s) = t ++ stripAnsi s).
Proof.
  repeat split.
  - apply stripAnsi_plain.
  - intros t e s He Hc Hr.
    rewrite stripAnsi_copy, stripAnsi_remove by assumption. reflexivity.
  - intros t e s He Hc Hr.
    rewrite stripAnsi_copy, stripAnsi_remove;
      auto using controlSequence_recognized.
  - intros t c s He Hc Hn.
    rewrite stripAnsi_copy, stripAnsi_keep by assumption. reflexivity.
  - intros t e s He Hc Hr.
    rewrite stripAnsi_copy, stripAnsi_remove;
      auto using controlSequence_recognized, namedSequence_controlSequence.
Qed.

Lemma stripAnsi_removes_recognized_witness :
  stripAnsi (lit "caf" ++ [233%N; 8364%N; 55357%N; 56832%N])
  = lit "caf" ++ [233%N; 8364%N; 55357%N; 56832%N]
  /\ stripAnsi (lit "a" ++ (ESC :: lit "7") ++ lit " apples")
     = lit "a" ++ stripAnsi (lit " apples")
  /\ stripAnsi (lit "a" ++ (ESC :: lit "[" ++ parameters (lit "1") [lit "31"]
                                 ++ lit "m") ++ lit "b")
     = lit "a" ++ stripAnsi (lit "b")
  /\ stripAnsi (lit "a" ++ ESC :: lit "]0;t")
     = lit "a" ++ ESC :: stripAnsi (lit "]0;t")
  /\ stripAnsi (lit "a" ++ (ESC :: lit "[H") ++ lit "b")
     = lit "a" ++ stripAnsi (lit "b")
  /\ stripAnsi (lit "a" ++ (ESC :: lit "[2K") ++ lit "b")
     = lit "a" ++ stripAnsi (lit "b")
  /\ stripAnsi (lit "a" ++ (ESC :: lit "[10;20H") ++ lit "5")
     = lit "a" ++ stripAnsi (lit "5")
  /\ stripAnsi (lit "a" ++ (ESC :: lit "[?25l") ++ lit "b")
     = lit "a" ++ stripAnsi (lit "b")
  /\ stripAnsi (lit "a" ++ (CSI :: lit "31m") ++ lit "b")
     = lit "a" ++ stripAnsi (lit "b").
Proof.
  destruct stripAnsi_removes_recognized as (Hid & Hrm & Hcs & Hkeep & Hnamed).
  assert (Ha : ~ In ESC (lit "a") /\ ~ In CSI (lit "a")).
  { split; vm_compute; intros [E|[]]; discriminate E. }
  destruct Ha as [Ha1 Ha2].
  split; [|split; [|split; [|split; [|split; [|split; [|split; [|split]]]]]]].
  - apply Hid; vm_compute; intuition discriminate.
  - apply (Hrm (lit "a") (ESC :: lit "7") (lit " apples"));
      [exact Ha1 | exact Ha2 | vm_compute; reflexivity].
  - apply Hcs; [exact Ha1 | exact Ha2 |].
    apply (cs_parameters ESC (lit "[") (lit "1") [lit "31"] 109%N).
    + reflexivity.
    + repeat constructor.
    + split; [simpl; lia | repeat constructor].
    + repeat constructor; simpl; lia.
    + reflexivity.
    + reflexivity.
  - apply Hkeep; [exact Ha1 | exact Ha2 | vm_compute; reflexivity].
  - apply Hnamed; [exact Ha1 | exact Ha2 |].
    apply (named_bare [ESC; 91%N] 72%N); [left; reflexivity|].
    vm_compute. tauto.
  - apply Hnamed; [exact Ha1 | exact Ha2 |].
    apply (named_parameters [ESC; 91%N] (lit "2") [] 75%N).
    + left. reflexivity.
    + split; [simpl; lia | repeat constructor].
    + constructor.
    + vm_compute. tauto.
  - apply Hnamed; [exact Ha1 | exact Ha2 |].
    apply (named_parameters [ESC; 91%N] (lit "10") [lit "20"] 72%N).
    + left. reflexivity.
    + split; [simpl; lia | repeat constructor].
    + repeat constructor; simpl; lia.
    + vm_compute. tauto.
  - apply Hnamed; [exact Ha1 | exact Ha2 |].
    apply (named_parameters [ESC; 91%N; 63%N] (lit "25") [] 108%N).
    + right. right. left. reflexivity.
    + split; [simpl; lia | repeat constructor].
    + constructor.
    + vm_compute. tauto.
  - apply Hnamed; [exact Ha1 | exact Ha2 |].
    apply (named_parameters [CSI] (lit "31") [] 109%N).
    + right. left. reflexivity.
    + split; [simpl; lia | repeat constructor].
    + constructor.
    + vm_compute. tauto.
Defined.

End AnsiProperties.

(** The final byte of the pattern may be a digit, so what is recognized
    after an introducer depends on the text that follows: a digit that
    follows [ESC 7] is taken into the match. *)
Example stripAnsi_digit_final :
  stripAnsi (ESC :: lit "7 apples") = lit " apples"
  /\ stripAnsi (ESC :: lit "75 apples") = lit " apples".
Proof. vm_compute. split; reflexivity. Qed.

Example stripAnsi_colour :
  stripAnsi (ESC :: lit "[31mred" ++ ESC :: lit "[0m!") = lit "red!".
Proof. vm_compute. reflexivity. Qed.

(** ** prompt.ts *)

Section PromptProperties.

Lemma join_empty (parts : list jsstring) : join [] parts = concat parts.
Proof.
  induction parts as [|p ps IH]; [reflexivity|].
  destruct ps as [|q ps].
  - simpl. rewrite List.app_nil_r. reflexivity.
  - change (join [] (p :: q :: ps)) with (p ++ [] ++ join [] (q :: ps)).
    rewrite IH. reflexivity.
Qed.

(** The template literal of the source gives the wrapped text. *)
Lemma contextBlock_wrapped uri text :
  contextBlock uri text = contextWrapped uri text.
Proof.
  unfold contextBlock, contextWrapped. cbn [concat].
  rewrite List.app_nil_r. cbn [app].
  repeat (rewrite <- ?List.app_assoc; cbn [app]). reflexivity.
Qed.

Lemma concat_pushChunk parts chunk :
  concat (pushChunk parts chunk) = concat parts ++ contribution chunk.
Proof.
  destruct chunk as [text|uri|resource|[uri|]|]; simpl;
    rewrite ?List.concat_app, ?List.app_nil_r; simpl;
    rewrite ?List.app_nil_r; try reflexivity.
  - destruct (resource_text resource) as [text|];
      cbn [contribution resource_text];
      rewrite ?List.concat_app, ?List.app_nil_r; [|reflexivity].
    cbn [concat]. rewrite List.app_nil_r, contextBlock_wrapped. reflexivity.
  - destruct uri; simpl; rewrite ?List.concat_app; simpl;
      rewrite ?List.app_nil_r; reflexivity.
Qed.

Lemma concat_fold_pushChunk prompt parts :
  concat (fold_left pushChunk prompt parts)
  = concat parts ++ concat (List.map contribution prompt).
Proof.
  revert parts. induction prompt as [|chunk prompt IH]; intros parts; simpl.
  - rewrite List.app_nil_r. reflexivity.
  - rewrite IH, concat_pushChunk, <- List.app_assoc. reflexivity.
Qed.

Lemma silent_contribution chunk : silent chunk -> contribution chunk = [].
Proof.
  destruct chunk as [text|uri|resource|[uri|]|]; simpl; try contradiction.
  - intros ->. reflexivity.
  - reflexivity.
Qed.

(** C10: the text of a prompt is the concatenation, in order, of what
    its chunks contribute: the text of a text chunk; the uri of a
    resource link; for a resource with text, a line feed, the opening tag
    [<context ref=...>] with the uri between double quotes, a line feed,
    the text, a line feed, the closing tag [</context>] and a line feed;
    the uri of an image that has one; nothing otherwise.  A prompt made
    only of resources without text and images without uri gives the
    empty string. *)
Theorem promptToText_contributions (prompt : list ContentBlock) :
  promptToText prompt = concat (List.map contribution prompt)
  /\ (Forall silent prompt -> promptToText prompt = []).
Proof.
  assert (H : promptToText prompt = concat (List.map contribution prompt)).
  { unfold promptToText. rewrite join_empty, concat_fold_pushChunk.
    reflexivity. }
  split; [exact H|].
  intros Hs. rewrite H. clear H.
  induction Hs as [|chunk prompt Hc Hs IH]; [reflexivity|].
  simpl. rewrite silent_contribution, IH by assumption. reflexivity.
Qed.

Lemma promptToText_contributions_witness :
  (Forall silent [ResourceBlock (Build_EmbeddedResource (lit "file:///x") None);
                  ImageBlock None]
   /\ promptToText
        [ResourceBlock (Build_EmbeddedResource (lit "file:///x") None);
         ImageBlock None] = [])
  /\ promptToText
       [TextBlock (lit "see ");
        ResourceBlock (Build_EmbeddedResource (lit "file:///x")
                                              (Some (lit "hi")));
        ImageBlock (Some (lit "file:///y"));
        ResourceLinkBlock (lit "file:///z")]
     = lit "see " ++ [LF] ++ lit "<context ref=" ++ [34%N] ++ lit "file:///x"
         ++ [34%N] ++ lit ">" ++ [LF] ++ lit "hi" ++ [LF] ++ lit "</context>"
         ++ [LF] ++ lit "file:///yfile:///z".
Proof.
  assert (H : Forall silent
                [ResourceBlock (Build_EmbeddedResource (lit "file:///x") None);
                 ImageBlock None]).
  { repeat constructor. }
  split; [split; [exact H|]|].
  - exact (proj2 (promptToText_contributions _) H).
  - rewrite (proj1 (promptToText_contributions _)). reflexivity.
Defined.

(** The round trip of the specification, and the wrapping of a resource
    with text. *)
Example promptToText_round_trip :
  promptToText [TextBlock (lit "a"); ResourceLinkBlock (lit "file:///x");
                TextBlock (lit "b")] = lit "afile:///xb"
  /\ promptToText
       [ResourceBlock (Build_EmbeddedResource (lit "file:///x")
                                              (Some (lit "hi")))]
     = [LF] ++ lit "<context ref=" ++ [34%N] ++ lit "file:///x" ++ [34%N]
         ++ lit ">" ++ [LF] ++ lit "hi" ++ [LF] ++ lit "</context>" ++ [LF].
Proof. split; reflexivity. Qed.

End PromptProperties.

(** ** Sessions *)

Section SessionProperties.

Import Agent.

Lemma str_eqb_eq (a b : jsstring) : str_eqb a b = true <-> a = b.
Proof.
  revert b. induction a as [|x a IH]; intros [|y b]; simpl;
    try (split; [discriminate|discriminate]); [tauto|].
  rewrite andb_true_iff, N.eqb_eq, IH. split.
  - intros [-> ->]. reflexivity.
  - intros [= -> ->]. auto.
Qed.

Lemma str_eqb_refl (a : jsstring) : str_eqb a a = true.
Proof. apply str_eqb_eq. reflexivity. Qed.

Lemma hasMode_In modeId (modes : list Mode) :
  hasMode modeId modes = true <-> In modeId (List.map mode_id modes).
Proof.
  unfold hasMode. rewrite existsb_exists, in_map_iff. split.
  - intros (m & Hin & Heq). apply str_eqb_eq in Heq. eauto.
  - intros (m & Heq & Hin). exists m. rewrite str_eqb_eq. auto.
Qed.

Lemma hasModel_In id (models : list Model) :
  hasModel id models = true <-> In id (List.map modelId models).
Proof.
  unfold hasModel. rewrite existsb_exists, in_map_iff. split.
  - intros (m & Hin & Heq). apply str_eqb_eq in Heq. eauto.
  - intros (m & Heq & Hin). exists m. rewrite str_eqb_eq. auto.
Qed.

(** C7: a mode id that is not among the available modes of the session
    makes [setSessionMode] throw and leaves the registry, hence the
    session and its current mode, as it was; the same holds for
    [setSessionModel] and the available models. *)
Theorem set_unknown_mode_or_model_throws
    (host : Host) (sessions : gmap (list N) Session)
    (sessionId : jsstring) (session : Session) (requested : jsstring) :
  sessions !! sessionId = Some session ->
  (~ In requested (List.map mode_id (availableModes session)) ->
   setSessionMode host sessionId requested sessions
   = (Some (PlainError (lit "Invalid mode")), sessions, []))
  /\ (~ In requested (List.map modelId (availableModels session)) ->
      setSessionModel sessionId requested sessions
      = (Some (PlainError (lit "Invalid model")), sessions)).
Proof.
  intros Hs. split; intros Hn.
  - unfold setSessionMode. rewrite Hs.
    destruct (hasMode requested (availableModes session)) eqn:E;
      [|reflexivity].
    apply hasMode_In in E. contradiction.
  - unfold setSessionModel. rewrite Hs.
    destruct (hasModel requested (availableModels session)) eqn:E;
      [|reflexivity].
    apply hasModel_In in E. contradiction.
Qed.

Lemma set_unknown_mode_or_model_throws_witness :
  setSessionMode Sample.hostReview (lit "session-1") (lit "plan")
                 Sample.registry1
  = (Some (PlainError (lit "Invalid mode")), Sample.registry1, [])
  /\ setSessionModel (lit "session-1") (lit "gpt") Sample.registry1
     = (Some (PlainError (lit "Invalid model")), Sample.registry1).
Proof.
  pose proof (set_unknown_mode_or_model_throws Sample.hostReview
                Sample.registry1 (lit "session-1") Sample.session1) as H.
  split.
  - apply (H (lit "plan")); [reflexivity|].
    vm_compute. intros [E|[E|[]]]; discriminate E.
  - apply (H (lit "gpt")); [reflexivity|].
    vm_compute. intros [E|[E|[E|[E|[E|[]]]]]]; discriminate E.
Defined.

(** The handlers other than [setSessionMode] leave the modes alone. *)
Lemma modeListed_setFlags a b c s :
  modeListed (setFlags a b c s) <-> modeListed s.
Proof. reflexivity. Qed.

Lemma modeListed_setModel id s : modeListed (setModel id s) <-> modeListed s.
Proof. reflexivity. Qed.

Lemma modeListed_sync host s :
  modeListed (syncKiroDefaultAgent host s) <-> modeListed s.
Proof.
  unfold syncKiroDefaultAgent.
  destruct (syncStarts host s); reflexivity.
Qed.

Lemma modeListed_setMode modeId s :
  hasMode modeId (availableModes s) = true -> modeListed (setMode modeId s).
Proof. intros H. exact H. Qed.

Lemma promptSession_modeListed now host script blocks s s' :
  session_after (promptSession now host script blocks s) = Some s' ->
  modeListed s -> modeListed s'.
Proof.
  unfold promptSession. intros H Hs.
  assert (Hsync := proj2 (modeListed_sync host s) Hs).
  destruct (preflightOk s), (ready script);
    repeat (match type of H with
            | context [if ?b then _ else _] => destruct b
            end);
    simpl in H; injection H as <-; assumption.
Qed.

Lemma freshSession_modeListed host dir :
  modeListed (freshSession host dir)
  <-> (preferredMode host <> [] /\ preferredMode host <> lit "default")
      \/ In (preferredMode host) (List.map mode_id (discoveredModes host)).
Proof.
  unfold modeListed, freshSession. cbn [currentModeId availableModes].
  set (p := preferredMode host). set (ms := discoveredModes host).
  destruct (hasMode p ms) eqn:Hin.
  - rewrite !andb_false_r. rewrite Hin.
    split; [intros _; right; apply hasMode_In; exact Hin | reflexivity].
  - rewrite andb_true_r.
    assert (Hnin : ~ In p (List.map mode_id ms)).
    { rewrite <- hasMode_In, Hin. discriminate. }
    destruct (truthy p) eqn:Ht, (str_eqb p (lit "default")) eqn:Hd; simpl.
    + rewrite Hin. apply str_eqb_eq in Hd.
      split; [discriminate | intros [[_ H]|H]; contradiction].
    + split; [|intros _].
      * intros _. left. split.
        -- intros E. rewrite E in Ht. discriminate.
        -- intros E. apply str_eqb_eq in E. congruence.
      * apply hasMode_In. rewrite List.map_app, in_app_iff.
        right. left. reflexivity.
    + rewrite Hin. apply str_eqb_eq in Hd.
      split; [discriminate | intros [[_ H]|H]; contradiction].
    + rewrite Hin. destruct p; [|discriminate].
      split; [discriminate | intros [[H _]|H]; contradiction].
Qed.

(** C8, as the code has it: a session made by [newSession] lists its
    current mode exactly when that mode is among the modes found or is
    neither empty nor the literal [default]; in the second case, if it is
    missing from the modes found, the entry added for it has the mode as
    id and name and the description [From settings]; and
    [setSessionMode], [setSessionModel], [cancel] and [prompt] keep every
    session of the registry listing its current mode. *)
Theorem current_mode_listed :
  (forall host dir,
      (modeListed (freshSession host dir)
       <-> (preferredMode host <> [] /\ preferredMode host <> lit "default")
           \/ In (preferredMode host)
                 (List.map mode_id (discoveredModes host)))
      /\ (preferredMode host <> [] -> preferredMode host <> lit "default" ->
          ~ In (preferredMode host)
               (List.map mode_id (discoveredModes host)) ->
          availableModes (freshSession host dir)
          = discoveredModes host ++ [settingsMode (preferredMode host)]))
  /\ (forall now host script blocks sessionId modeId
             (sessions : gmap (list N) Session),
        map_Forall (fun _ => modeListed) sessions ->
        map_Forall (fun _ => modeListed)
                   (snd (fst (setSessionMode host sessionId modeId sessions)))
        /\ map_Forall (fun _ => modeListed)
                      (snd (setSessionModel sessionId modeId sessions))
        /\ map_Forall (fun _ => modeListed) (snd (cancel sessionId sessions))
        /\ map_Forall (fun _ => modeListed)
                      (snd (prompt now host script sessionId blocks sessions))).
Proof.
  split.
  - intros host dir. split.
    + apply freshSession_modeListed.
    + intros Hne Hnd Hnin. unfold freshSession. cbn [availableModes].
      assert (Ht : truthy (preferredMode host) = true)
        by (destruct (preferredMode host); [congruence | reflexivity]).
      assert (Hd : str_eqb (preferredMode host) (lit "default") = false).
      { destruct (str_eqb _ _) eqn:E; [|reflexivity].
        apply str_eqb_eq in E. contradiction. }
      assert (Hh : hasMode (preferredMode host) (discoveredModes host) = false).
      { destruct (hasMode _ _) eqn:E; [|reflexivity].
        apply hasMode_In in E. contradiction. }
      rewrite Ht, Hd, Hh. reflexivity.
  - intros now host script blocks sessionId modeId sessions Hall.
    repeat split.
    + unfold setSessionMode.
      destruct (sessions !! sessionId) as [s|] eqn:Hs; [|exact Hall].
      destruct (hasMode modeId (availableModes s)) eqn:Hm; [|exact Hall].
      simpl. apply map_Forall_insert_2; [|exact Hall].
      apply modeListed_setMode. exact Hm.
    + unfold setSessionModel.
      destruct (sessions !! sessionId) as [s|] eqn:Hs; [|exact Hall].
      destruct (hasModel modeId (availableModels s)); [|exact Hall].
      simpl. apply map_Forall_insert_2; [|exact Hall].
      apply modeListed_setModel. exact (Hall _ _ Hs).
    + unfold cancel.
      destruct (sessions !! sessionId) as [s|] eqn:Hs; [|exact Hall].
      simpl. apply map_Forall_insert_2; [|exact Hall].
      apply modeListed_setFlags. exact (Hall _ _ Hs).
    + unfold prompt.
      destruct (sessions !! sessionId) as [s|] eqn:Hs; [|exact Hall].
      cbn [snd].
      destruct (session_after _) as [s'|] eqn:Ha; [|exact Hall].
      apply map_Forall_insert_2; [|exact Hall].
      eapply promptSession_modeListed; [exact Ha|]. exact (Hall _ _ Hs).
Qed.

Lemma current_mode_listed_witness :
  modeListed (freshSession Sample.hostReview (lit "/tmp"))
  /\ availableModes (freshSession Sample.hostReview (lit "/tmp"))
     = [Sample.buildMode; settingsMode (lit "review")]
  /\ map_Forall (fun _ => modeListed)
       (snd (fst (setSessionMode Sample.hostReview (lit "session-1")
                                 (lit "build") Sample.registry1))).
Proof.
  destruct current_mode_listed as [Hnew Hkeep].
  destruct (Hnew Sample.hostReview (lit "/tmp")) as [H1 H2].
  assert (Hlisted : modeListed (freshSession Sample.hostReview (lit "/tmp"))).
  { apply H1. left. split; discriminate. }
  split; [exact Hlisted|]. split.
  - apply H2; [discriminate | discriminate |].
    vm_compute. intros [E|[]]. discriminate E.
  - apply (Hkeep (fun _ => 0%N) Sample.hostReview
                 (Build_Script false ReadyOk [] None false) []).
    apply map_Forall_singleton. exact Hlisted.
Defined.

(** C8 as stated fails: with [default] configured as the default mode and
    another agent listed, the current mode of the new session is not
    among its available modes; and the entry added for a missing mode
    carries a description. *)
Lemma current_mode_not_listed :
  ~ modeListed (freshSession Sample.hostDefault (lit "/tmp"))
  /\ (exists m,
        last (availableModes (freshSession Sample.hostReview (lit "/tmp")))
        = Some m
        /\ mode_id m = currentModeId (freshSession Sample.hostReview (lit "/tmp"))
        /\ mode_description m <> None).
Proof.
  split.
  - vm_compute. discriminate.
  - exists (settingsMode (lit "review")).
    split; [reflexivity|]. split; [reflexivity|]. discriminate.
Qed.

End SessionProperties.

(** ** The turn *)

Section TurnProperties.

Import Agent.

Variable now : N -> N.

Implicit Types (t : Turn) (u : Update) (line : jsstring).

(** *** What the closures do to the variables they share *)

Lemma sendUpdate_cancelled u t : cancelled (sendUpdate u t) = cancelled t.
Proof. unfold sendUpdate. destruct (cancelled t) eqn:E; simpl; auto. Qed.

Lemma sendUpdate_activeTool u t : activeTool (sendUpdate u t) = activeTool t.
Proof. unfold sendUpdate. destruct (cancelled t); reflexivity. Qed.

Lemma sendUpdate_toolSeq u t : toolSeq (sendUpdate u t) = toolSeq t.
Proof. unfold sendUpdate. destruct (cancelled t); reflexivity. Qed.

Lemma sendUpdate_lineBuffer u t : lineBuffer (sendUpdate u t) = lineBuffer t.
Proof. unfold sendUpdate. destruct (cancelled t); reflexivity. Qed.

Lemma sendUpdate_sendChain u t :
  sendChain (sendUpdate u t)
  = sendChain t ++ (if cancelled t then [] else [u]).
Proof.
  unfold sendUpdate. destruct (cancelled t); simpl;
    [rewrite List.app_nil_r|]; reflexivity.
Qed.

Lemma sendUpdate_sentAny u t :
  sentAny (sendUpdate u t) = sentAny t || negb (cancelled t).
Proof.
  unfold sendUpdate. destruct (cancelled t); simpl;
    [rewrite orb_false_r | rewrite orb_true_r]; reflexivity.
Qed.

(** Once the flag is set, a send changes nothing. *)
Lemma sendUpdate_suppressed u t : cancelled t = true -> sendUpdate u t = t.
Proof. unfold sendUpdate. intros ->. reflexivity. Qed.

Lemma sendToolUpdate_suppressed st t :
  cancelled t = true -> sendToolUpdate st t = t.
Proof.
  intros H. unfold sendToolUpdate. destruct (activeTool t); [|reflexivity].
  apply sendUpdate_suppressed. exact H.
Qed.

Lemma sendToolCall_suppressed t : cancelled t = true -> sendToolCall t = t.
Proof.
  intros H. unfold sendToolCall. destruct (activeTool t); [|reflexivity].
  apply sendUpdate_suppressed. exact H.
Qed.

Lemma handleLine_suppressed line t :
  cancelled t = true -> visible (handleLine now line t) = visible t.
Proof.
  intros H. unfold handleLine.
  destruct (exec toolStartRe line) as [[p m]|].
  - rewrite sendToolCall_suppressed.
    + destruct (activeTool t);
        [rewrite sendToolUpdate_suppressed by exact H|]; reflexivity.
    + destruct (activeTool t);
        [rewrite sendToolUpdate_suppressed by exact H|]; exact H.
  - destruct (activeTool t) as [a|].
    + destruct (test toolDoneRe line).
      * rewrite sendToolUpdate_suppressed by exact H. reflexivity.
      * rewrite sendToolUpdate_suppressed by exact H. reflexivity.
    + unfold sendThought, sendText.
      destruct (existsb _ _); rewrite sendUpdate_suppressed by exact H;
        reflexivity.
Qed.

Lemma visible_cancelled t t' :
  visible t' = visible t -> cancelled t' = cancelled t.
Proof. unfold visible. congruence. Qed.

Lemma fold_suppressed {A} (f : A -> Turn -> Turn) (l : list A) t :
  (forall x t, cancelled t = true -> visible (f x t) = visible t) ->
  cancelled t = true ->
  visible (fold_left (fun t x => f x t) l t) = visible t.
Proof.
  intros Hf. revert t. induction l as [|x l IH]; intros t H; [reflexivity|].
  simpl. rewrite IH.
  - apply Hf. exact H.
  - rewrite (visible_cancelled _ _ (Hf x t H)). exact H.
Qed.

Lemma handleChunk_suppressed chunk t :
  cancelled t = true -> visible (handleChunk now chunk t) = visible t.
Proof.
  intros H. unfold handleChunk.
  destruct (Kiro.pop _) as [parts popped].
  rewrite (fold_suppressed (handleLine now)).
  - reflexivity.
  - apply handleLine_suppressed.
  - exact H.
Qed.

Lemma onEvents_suppressed texts t :
  cancelled t = true -> visible (onEvents now texts t) = visible t.
Proof.
  intros H. unfold onEvents.
  apply (fold_suppressed (handleChunk now)); [|exact H].
  apply handleChunk_suppressed.
Qed.

Lemma runSteps_suppressed steps k t :
  cancelled t = true ->
  visible (snd (runSteps now steps k t)) = visible t.
Proof.
  revert k t. induction steps as [|[ev|] steps IH]; intros k t H.
  - reflexivity.
  - simpl. destruct (Kiro.onData ev k) as [texts k'].
    rewrite IH.
    + apply onEvents_suppressed. exact H.
    + rewrite (visible_cancelled _ _ (onEvents_suppressed texts t H)).
      exact H.
  - simpl. rewrite IH by reflexivity.
    unfold visible. simpl. rewrite H. reflexivity.
Qed.

Lemma flush_suppressed k t :
  cancelled t = true -> visible (flush now k t) = visible t.
Proof.
  intros H. unfold flush.
  pose proof (onEvents_suppressed (fst (Kiro.onClose k)) t H) as H1.
  set (t1 := onEvents now (fst (Kiro.onClose k)) t) in *.
  assert (Hc1 : cancelled t1 = true)
    by (rewrite (visible_cancelled _ _ H1); exact H).
  destruct (lineBuffer t1) as [|c b] eqn:E; [exact H1|].
  change (visible (handleLine now (c :: b) t1) = visible t).
  rewrite handleLine_suppressed by exact Hc1. exact H1.
Qed.

Lemma closeTool_suppressed code t :
  cancelled t = true -> visible (closeTool code t) = visible t.
Proof.
  intros H. unfold closeTool. destruct (activeTool t); [|reflexivity].
  rewrite sendToolUpdate_suppressed by exact H. reflexivity.
Qed.

Lemma finish_suppressed code k t :
  cancelled t = true -> visible (finish now code k t) = visible t.
Proof.
  intros H. unfold finish.
  pose proof (flush_suppressed k t H) as H1.
  rewrite closeTool_suppressed; [exact H1|].
  rewrite (visible_cancelled _ _ H1). exact H.
Qed.

Lemma runSteps_app steps1 steps2 k t :
  runSteps now (steps1 ++ steps2) k t
  = runSteps now steps2 (fst (runSteps now steps1 k t))
                        (snd (runSteps now steps1 k t)).
Proof.
  revert k t. induction steps1 as [|[ev|] steps1 IH]; intros k t; simpl.
  - reflexivity.
  - destruct (Kiro.onData ev k) as [texts k']. apply IH.
  - apply IH.
Qed.

Lemma promptSession_launched host script blocks session :
  launches session script ->
  promptSession now host script blocks session
  = let session := syncKiroDefaultAgent host session in
    let config := chatConfig host (promptToText blocks) session in
    let t := runTurn now script in
    if cancelled t then
      {| outcome := inl Cancelled;
         session_after := Some (setFlags (started session) true true session);
         updates := sendChain t;
         launched := Some config |}
    else if negb (sentAny t) && negb (exitedZero (exitCode script)) then
      {| outcome := inr (InternalError (exitMessage (exitCode script)));
         session_after := Some (setFlags (started session) false true session);
         updates := sendChain t;
         launched := Some config |}
    else
      let t := if negb (exitedZero (exitCode script))
               then sendText (exitNotice (exitCode script)) t else t in
      {| outcome := inl EndTurn;
         session_after := Some (setFlags true false true session);
         updates := sendChain t;
         launched := Some config |}.
Proof.
  intros [H|H]; unfold promptSession; rewrite H;
    [|destruct (preflightOk session)]; reflexivity.
Qed.

(** *** Cancellation *)

Lemma runTurn_cancelled_after steps1 steps2 pre rdy code drain :
  visible (runTurn now (Build_Script pre rdy (steps1 ++ CancelReq :: steps2)
                                     code drain))
  = visible (setCancelled true
               (snd (runSteps now steps1 Kiro.initial (initialTurn pre)))).
Proof.
  unfold runTurn. cbn [steps preCancel exitCode drainCancel].
  rewrite runSteps_app.
  destruct (runSteps now steps1 Kiro.initial (initialTurn pre)) as [k1 t1].
  cbn [fst snd runSteps].
  pose proof (runSteps_suppressed steps2 k1 (setCancelled true t1) eq_refl)
    as H2.
  destruct (runSteps now steps2 k1 (setCancelled true t1)) as [k2 t2].
  cbn [snd] in H2.
  pose proof (finish_suppressed code k2 t2) as H3.
  rewrite (visible_cancelled _ _ H2) in H3. specialize (H3 eq_refl).
  destruct drain; [|congruence].
  rewrite <- H2, <- H3. unfold visible. simpl.
  rewrite (visible_cancelled _ _ H3), (visible_cancelled _ _ H2).
  reflexivity.
Qed.

Lemma runTurn_cancelled_before script :
  preCancel script = true ->
  visible (runTurn now script) = (true, false, []).
Proof.
  intros Hp. unfold runTurn. rewrite Hp.
  pose proof (runSteps_suppressed (steps script) Kiro.initial
                (initialTurn true) eq_refl) as H1.
  destruct (runSteps now (steps script) Kiro.initial (initialTurn true))
    as [k t].
  cbn [snd] in H1.
  pose proof (finish_suppressed (exitCode script) k t) as H2.
  rewrite (visible_cancelled _ _ H1) in H2. specialize (H2 eq_refl).
  assert (H0 : visible (initialTurn true) = (true, false, []))
    by reflexivity.
  destruct (drainCancel script); [|congruence].
  rewrite <- H0, <- H1, <- H2. unfold visible. simpl.
  rewrite (visible_cancelled _ _ H2), (visible_cancelled _ _ H1).
  reflexivity.
Qed.

(** The turn of [prompt] is the turn at the exit of the subprocess with
    its open tool call closed, and with the flag set if a cancel request
    arrives while the chain of deliveries is awaited. *)
Lemma runTurn_atExit script :
  runTurn now script
  = let t := closeTool (exitCode script) (atExit now script) in
    if drainCancel script then setCancelled true t else t.
Proof.
  unfold runTurn, atExit, finish.
  destruct (runSteps now (steps script) Kiro.initial _) as [k t].
  reflexivity.
Qed.

(** A request that arrives while the chain of deliveries is awaited
    finds every update of the turn enqueued already. *)
Lemma runTurn_cancelled_draining script :
  drainCancel script = true ->
  cancelled (runTurn now script) = true
  /\ sendChain (runTurn now script)
     = sendChain (closeTool (exitCode script) (atExit now script)).
Proof.
  intros Hd. rewrite runTurn_atExit. cbv zeta. rewrite Hd.
  split; reflexivity.
Qed.

(** C5: once a cancel request has set the flag of the session, no
    update is enqueued for the rest of the turn, whatever the subprocess
    still delivers before it exits: the updates of the whole call are
    those enqueued before the request, which stay on the chain, and the
    call ends with the stop reason [cancelled]; when the request comes
    before the first update, none is enqueued at all; and when it comes
    while the chain of deliveries is awaited, after the subprocess has
    exited, the updates of the call are those of the turn up to the
    closing of the open tool call, so that no notice of the exit code is
    enqueued after them, and the call ends with [cancelled] as well. *)
Theorem cancel_suppresses_updates host blocks session :
  (forall (pre : bool) (rdy : Ready) (steps1 steps2 : list Step)
          (code : option N) (drain : bool),
      launches session (Build_Script pre rdy (steps1 ++ CancelReq :: steps2)
                                     code drain) ->
      updates (promptSession now host
                 (Build_Script pre rdy (steps1 ++ CancelReq :: steps2)
                               code drain)
                 blocks session)
      = sendChain (snd (runSteps now steps1 Kiro.initial (initialTurn pre)))
      /\ outcome (promptSession now host
                    (Build_Script pre rdy (steps1 ++ CancelReq :: steps2)
                                  code drain)
                    blocks session)
         = inl Cancelled)
  /\ (forall script,
        preCancel script = true ->
        updates (promptSession now host script blocks session) = [])
  /\ (forall script,
        launches session script -> drainCancel script = true ->
        updates (promptSession now host script blocks session)
        = sendChain (closeTool (exitCode script) (atExit now script))
        /\ outcome (promptSession now host script blocks session)
           = inl Cancelled).
Proof.
  split; [|split].
  - intros pre rdy steps1 steps2 code drain Hl.
    rewrite promptSession_launched by exact Hl. cbv zeta.
    pose proof (runTurn_cancelled_after steps1 steps2 pre rdy code drain)
      as Hv.
    unfold visible in Hv. injection Hv as Hc Hs Hq.
    rewrite Hc. simpl. split; [exact Hq | reflexivity].
  - intros script Hp.
    pose proof (runTurn_cancelled_before script Hp) as Hv.
    unfold visible in Hv. injection Hv as Hc Hs Hq.
    unfold promptSession.
    destruct (preflightOk session), (ready script);
      rewrite ?Hc, ?Hp; simpl; auto.
  - intros script Hl Hd.
    destruct (runTurn_cancelled_draining script Hd) as [Hc Hq].
    rewrite promptSession_launched by exact Hl. cbv zeta.
    rewrite Hc. simpl. split; [exact Hq | reflexivity].
Qed.

(** Without a cancel request the flag stays clear. *)
Lemma sendToolUpdate_cancelled st t :
  cancelled (sendToolUpdate st t) = cancelled t.
Proof.
  unfold sendToolUpdate. destruct (activeTool t); [|reflexivity].
  apply sendUpdate_cancelled.
Qed.

Lemma sendToolCall_cancelled t : cancelled (sendToolCall t) = cancelled t.
Proof.
  unfold sendToolCall. destruct (activeTool t); [|reflexivity].
  apply sendUpdate_cancelled.
Qed.

Lemma handleLine_cancelled line t :
  cancelled (handleLine now line t) = cancelled t.
Proof.
  unfold handleLine.
  destruct (exec toolStartRe line) as [[p m]|].
  - rewrite sendToolCall_cancelled. simpl.
    destruct (activeTool t); [apply sendToolUpdate_cancelled | reflexivity].
  - destruct (activeTool t) as [a|].
    + destruct (test toolDoneRe line); simpl;
        rewrite sendToolUpdate_cancelled; reflexivity.
    + unfold sendThought, sendText.
      destruct (existsb _ _); apply sendUpdate_cancelled.
Qed.

Lemma fold_cancelled {A} (f : A -> Turn -> Turn) (l : list A) t :
  (forall x t, cancelled (f x t) = cancelled t) ->
  cancelled (fold_left (fun t x => f x t) l t) = cancelled t.
Proof.
  intros Hf. revert t. induction l as [|x l IH]; intros t; [reflexivity|].
  simpl. rewrite IH. apply Hf.
Qed.

Lemma handleChunk_cancelled chunk t :
  cancelled (handleChunk now chunk t) = cancelled t.
Proof.
  unfold handleChunk. destruct (Kiro.pop _) as [parts popped].
  rewrite (fold_cancelled (handleLine now)); [reflexivity|].
  apply handleLine_cancelled.
Qed.

Lemma onEvents_cancelled texts t :
  cancelled (onEvents now texts t) = cancelled t.
Proof. apply (fold_cancelled (handleChunk now)), handleChunk_cancelled. Qed.

Lemma flush_cancelled k t : cancelled (flush now k t) = cancelled t.
Proof.
  unfold flush.
  set (t1 := onEvents now (fst (Kiro.onClose k)) t).
  assert (H1 : cancelled t1 = cancelled t) by apply onEvents_cancelled.
  destruct (lineBuffer t1); [exact H1|].
  simpl. rewrite handleLine_cancelled. exact H1.
Qed.

Lemma closeTool_cancelled code t : cancelled (closeTool code t) = cancelled t.
Proof.
  unfold closeTool. destruct (activeTool t); [|reflexivity].
  simpl. apply sendToolUpdate_cancelled.
Qed.

Lemma finish_cancelled code k t :
  cancelled (finish now code k t) = cancelled t.
Proof. unfold finish. rewrite closeTool_cancelled. apply flush_cancelled. Qed.

Lemma runSteps_undisturbed steps k t :
  ~ In CancelReq steps ->
  cancelled (snd (runSteps now steps k t)) = cancelled t.
Proof.
  revert k t. induction steps as [|[ev|] steps IH]; intros k t Hn.
  - reflexivity.
  - simpl. destruct (Kiro.onData ev k) as [texts k'].
    rewrite IH by (intros H; apply Hn; right; exact H).
    apply onEvents_cancelled.
  - exfalso. apply Hn. left. reflexivity.
Qed.

Lemma runTurn_undisturbed script :
  undisturbed script -> cancelled (runTurn now script) = false.
Proof.
  intros (Hp & Hs & Hd). unfold runTurn. rewrite Hd.
  pose proof (runSteps_undisturbed (steps script) Kiro.initial
                (initialTurn (preCancel script)) Hs) as H.
  destruct (runSteps now (steps script) Kiro.initial
              (initialTurn (preCancel script))) as [k t].
  rewrite finish_cancelled. simpl in H. rewrite H, Hp. reflexivity.
Qed.

(** *** Properties kept along a turn *)

(** A property kept by the handling of a line, by the assignments of
    [prompt] and by a cancel request is kept by the whole turn. *)
Section Preserved.

Variable P : Turn -> Prop.
Hypothesis P_line : forall line t, P t -> P (handleLine now line t).
Hypothesis P_buffer : forall b t, P t -> P (setLineBuffer b t).
Hypothesis P_close : forall code t, P t -> P (closeTool code t).
Hypothesis P_cancel : forall t, P t -> P (setCancelled true t).

Lemma fold_preserves {A} (f : A -> Turn -> Turn) (l : list A) t :
  (forall x t, P t -> P (f x t)) ->
  P t -> P (fold_left (fun t x => f x t) l t).
Proof.
  intros Hf. revert t. induction l as [|x l IH]; intros t H; simpl; auto.
Qed.

Lemma handleChunk_preserves chunk t : P t -> P (handleChunk now chunk t).
Proof.
  intros H. unfold handleChunk. destruct (Kiro.pop _) as [parts popped].
  apply (fold_preserves (handleLine now)); auto.
Qed.

Lemma onEvents_preserves texts t : P t -> P (onEvents now texts t).
Proof.
  intros H. apply (fold_preserves (handleChunk now)); [|exact H].
  intros; apply handleChunk_preserves; assumption.
Qed.

Lemma flush_preserves k t : P t -> P (flush now k t).
Proof.
  intros H. unfold flush.
  set (t1 := onEvents now (fst (Kiro.onClose k)) t).
  assert (H1 : P t1) by (apply onEvents_preserves; exact H).
  destruct (lineBuffer t1); [exact H1|]. apply P_buffer, P_line, H1.
Qed.

Lemma runSteps_preserves steps k t :
  P t -> P (snd (runSteps now steps k t)).
Proof.
  revert k t. induction steps as [|[ev|] steps IH]; intros k t H; simpl.
  - exact H.
  - destruct (Kiro.onData ev k) as [texts k'].
    apply IH, onEvents_preserves, H.
  - apply IH, P_cancel, H.
Qed.

Lemma runTurn_preserves script :
  P (initialTurn (preCancel script)) -> P (runTurn now script).
Proof.
  intros H. unfold runTurn.
  pose proof (runSteps_preserves (steps script) Kiro.initial _ H) as H1.
  destruct (runSteps now (steps script) Kiro.initial
              (initialTurn (preCancel script))) as [k t].
  simpl in H1. unfold finish.
  destruct (drainCancel script);
    [apply P_cancel|]; apply P_close, flush_preserves, H1.
Qed.

End Preserved.

(** A property kept by every send and every assignment is kept by the
    handling of a line and by the closing of the open tool call. *)
Section PreservedBySends.

Variable P : Turn -> Prop.
Hypothesis P_send : forall u t, P t -> P (sendUpdate u t).
Hypothesis P_tool : forall a t, P t -> P (setActiveTool a t).
Hypothesis P_seq : forall n t, P t -> P (setToolSeq n t).

Lemma sendToolUpdate_preserves st t : P t -> P (sendToolUpdate st t).
Proof.
  intros H. unfold sendToolUpdate. destruct (activeTool t); auto.
Qed.

Lemma sendToolCall_preserves t : P t -> P (sendToolCall t).
Proof. intros H. unfold sendToolCall. destruct (activeTool t); auto. Qed.

Lemma handleLine_preserves line t : P t -> P (handleLine now line t).
Proof.
  intros H. unfold handleLine.
  destruct (exec toolStartRe line) as [[p m]|].
  - apply sendToolCall_preserves, P_tool, P_seq.
    destruct (activeTool t); [apply sendToolUpdate_preserves|]; exact H.
  - destruct (activeTool t) as [a|].
    + destruct (test toolDoneRe line).
      * apply P_tool, sendToolUpdate_preserves, H.
      * apply sendToolUpdate_preserves, P_tool, H.
    + unfold sendThought, sendText. destruct (existsb _ _); auto.
Qed.

Lemma closeTool_preserves code t : P t -> P (closeTool code t).
Proof.
  intros H. unfold closeTool. destruct (activeTool t); [|exact H].
  apply P_tool, sendToolUpdate_preserves, H.
Qed.

End PreservedBySends.

Lemma sentInv_sendUpdate u t : sentInv t -> sentInv (sendUpdate u t).
Proof.
  unfold sentInv, sendUpdate. intros H.
  destruct (cancelled t); [exact H|]. simpl.
  destruct (sendChain t); reflexivity.
Qed.

Lemma runTurn_sentInv script : sentInv (runTurn now script).
Proof.
  apply runTurn_preserves; try reflexivity.
  - intros line t. apply handleLine_preserves;
      auto using sentInv_sendUpdate.
  - auto.
  - intros code t. apply closeTool_preserves;
      auto using sentInv_sendUpdate.
  - auto.
Qed.

(** *** The exit code *)

(** A cancel request at any moment of the call leaves the flag set when
    the deliveries have drained, and nothing else does. *)
Lemma runTurn_disturbed script :
  preCancel script = true \/ In CancelReq (steps script)
  \/ drainCancel script = true ->
  cancelled (runTurn now script) = true.
Proof.
  intros [Hp | [Hs | Hd]].
  - pose proof (runTurn_cancelled_before script Hp) as Hv.
    unfold visible in Hv. injection Hv as Hc _ _. exact Hc.
  - apply List.in_split in Hs as (steps1 & steps2 & Hs).
    destruct script as [pre rdy sts code drain]. cbn [steps] in Hs. subst sts.
    pose proof (runTurn_cancelled_after steps1 steps2 pre rdy code drain)
      as Hv.
    unfold visible in Hv. injection Hv as Hc _ _. exact Hc.
  - apply (runTurn_cancelled_draining script Hd).
Qed.

Lemma runTurn_flag script :
  cancelled (runTurn now script) = false <-> undisturbed script.
Proof.
  split; [|apply runTurn_undisturbed].
  intros Hc. unfold undisturbed.
  destruct (preCancel script) eqn:Hp.
  { rewrite runTurn_disturbed in Hc by (left; exact Hp). discriminate Hc. }
  destruct (drainCancel script) eqn:Hd.
  { rewrite runTurn_disturbed in Hc by (right; right; exact Hd).
    discriminate Hc. }
  split; [reflexivity|]. split; [|reflexivity].
  intros Hs. rewrite runTurn_disturbed in Hc by (right; left; exact Hs).
  discriminate Hc.
Qed.

(** C6, as the code has it: when the subprocess exits with a code other
    than zero and the flag of the session is clear once the deliveries
    have drained, [prompt] throws an internal error whose message ends
    with the code if no update was enqueued, and otherwise enqueues a
    text notice that holds the code and returns [end_turn].  The flag is
    clear exactly when no cancel request has arrived, neither before the
    launch, nor while the subprocess ran, nor while the deliveries
    drained; after a request at any of these moments [prompt] returns
    [cancelled] whatever the exit code is, with the updates of the turn
    and no notice. *)
Theorem nonzero_exit_reported host blocks session script :
  launches session script ->
  let r := promptSession now host script blocks session in
  (forall n : N,
      exitCode script = Some n -> n <> 0%N ->
      cancelled (runTurn now script) = false ->
      (sendChain (runTurn now script) = [] ->
       outcome r
       = inr (InternalError (lit "kiro-cli exited with code " ++ ofNumber n))
       /\ updates r = [])
      /\ (sendChain (runTurn now script) <> [] ->
          outcome r = inl EndTurn
          /\ updates r
             = sendChain (runTurn now script)
               ++ [AgentMessageChunk
                     (LF :: lit "(kiro-cli " ++ [36864%N; 20986%N; 30721%N]
                         ++ lit ": " ++ ofNumber n ++ lit ")" ++ [LF])]))
  /\ (preCancel script = true \/ In CancelReq (steps script)
      \/ drainCancel script = true ->
      outcome r = inl Cancelled
      /\ updates r = sendChain (runTurn now script))
  /\ (cancelled (runTurn now script) = false
      <-> preCancel script = false /\ ~ In CancelReq (steps script)
          /\ drainCancel script = false).
Proof.
  intros Hl r. unfold r. split; [|split].
  - intros n Hcode Hn Hc.
    rewrite promptSession_launched by exact Hl. cbv zeta.
    rewrite Hc, Hcode.
    assert (Hz : exitedZero (Some n) = false).
    { destruct n; [congruence | reflexivity]. }
    rewrite Hz. cbn [negb]. rewrite andb_true_r.
    pose proof (runTurn_sentInv script) as Hs. unfold sentInv in Hs.
    split; intros Hq.
    + rewrite Hq in Hs. rewrite Hs. simpl. rewrite Hq. auto.
    + destruct (sendChain (runTurn now script)) eqn:E; [congruence|].
      rewrite Hs. simpl. split; [reflexivity|].
      unfold sendText. rewrite sendUpdate_sendChain, Hc, E. reflexivity.
  - intros Hd. rewrite promptSession_launched by exact Hl. cbv zeta.
    rewrite (runTurn_disturbed script Hd). split; reflexivity.
  - apply runTurn_flag.
Qed.

(** *** Tool call identifiers *)

Lemma digits_no_dash (d : Decimal.uint) : ~ In 45%N (digits d).
Proof.
  induction d; simpl; [tauto|..]; intros [E|H];
    solve [discriminate E | auto].
Qed.

Lemma digits_inj (d e : Decimal.uint) : digits d = digits e -> d = e.
Proof.
  revert e. induction d; intros [] H; simpl in H; try discriminate H;
    try reflexivity; injection H as H; f_equal; auto.
Qed.

Lemma ofNumber_inj (n m : N) : ofNumber n = ofNumber m -> n = m.
Proof.
  intros H. apply DecimalN.Unsigned.to_uint_inj, digits_inj. exact H.
Qed.

Lemma split_at_mark (x : N) (a a' b b' : jsstring) :
  ~ In x a -> ~ In x a' -> a ++ x :: b = a' ++ x :: b' -> a = a' /\ b = b'.
Proof.
  revert a'. induction a as [|c a IH]; intros [|c' a'] Ha Ha' H; simpl in H.
  - injection H as H. auto.
  - injection H as H _. exfalso. apply Ha'. left. auto.
  - injection H as H _. exfalso. apply Ha. left. auto.
  - injection H as Hc H.
    destruct (IH a') as [-> ->]; [| |exact H|].
    + intros Hin. apply Ha. right. exact Hin.
    + intros Hin. apply Ha'. right. exact Hin.
    + subst. auto.
Qed.

(** The identifiers issued in a turn differ from one another. *)
Lemma toolId_inj (n m : N) : toolId now n = toolId now m -> n = m.
Proof.
  unfold toolId. intros H. apply List.app_inv_head in H.
  apply split_at_mark in H; try apply digits_no_dash.
  apply ofNumber_inj. apply H.
Qed.

(** *** The life of a tool call *)

Lemma terminalFor_about i u : terminalFor i u = true -> about i u = true.
Proof.
  destruct u as [| | |j [[]|] c r|]; simpl; try discriminate; auto.
Qed.

Lemma about_updateId i u : about i u = true <-> updateId u = Some i.
Proof.
  unfold about. destruct (updateId u) as [j|].
  - rewrite str_eqb_eq. split; congruence.
  - split; discriminate.
Qed.

Lemma not_about i u : updateId u = None -> about i u = false.
Proof. unfold about. intros ->. reflexivity. Qed.

Lemma not_terminalFor i u : about i u = false -> terminalFor i u = false.
Proof.
  intros H. destruct (terminalFor i u) eqn:E; [|reflexivity].
  apply terminalFor_about in E. congruence.
Qed.

Lemma silentAfterTerminal_snoc i us u :
  silentAfterTerminal i us ->
  (about i u = true -> Forall (fun v => terminalFor i v = false) us) ->
  silentAfterTerminal i (us ++ [u]).
Proof.
  intros Hs Hu before v after Heq Hv.
  destruct after as [|x after _] using rev_ind; [constructor|].
  rewrite List.app_comm_cons, List.app_assoc in Heq.
  apply List.app_inj_tail in Heq as [-> ->].
  apply Forall_app. split.
  - exact (Hs before v after eq_refl Hv).
  - constructor; [|constructor].
    destruct (about i x) eqn:E; [|reflexivity].
    specialize (Hu eq_refl). rewrite Forall_app in Hu.
    destruct Hu as [_ Hu]. inversion Hu; subst. congruence.
Qed.

Lemma silentAfterTerminal_tail i u us :
  silentAfterTerminal i (u :: us) -> silentAfterTerminal i us.
Proof.
  intros H before v after Heq Hv.
  apply (H (u :: before) v after); [rewrite Heq; reflexivity | exact Hv].
Qed.

Lemma terminalCount_silent i us :
  silentAfterTerminal i us -> terminalCount i us <= 1.
Proof.
  unfold terminalCount. induction us as [|u us IH]; intros H; simpl; [lia|].
  destruct (terminalFor i u) eqn:E.
  - pose proof (H [] u us eq_refl E) as Hq.
    replace (List.filter (terminalFor i) us) with (@nil Update); [simpl; lia|].
    symmetry. clear -Hq. induction Hq as [|v us Hv _ IH]; [reflexivity|].
    simpl. rewrite (not_terminalFor _ _ Hv). exact IH.
  - apply IH. eapply silentAfterTerminal_tail, H.
Qed.

Lemma terminalCount_told i us :
  existsb (terminalFor i) us = true -> 1 <= terminalCount i us.
Proof.
  unfold terminalCount. induction us as [|u us IH]; simpl; [discriminate|].
  destruct (terminalFor i u); simpl; [lia | exact IH].
Qed.

(** The turn at its start. *)
Lemma ToolInv_initial pre : ToolInv now (initialTurn pre).
Proof.
  split; simpl.
  - intros u i [].
  - discriminate.
  - discriminate.
  - intros i before u after H. destruct before; discriminate H.
  - intros _ k Hk. lia.
Qed.

Lemma ToolInv_setLineBuffer b t : ToolInv now t -> ToolInv now (setLineBuffer b t).
Proof. intros [H1 H2 H3 H4 H5]. split; assumption. Qed.

Lemma ToolInv_setCancelled t : ToolInv now t -> ToolInv now (setCancelled true t).
Proof. intros [H1 H2 H3 H4 H5]. split; try assumption. discriminate. Qed.

(** An update that is about no tool call. *)
Lemma ToolInv_send_other u t :
  updateId u = None -> ToolInv now t -> ToolInv now (sendUpdate u t).
Proof.
  intros Hu [H1 H2 H3 H4 H5]. split;
    rewrite ?sendUpdate_sendChain, ?sendUpdate_activeTool,
            ?sendUpdate_toolSeq, ?sendUpdate_cancelled.
  - intros v i Hin Hv. apply in_app_or in Hin as [Hin|Hin]; [eauto|].
    destruct (cancelled t); [destruct Hin|].
    destruct Hin as [<-|[]]. congruence.
  - exact H2.
  - intros a Ha. apply Forall_app. split; [auto|].
    destruct (cancelled t); constructor; [|constructor].
    apply not_terminalFor, not_about, Hu.
  - intros i. destruct (cancelled t);
      [rewrite List.app_nil_r; apply H4|].
    apply silentAfterTerminal_snoc; [apply H4|].
    rewrite (not_about i u Hu). discriminate.
  - intros Hc k Hk Hclosed. rewrite existsb_app, H5 by assumption.
    reflexivity.
Qed.

(** An update about the open tool call that gives no terminal status. *)
Lemma ToolInv_send_progress u a t :
  activeTool t = Some a -> updateId u = Some (id a) ->
  (forall i, terminalFor i u = false) ->
  ToolInv now t -> ToolInv now (sendUpdate u t).
Proof.
  intros Ha Hu Hnt [H1 H2 H3 H4 H5]. split;
    rewrite ?sendUpdate_sendChain, ?sendUpdate_activeTool,
            ?sendUpdate_toolSeq, ?sendUpdate_cancelled.
  - intros v i Hin Hv. apply in_app_or in Hin as [Hin|Hin]; [eauto|].
    destruct (cancelled t); [destruct Hin|].
    destruct Hin as [<-|[]]. rewrite Hu in Hv. injection Hv as <-.
    exists (toolSeq t). destruct (H2 a Ha) as [E Hk]. split; [lia | exact E].
  - exact H2.
  - intros a' Ha'. apply Forall_app. split; [auto|].
    destruct (cancelled t); constructor; [apply Hnt | constructor].
  - intros i. destruct (cancelled t);
      [rewrite List.app_nil_r; apply H4|].
    apply silentAfterTerminal_snoc; [apply H4|].
    intros Hab. apply about_updateId in Hab. rewrite Hu in Hab.
    injection Hab as <-. apply H3, Ha.
  - intros Hc k Hk Hclosed. rewrite existsb_app, H5 by assumption.
    reflexivity.
Qed.

(** The terminal status of the open tool call, after which it is no
    longer open. *)
Lemma ToolInv_send_terminal u a t :
  activeTool t = Some a -> updateId u = Some (id a) ->
  terminalFor (id a) u = true ->
  ToolInv now t -> ToolInv now (setActiveTool None (sendUpdate u t)).
Proof.
  intros Ha Hu Hterm [H1 H2 H3 H4 H5].
  destruct (H2 a Ha) as [E Hk].
  split; cbn [setActiveTool sendChain activeTool toolSeq cancelled];
    rewrite ?sendUpdate_sendChain, ?sendUpdate_toolSeq, ?sendUpdate_cancelled.
  - intros v i Hin Hv. apply in_app_or in Hin as [Hin|Hin]; [eauto|].
    destruct (cancelled t); [destruct Hin|].
    destruct Hin as [<-|[]]. rewrite Hu in Hv. injection Hv as <-.
    exists (toolSeq t). split; [lia | exact E].
  - discriminate.
  - discriminate.
  - intros i. destruct (cancelled t);
      [rewrite List.app_nil_r; apply H4|].
    apply silentAfterTerminal_snoc; [apply H4|].
    intros Hab. apply about_updateId in Hab. rewrite Hu in Hab.
    injection Hab as <-. apply H3, Ha.
  - intros Hc k Hr _. rewrite Hc. rewrite existsb_app.
    destruct (N.eq_dec k (toolSeq t)) as [->|Hne].
    + rewrite <- E. simpl. rewrite Hterm. apply orb_true_r.
    + rewrite H5; [reflexivity | exact Hc | exact Hr | left; lia].
Qed.

(** The start of a new tool call when none is open. *)
Lemma ToolInv_open tool t :
  activeTool t = None -> id tool = toolId now (toolSeq t + 1) ->
  ToolInv now t ->
  ToolInv now (sendToolCall (setActiveTool (Some tool)
                               (setToolSeq (toolSeq t + 1) t))).
Proof.
  intros Ha Hid [H1 H2 H3 H4 H5].
  assert (Hfresh : Forall (fun u => terminalFor (id tool) u = false)
                          (sendChain t)).
  { apply Forall_forall. intros u Hin. apply list_elem_of_In in Hin.
    apply not_terminalFor.
    destruct (about (id tool) u) eqn:E; [|reflexivity].
    apply about_updateId in E. destruct (H1 u _ Hin E) as (k & Hk & Hq).
    rewrite Hid in Hq. apply toolId_inj in Hq. lia. }
  unfold sendToolCall. cbn [setActiveTool setToolSeq activeTool].
  set (u := ToolCall (id tool) (title tool) (kind tool) InProgress
                     (rawInput tool)).
  split;
    rewrite ?sendUpdate_sendChain, ?sendUpdate_activeTool,
            ?sendUpdate_toolSeq, ?sendUpdate_cancelled;
    cbn [setActiveTool setToolSeq activeTool toolSeq sendChain cancelled].
  - intros v i Hin Hv. apply in_app_or in Hin as [Hin|Hin].
    + destruct (H1 v i Hin Hv) as (k & Hk & Hq). exists k. split; [lia|auto].
    + destruct (cancelled t); [destruct Hin|].
      destruct Hin as [<-|[]]. injection Hv as <-.
      exists (toolSeq t + 1)%N. split; [lia | exact Hid].
  - intros a' [= <-]. split; [exact Hid | lia].
  - intros a' [= <-]. apply Forall_app. split; [exact Hfresh|].
    destruct (cancelled t); constructor; [reflexivity | constructor].
  - intros i. destruct (cancelled t);
      [rewrite List.app_nil_r; apply H4|].
    apply silentAfterTerminal_snoc; [apply H4|].
    intros Hab. apply about_updateId in Hab. injection Hab as <-.
    exact Hfresh.
  - intros Hc k Hk [Hlt|Hn]; [|discriminate Hn].
    rewrite existsb_app, H5; [reflexivity | exact Hc | lia | right; exact Ha].
Qed.

(** One more line of output for the open tool call. *)
Lemma ToolInv_output a a' t :
  activeTool t = Some a -> id a' = id a ->
  ToolInv now t -> ToolInv now (setActiveTool (Some a') t).
Proof.
  intros Ha Hid [H1 H2 H3 H4 H5].
  split; cbn [setActiveTool sendChain activeTool toolSeq cancelled].
  - exact H1.
  - intros b [= <-]. rewrite Hid. apply H2, Ha.
  - intros b [= <-]. rewrite Hid. apply H3, Ha.
  - exact H4.
  - intros Hc k Hk [Hlt|Hn]; [|discriminate Hn].
    apply H5; auto.
Qed.

Lemma ToolInv_handleLine line t :
  ToolInv now t -> ToolInv now (handleLine now line t).
Proof.
  intros H. unfold handleLine.
  destruct (exec toolStartRe line) as [[p m]|].
  - destruct (activeTool t) as [a|] eqn:Ha.
    + unfold sendToolUpdate. rewrite Ha.
      set (u := ToolCallUpdate (id a) (Some Completed) _ _).
      assert (H2 : ToolInv now (setActiveTool None (sendUpdate u t))).
      { apply (ToolInv_send_terminal u a); auto.
        simpl. apply str_eqb_refl. }
      match goal with
      | |- ToolInv now (sendToolCall (setActiveTool (Some ?tool) _)) =>
          exact (ToolInv_open tool (setActiveTool None (sendUpdate u t))
                              eq_refl eq_refl H2)
      end.
    + match goal with
      | |- ToolInv now (sendToolCall (setActiveTool (Some ?tool) _)) =>
          exact (ToolInv_open tool t Ha eq_refl H)
      end.
  - destruct (activeTool t) as [a|] eqn:Ha.
    + destruct (test toolDoneRe line).
      * unfold sendToolUpdate. rewrite Ha.
        apply (ToolInv_send_terminal _ a); auto.
        simpl. apply str_eqb_refl.
      * unfold sendToolUpdate. cbn [setActiveTool activeTool].
        match goal with
        | |- ToolInv now (sendUpdate _ (setActiveTool (Some ?b) t)) =>
            apply (ToolInv_send_progress _ b);
              [reflexivity | reflexivity | reflexivity |
               apply (ToolInv_output a b); auto]
        end.
    + unfold sendThought, sendText.
      destruct (existsb _ _); apply ToolInv_send_other; auto.
Qed.

Lemma terminalFor_exitStatus i code c r :
  terminalFor i (ToolCallUpdate i (Some (exitStatus code)) c r) = true.
Proof.
  unfold exitStatus. destruct code as [[|p]|]; simpl; apply str_eqb_refl.
Qed.

Lemma ToolInv_closeTool code t :
  ToolInv now t -> ToolInv now (closeTool code t).
Proof.
  intros H. unfold closeTool.
  destruct (activeTool t) as [a|] eqn:Ha; [|exact H].
  unfold sendToolUpdate. rewrite Ha.
  apply (ToolInv_send_terminal _ a); auto.
  apply terminalFor_exitStatus.
Qed.

Lemma ToolInv_runTurn script : ToolInv now (runTurn now script).
Proof.
  apply runTurn_preserves.
  - apply ToolInv_handleLine.
  - apply ToolInv_setLineBuffer.
  - apply ToolInv_closeTool.
  - apply ToolInv_setCancelled.
  - apply ToolInv_initial.
Qed.

Lemma closeTool_activeTool code t : activeTool (closeTool code t) = None.
Proof.
  unfold closeTool. destruct (activeTool t) eqn:E; [reflexivity | exact E].
Qed.

Lemma runTurn_activeTool script : activeTool (runTurn now script) = None.
Proof.
  unfold runTurn.
  destruct (runSteps now (steps script) Kiro.initial _) as [k t].
  unfold finish.
  destruct (drainCancel script); simpl; apply closeTool_activeTool.
Qed.

(** What the status of the tool call closed by the exit of the
    subprocess is. *)
Lemma closeTool_status code a t :
  activeTool t = Some a -> cancelled t = false ->
  exists content rawOutput,
    sendChain (closeTool code t)
    = sendChain t
      ++ [ToolCallUpdate (id a)
            (Some (match code with Some 0%N => Completed | _ => Failed end))
            content rawOutput].
Proof.
  intros Ha Hc. unfold closeTool, sendToolUpdate. rewrite Ha.
  cbn [setActiveTool sendChain]. rewrite sendUpdate_sendChain, Hc.
  eexists _, _. reflexivity.
Qed.

(** Updates that are about no tool call change nothing for a tool call. *)
Lemma silentAfterTerminal_others i us extra :
  Forall (fun u => updateId u = None) extra ->
  silentAfterTerminal i us -> silentAfterTerminal i (us ++ extra).
Proof.
  intros He. revert us. induction He as [|x extra Hx He IH]; intros us Hs.
  - rewrite List.app_nil_r. exact Hs.
  - change (x :: extra) with ([x] ++ extra). rewrite List.app_assoc.
    apply IH, silentAfterTerminal_snoc; [exact Hs|].
    rewrite (not_about i x Hx). discriminate.
Qed.

Lemma filter_others (f : Update -> bool) extra :
  Forall (fun u => f u = false) extra -> List.filter f extra = [].
Proof.
  induction 1 as [|x extra Hx _ IH]; [reflexivity|].
  simpl. rewrite Hx. exact IH.
Qed.

Lemma opens_about i u : opens i u = true -> about i u = true.
Proof. destruct u; simpl; try discriminate; auto. Qed.

(** The updates of a call are those of the turn, followed at most by a
    text. *)
Lemma promptSession_updates host script blocks session :
  exists chain extra,
    updates (promptSession now host script blocks session) = chain ++ extra
    /\ Forall (fun u => updateId u = None) extra
    /\ (chain = [] \/ chain = sendChain (runTurn now script)).
Proof.
  assert (Hlaunched :
    exists chain extra,
      updates
        (let session := syncKiroDefaultAgent host session in
         let config := chatConfig host (promptToText blocks) session in
         let t := runTurn now script in
         if cancelled t then
           {| outcome := inl Cancelled;
              session_after :=
                Some (setFlags (started session) true true session);
              updates := sendChain t;
              launched := Some config |}
         else if negb (sentAny t) && negb (exitedZero (exitCode script)) then
           {| outcome := inr (InternalError (exitMessage (exitCode script)));
              session_after :=
                Some (setFlags (started session) false true session);
              updates := sendChain t;
              launched := Some config |}
         else
           let t := if negb (exitedZero (exitCode script))
                    then sendText (exitNotice (exitCode script)) t else t in
           {| outcome := inl EndTurn;
              session_after := Some (setFlags true false true session);
              updates := sendChain t;
              launched := Some config |}) = chain ++ extra
      /\ Forall (fun u => updateId u = None) extra
      /\ (chain = [] \/ chain = sendChain (runTurn now script))).
  { cbv zeta. destruct (cancelled (runTurn now script)) eqn:Hc.
    - exists (sendChain (runTurn now script)), [].
      simpl. rewrite List.app_nil_r. auto.
    - destruct (negb (sentAny _) && negb _).
      + exists (sendChain (runTurn now script)), [].
        simpl. rewrite List.app_nil_r. auto.
      + destruct (negb (exitedZero (exitCode script))).
        * eexists _, _. cbn [updates]. unfold sendText.
          rewrite sendUpdate_sendChain, Hc.
          split; [reflexivity|]. split; [|right; reflexivity].
          constructor; [reflexivity | constructor].
        * exists (sendChain (runTurn now script)), [].
          simpl. rewrite List.app_nil_r. auto. }
  destruct (preflightOk session) eqn:Hp.
  - rewrite promptSession_launched by (left; exact Hp). exact Hlaunched.
  - destruct (ready script) as [|message] eqn:Hr.
    + rewrite promptSession_launched by (right; exact Hr). exact Hlaunched.
    + unfold promptSession. rewrite Hp, Hr. cbn [updates].
      exists [], (sendChain (sendText message (initialTurn (preCancel script)))).
      split; [reflexivity|]. split; [|left; reflexivity].
      unfold sendText. rewrite sendUpdate_sendChain. simpl.
      destruct (preCancel script); repeat constructor.
Qed.

Lemma terminalCount_others i us extra :
  Forall (fun u => updateId u = None) extra ->
  terminalCount i (us ++ extra) = terminalCount i us.
Proof.
  intros He. unfold terminalCount.
  rewrite List.filter_app, length_app, (filter_others _ extra); [simpl; lia|].
  eapply List.Forall_impl; [|exact He].
  intros u Hu. apply not_terminalFor, not_about, Hu.
Qed.

Lemma terminalCount_open i us :
  Forall (fun u => terminalFor i u = false) us -> terminalCount i us = 0.
Proof.
  intros H. unfold terminalCount. rewrite filter_others by exact H.
  reflexivity.
Qed.

Lemma isCancelReq_In steps :
  existsb isCancelReq steps = true <-> In CancelReq steps.
Proof.
  rewrite existsb_exists. split.
  - intros ([ev|] & Hin & H); [discriminate H | exact Hin].
  - intros H. exists CancelReq. split; [exact H | reflexivity].
Qed.

Lemma beforeCancel_split steps :
  In CancelReq steps ->
  exists steps2, steps = beforeCancel steps ++ CancelReq :: steps2.
Proof.
  induction steps as [|[ev|] steps IH]; intros H.
  - destruct H.
  - destruct H as [H|H]; [discriminate H|].
    destruct (IH H) as (steps2 & E). exists steps2.
    cbn [beforeCancel app]. rewrite <- E. reflexivity.
  - exists steps. reflexivity.
Qed.

Lemma beforeCancel_quiet steps : ~ In CancelReq (beforeCancel steps).
Proof.
  induction steps as [|[ev|] steps IH]; cbn [beforeCancel]; [tauto | | tauto].
  intros [H|H]; [discriminate H | exact (IH H)].
Qed.

Lemma ToolInv_runSteps steps k t :
  ToolInv now t -> ToolInv now (snd (runSteps now steps k t)).
Proof.
  apply runSteps_preserves.
  - apply ToolInv_handleLine.
  - apply ToolInv_setLineBuffer.
  - apply ToolInv_setCancelled.
Qed.

(** While the flag is clear, a tool call whose start is on the chain
    has its terminal status on the chain unless it is the open one. *)
Lemma terminalCount_state t i :
  ToolInv now t -> cancelled t = false ->
  existsb (opens i) (sendChain t) = true ->
  terminalCount i (sendChain t)
  = match activeTool t with
    | Some a => if str_eqb (id a) i then 0 else 1
    | None => 1
    end.
Proof.
  intros Hinv Hc Hopen.
  apply existsb_exists in Hopen as (u & Hin & Hu).
  apply opens_about, about_updateId in Hu.
  destruct (ids_issued now _ Hinv u i Hin Hu) as (k & Hk & ->).
  pose proof (terminalCount_silent (toolId now k) _
                (closed_silent now _ Hinv (toolId now k))) as Hle.
  destruct (activeTool t) as [a|] eqn:Ha.
  - destruct (str_eqb (id a) (toolId now k)) eqn:E.
    + apply str_eqb_eq in E. rewrite <- E.
      apply terminalCount_open, (active_open now _ Hinv a Ha).
    + enough (1 <= terminalCount (toolId now k) (sendChain t)) by lia.
      apply terminalCount_told, (closed_told now _ Hinv Hc k Hk).
      left. destruct (active_latest now _ Hinv a Ha) as [Hid _].
      assert (Hne : k <> toolSeq t).
      { intros ->. rewrite Hid, str_eqb_refl in E. discriminate E. }
      lia.
  - enough (1 <= terminalCount (toolId now k) (sendChain t)) by lia.
    apply terminalCount_told, (closed_told now _ Hinv Hc k Hk).
    right. exact Ha.
Qed.

(** The script without the cancel request that arrives while the chain
    of deliveries is awaited enqueues the same updates. *)
Lemma runTurn_before_drain script :
  sendChain (runTurn now script)
  = sendChain (runTurn now (Build_Script (preCancel script) (ready script)
                                         (steps script) (exitCode script)
                                         false)).
Proof.
  unfold runTurn. cbn [steps preCancel exitCode drainCancel].
  destruct (runSteps now (steps script) Kiro.initial _) as [k t].
  destruct (drainCancel script); reflexivity.
Qed.

Lemma terminalCount_turn script i :
  existsb (opens i) (sendChain (runTurn now script)) = true ->
  terminalCount i (sendChain (runTurn now script))
  = match openAtCancel now script with
    | Some a => if str_eqb (id a) i then 0 else 1
    | None => 1
    end.
Proof.
  intros Hopen.
  destruct (preCancel script) eqn:Hp.
  { pose proof (runTurn_cancelled_before script Hp) as Hv.
    unfold visible in Hv. injection Hv as _ _ Hq.
    rewrite Hq in Hopen. discriminate Hopen. }
  unfold openAtCancel. rewrite Hp.
  destruct (existsb isCancelReq (steps script)) eqn:Hs.
  - apply isCancelReq_In, beforeCancel_split in Hs as (steps2 & Hs).
    pose proof (beforeCancel_quiet (steps script)) as Hq.
    set (steps1 := beforeCancel (steps script)) in *.
    destruct script as [pre rdy sts code drain].
    cbn [steps preCancel] in *. subst pre.
    assert (Hv : sendChain (runTurn now (Build_Script false rdy sts code drain))
                 = sendChain (snd (runSteps now steps1 Kiro.initial
                                            (initialTurn false)))).
    { rewrite Hs.
      pose proof (runTurn_cancelled_after steps1 steps2 false rdy code drain)
        as Hv.
      unfold visible in Hv. injection Hv as _ _ Hv. exact Hv. }
    rewrite Hv in Hopen |- *.
    apply terminalCount_state; [| |exact Hopen].
    + apply ToolInv_runSteps, ToolInv_initial.
    + rewrite runSteps_undisturbed by exact Hq. reflexivity.
  - assert (Hq : ~ In CancelReq (steps script)).
    { intros H. apply isCancelReq_In in H. congruence. }
    rewrite runTurn_before_drain in Hopen |- *.
    set (calm := Build_Script (preCancel script) (ready script)
                              (steps script) (exitCode script) false) in *.
    rewrite terminalCount_state; [| | |exact Hopen].
    + rewrite runTurn_activeTool. reflexivity.
    + apply ToolInv_runTurn.
    + apply runTurn_undisturbed. repeat split; [exact Hp | exact Hq].
Qed.

Lemma atExit_cancelled script :
  ~ In CancelReq (steps script) ->
  cancelled (atExit now script) = preCancel script.
Proof.
  intros Hq. unfold atExit.
  pose proof (runSteps_undisturbed (steps script) Kiro.initial
                (initialTurn (preCancel script)) Hq) as H.
  destruct (runSteps now (steps script) Kiro.initial _) as [k t].
  rewrite flush_cancelled. exact H.
Qed.

(** C4, as the code has it: for every tool call that a call of [prompt]
    opens, at most one update gives it a terminal status and no update
    about it follows that one.  Exactly one does, unless the first cancel
    request that arrives while the subprocess runs finds this tool call
    open: then none does.  So a tool call that is closed before the
    request, and every tool call of a turn whose request comes only while
    the chain of deliveries is awaited, has its terminal status, as has
    every tool call when the flag of the session is clear at the end.
    And when no request arrives while the subprocess runs, the tool call
    that is still open at its exit gets the status [completed] for exit
    code 0 and [failed] for any other or no exit code. *)
Theorem tool_call_closed_once host blocks session script (i : jsstring) :
  let us := updates (promptSession now host script blocks session) in
  existsb (opens i) us = true ->
  terminalCount i us <= 1
  /\ silentAfterTerminal i us
  /\ terminalCount i us
     = match openAtCancel now script with
       | Some a => if str_eqb (id a) i then 0 else 1
       | None => 1
       end
  /\ (cancelled (runTurn now script) = false -> terminalCount i us = 1)
  /\ (~ In CancelReq (steps script) ->
      forall a,
        activeTool (atExit now script) = Some a -> id a = i ->
        exists content rawOutput,
          In (ToolCallUpdate i
                (Some (match exitCode script with
                       | Some 0%N => Completed
                       | _ => Failed
                       end))
                content rawOutput) us).
Proof.
  intros us Hopen. unfold us in *. clear us.
  destruct (promptSession_updates host script blocks session)
    as (chain & extra & Heq & Hextra & Hchain).
  rewrite Heq in *. clear Heq.
  assert (Hsilent : silentAfterTerminal i (chain ++ extra)).
  { apply silentAfterTerminal_others; [exact Hextra|].
    destruct Hchain as [->| ->].
    - intros before u after H. destruct before; discriminate H.
    - apply (closed_silent now _ (ToolInv_runTurn script)). }
  split; [apply terminalCount_silent, Hsilent|].
  split; [exact Hsilent|].
  assert (Hno : existsb (opens i) extra = false).
  { clear -Hextra. induction Hextra as [|x extra Hx _ IH]; [reflexivity|].
    simpl. rewrite IH, orb_false_r.
    destruct (opens i x) eqn:E; [|reflexivity].
    apply opens_about in E. rewrite (not_about i x Hx) in E. discriminate. }
  rewrite existsb_app, Hno, orb_false_r in Hopen.
  destruct Hchain as [->| ->]; [discriminate Hopen|].
  rewrite terminalCount_others by exact Hextra.
  pose proof (terminalCount_turn script i Hopen) as Hcount.
  split; [exact Hcount|].
  assert (Hpre : preCancel script = false).
  { destruct (preCancel script) eqn:Hp; [|reflexivity].
    pose proof (runTurn_cancelled_before script Hp) as Hv.
    unfold visible in Hv. injection Hv as _ _ Hq.
    rewrite Hq in Hopen. discriminate Hopen. }
  split.
  - intros Hc. rewrite Hcount. unfold openAtCancel.
    destruct (existsb isCancelReq (steps script)) eqn:Hs; [|reflexivity].
    apply isCancelReq_In in Hs.
    rewrite runTurn_disturbed in Hc by (right; left; exact Hs).
    discriminate Hc.
  - intros Hq a Ha <-.
    pose proof (atExit_cancelled script Hq) as Hc. rewrite Hpre in Hc.
    destruct (closeTool_status (exitCode script) a _ Ha Hc)
      as (content & rawOutput & E).
    exists content, rawOutput.
    apply in_or_app. left.
    replace (sendChain (runTurn now script))
      with (sendChain (closeTool (exitCode script) (atExit now script)))
      by (rewrite runTurn_atExit; cbv zeta;
          destruct (drainCancel script); reflexivity).
    rewrite E. apply in_or_app. right. left. reflexivity.
Qed.

End TurnProperties.

(** ** The carry window *)

Section CarryWindow.

Import KiroMarker.

(** While the stream is no longer than the window nothing is processed:
    the deliveries only pile up in the carry. *)
Lemma processStdout_within_window chunk st :
  length (rawCarry st ++ chunk) <= CARRY_BYTES ->
  processStdout chunk false st
  = ([], Build_State (rawStdout st ++ chunk) (rawCarry st ++ chunk)
                     (cleanStdout st) (emitting st) (emitCleanIndex st)).
Proof.
  intros H. unfold processStdout.
  replace (length (rawCarry st ++ chunk) - CARRY_BYTES) with 0 by lia.
  reflexivity.
Qed.

Lemma run_within_window chunks st :
  length (rawCarry st ++ concat chunks) <= CARRY_BYTES ->
  run chunks st
  = fst (onClose (Build_State (rawStdout st ++ concat chunks)
                              (rawCarry st ++ concat chunks)
                              (cleanStdout st) (emitting st)
                              (emitCleanIndex st))).
Proof.
  revert st. induction chunks as [|chunk chunks IH]; intros st H.
  - cbn [concat run]. rewrite !List.app_nil_r. destruct st. reflexivity.
  - cbn [concat run] in H |- *.
    rewrite processStdout_within_window
      by (rewrite List.app_assoc, length_app in H; lia).
    cbn [app]. rewrite IH.
    + cbn [rawStdout rawCarry cleanStdout emitting emitCleanIndex].
      rewrite <- !List.app_assoc. reflexivity.
    + cbn [rawCarry]. rewrite <- List.app_assoc. exact H.
Qed.

(** X22: a stream of at most [CARRY_BYTES] code units is normalized
    in one piece when the subprocess closes, so the events do not depend
    on where it was cut, escape sequences included. *)
Lemma carry_window_short_stream chunks1 chunks2 :
  concat chunks1 = concat chunks2 ->
  length (concat chunks1) <= CARRY_BYTES ->
  run chunks1 initial = run chunks2 initial.
Proof.
  intros E H. rewrite !run_within_window; [rewrite E; reflexivity | |exact H].
  rewrite <- E. exact H.
Qed.

End CarryWindow.

(** ** Runs of the bridge on concrete inputs *)

Section Runs.

Import Agent.

Lemma cancel_suppresses_updates_witness :
  launches Sample.session1
    (Build_Script false ReadyOk
       (Sample.deliveries [lit "hello" ++ [LF]]
        ++ CancelReq :: Sample.deliveries [lit "more" ++ [LF]])
       (Some 0%N) false)
  /\ updates
       (promptSession Sample.clock Sample.hostReview
          (Build_Script false ReadyOk
             (Sample.deliveries [lit "hello" ++ [LF]]
              ++ CancelReq :: Sample.deliveries [lit "more" ++ [LF]])
             (Some 0%N) false)
          [] Sample.session1)
     = [AgentMessageChunk (lit "hello" ++ [LF])]
  /\ outcome
       (promptSession Sample.clock Sample.hostReview
          (Build_Script false ReadyOk
             (Sample.deliveries [lit "hello" ++ [LF]]
              ++ CancelReq :: Sample.deliveries [lit "more" ++ [LF]])
             (Some 0%N) false)
          [] Sample.session1)
     = inl Cancelled
  /\ updates
       (promptSession Sample.clock Sample.hostReview
          (Build_Script true (NotReady (lit "not logged in")) [] None false)
          [] Sample.session1)
     = []
  /\ updates
       (promptSession Sample.clock Sample.hostReview Sample.helloExit2Drained
                      [] Sample.session1)
     = [AgentMessageChunk (lit "hello" ++ [LF])]
  /\ outcome
       (promptSession Sample.clock Sample.hostReview Sample.helloExit2Drained
                      [] Sample.session1)
     = inl Cancelled.
Proof.
  assert (Hl : launches Sample.session1
                 (Build_Script false ReadyOk
                    (Sample.deliveries [lit "hello" ++ [LF]]
                     ++ CancelReq :: Sample.deliveries [lit "more" ++ [LF]])
                    (Some 0%N) false))
    by (right; reflexivity).
  split; [exact Hl|].
  destruct (cancel_suppresses_updates Sample.clock Sample.hostReview []
              Sample.session1) as (Hafter & Hbefore & Hdrain).
  destruct (Hafter false ReadyOk
              (Sample.deliveries [lit "hello" ++ [LF]])
              (Sample.deliveries [lit "more" ++ [LF]]) (Some 0%N) false Hl)
    as [Hu Ho].
  destruct (Hdrain Sample.helloExit2Drained (or_intror eq_refl) eq_refl)
    as [Hdu Hdo].
  split; [|split; [exact Ho|split; [|split; [|exact Hdo]]]].
  - rewrite Hu. vm_compute. reflexivity.
  - apply Hbefore. reflexivity.
  - rewrite Hdu. vm_compute. reflexivity.
Defined.

Lemma nonzero_exit_reported_witness :
  outcome (promptSession Sample.clock Sample.hostReview Sample.silentExit2
                         [] Sample.session1)
  = inr (InternalError (lit "kiro-cli exited with code 2"))
  /\ outcome (promptSession Sample.clock Sample.hostReview Sample.helloExit2
                            [] Sample.session1)
     = inl EndTurn
  /\ updates (promptSession Sample.clock Sample.hostReview Sample.helloExit2
                            [] Sample.session1)
     = [AgentMessageChunk (lit "hello" ++ [LF]);
        AgentMessageChunk
          (LF :: lit "(kiro-cli " ++ [36864%N; 20986%N; 30721%N]
              ++ lit ": 2)" ++ [LF])]
  /\ outcome (promptSession Sample.clock Sample.hostReview
                            Sample.earlyCancelExit2 [] Sample.session1)
     = inl Cancelled
  /\ outcome (promptSession Sample.clock Sample.hostReview
                            Sample.cancelledExit2 [] Sample.session1)
     = inl Cancelled
  /\ outcome (promptSession Sample.clock Sample.hostReview
                            Sample.helloExit2Drained [] Sample.session1)
     = inl Cancelled
  /\ updates (promptSession Sample.clock Sample.hostReview
                            Sample.helloExit2Drained [] Sample.session1)
     = [AgentMessageChunk (lit "hello" ++ [LF])].
Proof.
  assert (H2 : 2%N <> 0%N) by discriminate.
  destruct (nonzero_exit_reported Sample.clock Sample.hostReview []
              Sample.session1 Sample.silentExit2 (or_intror eq_refl))
    as (Hsilent & _ & _).
  destruct (Hsilent 2%N eq_refl H2 eq_refl) as [Hnone _].
  destruct (nonzero_exit_reported Sample.clock Sample.hostReview []
              Sample.session1 Sample.helloExit2 (or_intror eq_refl))
    as (Hhello & _ & _).
  destruct (Hhello 2%N eq_refl H2 eq_refl) as [_ Hsome].
  destruct (nonzero_exit_reported Sample.clock Sample.hostReview []
              Sample.session1 Sample.earlyCancelExit2 (or_intror eq_refl))
    as (_ & Hearly & _).
  destruct (nonzero_exit_reported Sample.clock Sample.hostReview []
              Sample.session1 Sample.cancelledExit2 (or_intror eq_refl))
    as (_ & Hduring & _).
  destruct (nonzero_exit_reported Sample.clock Sample.hostReview []
              Sample.session1 Sample.helloExit2Drained (or_intror eq_refl))
    as (_ & Hlate & _).
  split; [apply Hnone; reflexivity|].
  destruct Hsome as [Ho Hu]; [vm_compute; discriminate|].
  split; [exact Ho|]. split; [exact Hu|].
  split; [apply Hearly; left; reflexivity|].
  split; [apply Hduring; right; left; left; reflexivity|].
  destruct Hlate as [Hlo Hlu]; [right; right; reflexivity|].
  split; [exact Hlo|]. rewrite Hlu. vm_compute. reflexivity.
Defined.

(** C6 as stated fails: a turn that is cancelled before anything is sent
    and whose subprocess exits with code 2 ends with the stop reason
    [cancelled], not with an error. *)
Lemma nonzero_exit_after_cancel :
  exitCode Sample.cancelledExit2 = Some 2%N
  /\ updates (promptSession Sample.clock Sample.hostReview
                            Sample.cancelledExit2 [] Sample.session1) = []
  /\ outcome (promptSession Sample.clock Sample.hostReview
                            Sample.cancelledExit2 [] Sample.session1)
     = inl Cancelled.
Proof. vm_compute. auto. Qed.

Lemma tool_call_closed_once_witness :
  (terminalCount (toolId Sample.clock 1)
     (updates (promptSession Sample.clock Sample.hostReview
                             Sample.openAtExit [] Sample.session1)) = 1
   /\ silentAfterTerminal (toolId Sample.clock 1)
        (updates (promptSession Sample.clock Sample.hostReview
                                Sample.openAtExit [] Sample.session1))
   /\ exists content rawOutput,
        In (ToolCallUpdate (toolId Sample.clock 1) (Some Failed)
                           content rawOutput)
           (updates (promptSession Sample.clock Sample.hostReview
                                   Sample.openAtExit [] Sample.session1)))
  /\ terminalCount (toolId Sample.clock 1)
       (updates (promptSession Sample.clock Sample.hostReview
                               Sample.closedThenCancelled [] Sample.session1))
     = 1
  /\ (terminalCount (toolId Sample.clock 1)
        (updates (promptSession Sample.clock Sample.hostReview
                                Sample.openAtExitDrained [] Sample.session1))
      = 1
      /\ exists content rawOutput,
           In (ToolCallUpdate (toolId Sample.clock 1) (Some Failed)
                              content rawOutput)
              (updates (promptSession Sample.clock Sample.hostReview
                                      Sample.openAtExitDrained []
                                      Sample.session1)))
  /\ terminalCount (toolId Sample.clock 1)
       (updates (promptSession Sample.clock Sample.hostReview
                               Sample.cancelledTool [] Sample.session1))
     = 0.
Proof.
  assert (Hquiet : forall evs, ~ In CancelReq (Sample.deliveries evs)).
  { intros evs H. unfold Sample.deliveries in H.
    apply List.in_map_iff in H as (ev & E & _). discriminate E. }
  destruct (tool_call_closed_once Sample.clock Sample.hostReview []
              Sample.session1 Sample.openAtExit (toolId Sample.clock 1))
    as (_ & Hs & H1 & _ & Hexit); [vm_compute; reflexivity|].
  destruct (tool_call_closed_once Sample.clock Sample.hostReview []
              Sample.session1 Sample.closedThenCancelled
              (toolId Sample.clock 1))
    as (_ & _ & H2 & _); [vm_compute; reflexivity|].
  destruct (tool_call_closed_once Sample.clock Sample.hostReview []
              Sample.session1 Sample.openAtExitDrained
              (toolId Sample.clock 1))
    as (_ & _ & H3 & _ & Hexit3); [vm_compute; reflexivity|].
  destruct (tool_call_closed_once Sample.clock Sample.hostReview []
              Sample.session1 Sample.cancelledTool (toolId Sample.clock 1))
    as (_ & _ & H4 & _); [vm_compute; reflexivity|].
  split; [split; [|split; [exact Hs|]]|split; [|split; [split|]]].
  - rewrite H1. vm_compute. reflexivity.
  - eapply (Hexit (Hquiet _) _); [vm_compute; reflexivity | reflexivity].
  - rewrite H2. vm_compute. reflexivity.
  - rewrite H3. vm_compute. reflexivity.
  - eapply (Hexit3 (Hquiet _) _); [vm_compute; reflexivity | reflexivity].
  - rewrite H4. vm_compute. reflexivity.
Defined.

(** C4 as stated fails: a tool call announced before the turn is
    cancelled is opened and never given a terminal status, although the
    subprocess exits. *)
Lemma tool_call_left_open :
  updates (promptSession Sample.clock Sample.hostReview Sample.cancelledTool
                         [] Sample.session1)
  = [ToolCall (toolId Sample.clock 1) (lit "shell: ls") Execute InProgress
              (lit "ls")]
  /\ existsb (opens (toolId Sample.clock 1))
       (updates (promptSession Sample.clock Sample.hostReview
                               Sample.cancelledTool [] Sample.session1)) = true
  /\ terminalCount (toolId Sample.clock 1)
       (updates (promptSession Sample.clock Sample.hostReview
                               Sample.cancelledTool [] Sample.session1)) = 0.
Proof. vm_compute. auto. Qed.

(** C1 fails on the code: the same stream, delivered whole or cut between
    a carriage return and its line feed, gives two events or three; and a
    coloured line cut after its escape character keeps the whole escape
    sequence in the event. *)
Theorem chunk_boundary_changes_events :
  concat Sample.crlfCut = concat Sample.crlfWhole
  /\ sendChain (runTurn Sample.clock (Sample.delivering Sample.crlfWhole))
     = [AgentMessageChunk (lit "a" ++ [LF]); AgentMessageChunk (lit "b" ++ [LF])]
  /\ sendChain (runTurn Sample.clock (Sample.delivering Sample.crlfCut))
     = [AgentMessageChunk (lit "a" ++ [LF]); AgentMessageChunk [LF];
        AgentMessageChunk (lit "b" ++ [LF])]
  /\ concat Sample.colourCut = concat Sample.colourWhole
  /\ sendChain (runTurn Sample.clock (Sample.delivering Sample.colourWhole))
     = [AgentMessageChunk (lit "red" ++ [LF])]
  /\ sendChain (runTurn Sample.clock (Sample.delivering Sample.colourCut))
     = [AgentMessageChunk (ESC :: lit "[31mred" ++ [LF])].
Proof. vm_compute. repeat split. Qed.

(** C2 fails on the code: [processChunk] strips each delivery on its own,
    so an escape sequence cut by a delivery boundary reaches the event
    whole; and the carry window of [processStdout] cuts the stream at a
    fixed distance from its end, here right after the escape character,
    which is then emitted as an event of its own, followed by the rest of
    the sequence as text. *)
Theorem torn_escape_sequence_forwarded :
  Kiro.processChunk [ESC] false [] = ([], [ESC])
  /\ Kiro.processChunk (lit "[31mred" ++ [LF]) false [ESC]
     = ([ESC :: lit "[31mred" ++ [LF]], [])
  /\ KiroMarker.run Sample.markerCut KiroMarker.initial
     = [[ESC]; lit "[31m" ++ repeat 120%N 60]
  /\ stripAnsi (concat Sample.markerCut) = lit "> " ++ repeat 120%N 60.
Proof. vm_compute. repeat split. Qed.

End Runs.

(** ** Delivery boundaries *)

Section Chunking.

Import Agent Stream.

Variable now : N -> N.

Implicit Types (s b cur line : jsstring) (t : Turn).

(** *** Lines of a text without carriage return *)

Lemma rmatch_lineBreak p c s cs :
  c <> CR ->
  rmatch Kiro.lineBreak (MState p (c :: s) cs)
  = if (LF =? c)%N then [MState (S p) s cs] else [].
Proof.
  intros Hc.
  assert (Hf : (CR =? c)%N = false) by (apply N.eqb_neq; congruence).
  unfold Kiro.lineBreak, text, chr.
  cbn [rmatch rest flat_map app]. rewrite Hf.
  destruct (LF =? c)%N; reflexivity.
Qed.

Lemma match_at_lineBreak p c s :
  c <> CR ->
  match_at Kiro.lineBreak p (c :: s)
  = if (LF =? c)%N then Some (MState (S p) s []) else None.
Proof.
  intros Hc. unfold match_at. rewrite rmatch_lineBreak by exact Hc.
  destruct (LF =? c)%N; reflexivity.
Qed.

Lemma match_at_lineBreakAtEnd p c s :
  c <> CR ->
  match_at Kiro.lineBreakAtEnd p (c :: s) <> None -> c = LF /\ s = [].
Proof.
  intros Hc. unfold match_at, Kiro.lineBreakAtEnd.
  cbn [rmatch]. rewrite rmatch_lineBreak by exact Hc.
  destruct (LF =? c)%N eqn:E; [|intros H; exfalso; apply H; reflexivity].
  apply N.eqb_eq in E. destruct s; [auto|].
  intros H. exfalso. apply H. reflexivity.
Qed.

Lemma search_lineBreakAtEnd p s :
  ~ In CR s -> search Kiro.lineBreakAtEnd p s <> None ->
  exists s0, s = s0 ++ [LF].
Proof.
  revert p. induction s as [|c s IH]; intros p Hs H.
  - exfalso. apply H. reflexivity.
  - assert (Hc : c <> CR) by (intros ->; apply Hs; left; reflexivity).
    cbn [search] in H.
    destruct (match_at Kiro.lineBreakAtEnd p (c :: s)) eqn:E.
    + destruct (match_at_lineBreakAtEnd p c s Hc) as [-> ->].
      * rewrite E. discriminate.
      * exists []. reflexivity.
    + destruct (IH (S p)) as [s0 ->]; [|exact H|].
      * intros Hin. apply Hs. right. exact Hin.
      * exists (c :: s0). reflexivity.
Qed.

Lemma split_from_cut p cur s :
  ~ In CR s -> split_from Kiro.lineBreak 0 p cur s = cut cur s.
Proof.
  revert p cur. induction s as [|c s IH]; intros p cur Hs; [reflexivity|].
  cbn [split_from cut].
  rewrite match_at_lineBreak by (intros ->; apply Hs; left; reflexivity).
  assert (Hs' : ~ In CR s) by (intros H; apply Hs; right; exact H).
  destruct (LF =? c)%N.
  - cbn [pos]. replace (S p - p) with 1 by lia. rewrite IH by exact Hs'.
    reflexivity.
  - apply IH. exact Hs'.
Qed.

Lemma split_cut s : ~ In CR s -> split Kiro.lineBreak s = cut [] s.
Proof.
  intros Hs. destruct s as [|c s]; [reflexivity|].
  apply split_from_cut. exact Hs.
Qed.

Lemma cut_nonempty cur s : cut cur s <> [].
Proof.
  revert cur. induction s as [|c s IH]; intros cur; cbn [cut].
  - intros H. discriminate H.
  - destruct (LF =? c)%N; [intros H; discriminate H | apply IH].
Qed.

Lemma removelast_cons {A} (x : A) (l : list A) :
  l <> [] -> removelast (x :: l) = x :: removelast l.
Proof. destruct l; [congruence | reflexivity]. Qed.

Lemma last_cons_nonempty {A} (x : A) (l : list A) :
  l <> [] -> last (x :: l) = last l.
Proof. destruct l; [congruence | reflexivity]. Qed.

(** Cutting a text in two parts: the rest of the first part goes on in
    the second. *)
Lemma cut_app cur s1 s2 :
  cut cur (s1 ++ s2)
  = removelast (cut cur s1) ++ cut (default [] (last (cut cur s1))) s2.
Proof.
  revert cur. induction s1 as [|c s1 IH]; intros cur; [reflexivity|].
  cbn [app cut]. destruct (LF =? c)%N.
  - rewrite removelast_cons, last_cons_nonempty by apply cut_nonempty.
    rewrite IH. reflexivity.
  - apply IH.
Qed.

Lemma cut_no_LF cur s : ~ In LF s -> cut cur s = [cur ++ s].
Proof.
  revert cur. induction s as [|c s IH]; intros cur Hs; cbn [cut].
  - rewrite List.app_nil_r. reflexivity.
  - replace (LF =? c)%N with false.
    + rewrite IH by (intros H; apply Hs; right; exact H).
      rewrite <- List.app_assoc. reflexivity.
    + symmetry. apply N.eqb_neq. intros E. apply Hs. left. symmetry. exact E.
Qed.

Lemma cut_cur cur s : ~ In LF cur -> cut [] (cur ++ s) = cut cur s.
Proof.
  intros Hc. rewrite cut_app, cut_no_LF by exact Hc. reflexivity.
Qed.

(** The pieces hold no line feed, and no carriage return if the text
    holds none. *)
Lemma cut_pieces (x : N) cur s :
  (x = LF \/ ~ In x s) -> ~ In x cur ->
  Forall (fun piece => ~ In x piece) (cut cur s).
Proof.
  revert cur. induction s as [|c s IH]; intros cur Hx Hcur; cbn [cut].
  - constructor; [exact Hcur | constructor].
  - assert (Hx' : x = LF \/ ~ In x s).
    { destruct Hx as [Hx|Hx]; [left; exact Hx|].
      right. intros H. apply Hx. right. exact H. }
    destruct (LF =? c)%N eqn:E.
    + constructor; [exact Hcur|]. apply IH; [exact Hx' | intros []].
    + apply IH; [exact Hx'|].
      intros H. apply in_app_or in H as [H|[H|[]]]; [auto|].
      subst c. destruct Hx as [->|Hx].
      * rewrite N.eqb_refl in E. discriminate.
      * apply Hx. left. reflexivity.
Qed.

Lemma Forall_removelast {A} (P : A -> Prop) (l : list A) :
  Forall P l -> Forall P (removelast l).
Proof.
  induction 1 as [|x l Hx Hl IH]; [constructor|].
  destruct l; [constructor|]. simpl. constructor; assumption.
Qed.

Lemma Forall_last {A} (P : A -> Prop) (l : list A) (x : A) :
  Forall P l -> last l = Some x -> P x.
Proof.
  induction 1 as [|y l Hy Hl IH]; [discriminate|].
  destruct l; simpl; [intros [= <-]; exact Hy | exact IH].
Qed.

Lemma cut_ends_with_LF cur s0 :
  last (cut cur (s0 ++ [LF])) = Some [].
Proof.
  rewrite cut_app. cbn [cut]. rewrite N.eqb_refl.
  change ([?x; ?y]) with ([x] ++ [y]).
  rewrite List.app_assoc. apply last_snoc.
Qed.

Lemma test_lineBreakAtEnd s :
  ~ In CR s -> test Kiro.lineBreakAtEnd s = true ->
  last (cut [] s) = Some [].
Proof.
  intros Hs H. unfold test, exec in H.
  destruct (search_lineBreakAtEnd 0 s Hs) as [s0 ->].
  - destruct (search Kiro.lineBreakAtEnd 0 s); [discriminate | discriminate H].
  - apply cut_ends_with_LF.
Qed.

(** What [processChunk] does with a plain delivery: the terminated lines
    of the buffer followed by the delivery go out, the rest is kept. *)
Lemma processChunk_plain chunk b :
  ~ In ESC chunk -> ~ In CSI chunk -> ~ In CR (b ++ chunk) ->
  Kiro.processChunk chunk false b
  = (List.map (fun line => line ++ [LF]) (removelast (cut [] (b ++ chunk))),
     default [] (last (cut [] (b ++ chunk)))).
Proof.
  intros He Hc Hr. unfold Kiro.processChunk.
  rewrite stripAnsi_plain by assumption.
  rewrite split_cut by exact Hr. unfold Kiro.pop.
  destruct (test Kiro.lineBreakAtEnd (b ++ chunk)) eqn:E; cbn [negb andb].
  - rewrite (test_lineBreakAtEnd _ Hr E). reflexivity.
  - reflexivity.
Qed.

(** *** The agent on whole lines *)

Lemma setLineBuffer_same t : setLineBuffer (lineBuffer t) t = t.
Proof. destruct t. reflexivity. Qed.

Lemma sendUpdate_setLineBuffer u b t :
  sendUpdate u (setLineBuffer b t) = setLineBuffer b (sendUpdate u t).
Proof. unfold sendUpdate. simpl. destruct (cancelled t); reflexivity. Qed.

Lemma sendToolUpdate_setLineBuffer st b t :
  sendToolUpdate st (setLineBuffer b t) = setLineBuffer b (sendToolUpdate st t).
Proof.
  unfold sendToolUpdate. simpl. destruct (activeTool t); [|reflexivity].
  apply sendUpdate_setLineBuffer.
Qed.

Lemma sendToolCall_setLineBuffer b t :
  sendToolCall (setLineBuffer b t) = setLineBuffer b (sendToolCall t).
Proof.
  unfold sendToolCall. simpl. destruct (activeTool t); [|reflexivity].
  apply sendUpdate_setLineBuffer.
Qed.

(** The handling of a line does not look at the line buffer. *)
Lemma handleLine_setLineBuffer line b t :
  handleLine now line (setLineBuffer b t)
  = setLineBuffer b (handleLine now line t).
Proof.
  unfold handleLine.
  destruct (exec toolStartRe line) as [[p m]|].
  - cbn [setLineBuffer activeTool].
    destruct (activeTool t) as [a|].
    + rewrite sendToolUpdate_setLineBuffer.
      rewrite <- sendToolCall_setLineBuffer. reflexivity.
    + rewrite <- sendToolCall_setLineBuffer. reflexivity.
  - cbn [setLineBuffer activeTool].
    destruct (activeTool t) as [a|].
    + destruct (test toolDoneRe line).
      * rewrite sendToolUpdate_setLineBuffer. reflexivity.
      * rewrite <- sendToolUpdate_setLineBuffer. reflexivity.
    + unfold sendThought, sendText.
      destruct (existsb _ _); apply sendUpdate_setLineBuffer.
Qed.

Lemma handleLine_lineBuffer line t :
  lineBuffer (handleLine now line t) = lineBuffer t.
Proof.
  rewrite <- (setLineBuffer_same t) at 1.
  rewrite handleLine_setLineBuffer. reflexivity.
Qed.

Lemma handleLines_lineBuffer lines t :
  lineBuffer (handleLines now lines t) = lineBuffer t.
Proof.
  revert t. induction lines as [|line lines IH]; intros t; [reflexivity|].
  unfold handleLines in *. simpl. rewrite IH. apply handleLine_lineBuffer.
Qed.

Lemma handleLines_app lines1 lines2 t :
  handleLines now (lines1 ++ lines2) t
  = handleLines now lines2 (handleLines now lines1 t).
Proof. apply fold_left_app. Qed.

(** A chunk event that is one terminated line. *)
Lemma handleChunk_line line t :
  lineBuffer t = [] -> ~ In CR line -> ~ In LF line ->
  handleChunk now (line ++ [LF]) t = handleLine now line t.
Proof.
  intros Hb Hr Hl.
  assert (E : setLineBuffer [] t = t)
    by (rewrite <- Hb; apply setLineBuffer_same).
  unfold handleChunk. rewrite Hb. cbn [app].
  rewrite split_cut.
  - rewrite cut_app, cut_no_LF by exact Hl. cbn [removelast last default app cut].
    rewrite N.eqb_refl. cbn [Kiro.pop removelast last default fold_left].
    unfold Datatypes.id. rewrite E. reflexivity.
  - intros H. apply in_app_or in H as [H|[H|[]]]; [auto | discriminate H].
Qed.

(** A chunk event that is an unterminated rest. *)
Lemma handleChunk_rest b t :
  lineBuffer t = [] -> ~ In CR b -> ~ In LF b ->
  handleChunk now b t = setLineBuffer b t.
Proof.
  intros Hb Hr Hl. unfold handleChunk. rewrite Hb. cbn [app].
  rewrite split_cut, cut_no_LF by assumption. reflexivity.
Qed.

Lemma onEvents_lines lines t :
  lineBuffer t = [] ->
  Forall (fun line => ~ In CR line) lines ->
  Forall (fun line => ~ In LF line) lines ->
  onEvents now (List.map (fun line => line ++ [LF]) lines) t
  = handleLines now lines t.
Proof.
  intros Hb Hr. revert t Hb.
  induction Hr as [|line lines Hline Hr IH]; intros t Hb Hl; [reflexivity|].
  inversion Hl; subst. unfold onEvents, handleLines in *. cbn [List.map fold_left].
  rewrite handleChunk_line by assumption.
  apply IH; [|assumption]. rewrite handleLine_lineBuffer. exact Hb.
Qed.

(** *** The whole turn *)

Lemma last_app_nonempty {A} (l1 l2 : list A) :
  l2 <> [] -> last (l1 ++ l2) = last l2.
Proof.
  intros H. induction l1 as [|x l1 IH]; [reflexivity|].
  cbn [app]. rewrite last_cons_nonempty; [exact IH|].
  destruct l1; [exact H | intros E; discriminate E].
Qed.

Lemma plain_app s1 s2 : plain (s1 ++ s2) -> plain s1 /\ plain s2.
Proof.
  unfold plain. intros (He & Hc & Hr).
  repeat split; intros H;
    solve [ apply He, in_or_app; auto
          | apply Hc, in_or_app; auto
          | apply Hr, in_or_app; auto ].
Qed.

Lemma cut_rest_clean (x : N) s :
  (x = LF \/ ~ In x s) -> ~ In x (default [] (last (cut [] s))).
Proof.
  intros Hx. destruct (last (cut [] s)) as [piece|] eqn:E; [|intros []].
  apply (Forall_last _ _ _ (cut_pieces x [] s Hx (fun H => H)) E).
Qed.

Lemma runSteps_plain chunks k t :
  lineBuffer t = [] ->
  ~ In CR (Kiro.stdoutBuffer k) -> ~ In LF (Kiro.stdoutBuffer k) ->
  plain (concat chunks) ->
  snd (runSteps now (List.map (fun data => Proc (StdoutData data)) chunks) k t)
  = handleLines now
      (removelast (cut [] (Kiro.stdoutBuffer k ++ concat chunks))) t
  /\ Kiro.stdoutBuffer
       (fst (runSteps now
               (List.map (fun data => Proc (StdoutData data)) chunks) k t))
     = default [] (last (cut [] (Kiro.stdoutBuffer k ++ concat chunks)))
  /\ Kiro.stderrBuffer
       (fst (runSteps now
               (List.map (fun data => Proc (StdoutData data)) chunks) k t))
     = Kiro.stderrBuffer k.
Proof.
  revert k t. induction chunks as [|chunk chunks IH]; intros k t Hb Hr Hl Hp.
  - cbn [List.map runSteps fst snd concat]. rewrite List.app_nil_r.
    rewrite cut_no_LF by exact Hl. auto.
  - cbn [concat] in Hp |- *. apply plain_app in Hp as [Hc Hrest].
    destruct Hc as (He & Hcsi & Hcr).
    assert (Hbc : ~ In CR (Kiro.stdoutBuffer k ++ chunk)).
    { intros H. apply in_app_or in H as [H|H]; auto. }
    cbn [List.map runSteps Kiro.onData].
    rewrite processChunk_plain by assumption.
    set (pieces := cut [] (Kiro.stdoutBuffer k ++ chunk)).
    assert (Hclean : forall x, x = LF \/ ~ In x (Kiro.stdoutBuffer k ++ chunk) ->
                               Forall (fun piece => ~ In x piece) pieces).
    { intros x Hx. apply cut_pieces; [exact Hx | intros []]. }
    rewrite onEvents_lines;
      [|exact Hb
       |apply Forall_removelast, Hclean; right; exact Hbc
       |apply Forall_removelast, Hclean; left; reflexivity].
    set (k' := Kiro.Build_State _ _ _).
    specialize (IH k' (handleLines now (removelast pieces) t)).
    destruct IH as (IH1 & IH2 & IH3).
    + rewrite handleLines_lineBuffer. exact Hb.
    + apply cut_rest_clean; right; exact Hbc.
    + apply cut_rest_clean; left; reflexivity.
    + exact Hrest.
    + rewrite IH1, IH2, IH3. cbn [Kiro.stdoutBuffer Kiro.stderrBuffer k'].
      rewrite (List.app_assoc (Kiro.stdoutBuffer k)).
      rewrite (cut_app [] (Kiro.stdoutBuffer k ++ chunk)). fold pieces.
      rewrite <- (cut_cur (default [] (last pieces)))
        by (apply cut_rest_clean; left; reflexivity).
      rewrite removelast_app by apply cut_nonempty.
      rewrite last_app_nonempty by apply cut_nonempty.
      rewrite handleLines_app. auto.
Qed.

Lemma setLineBuffer_twice b b' t :
  setLineBuffer b (setLineBuffer b' t) = setLineBuffer b t.
Proof. reflexivity. Qed.

Lemma test_lineBreakAtEnd_rest b :
  ~ In CR b -> ~ In LF b -> test Kiro.lineBreakAtEnd b = false.
Proof.
  intros Hr Hl. destruct (test Kiro.lineBreakAtEnd b) eqn:E; [|reflexivity].
  pose proof (test_lineBreakAtEnd b Hr E) as H.
  rewrite cut_no_LF in H by exact Hl. injection H as ->.
  discriminate E.
Qed.

Lemma onClose_plain k :
  ~ In CR (Kiro.stdoutBuffer k) -> ~ In LF (Kiro.stdoutBuffer k) ->
  Kiro.stderrBuffer k = [] ->
  fst (Kiro.onClose k)
  = match Kiro.stdoutBuffer k with [] => [] | c :: b => [c :: b] end.
Proof.
  intros Hr Hl He. unfold Kiro.onClose. rewrite He.
  change (Kiro.processChunk [] true []) with (@nil jsstring, @nil N).
  unfold Kiro.processChunk.
  change (stripAnsi []) with (@nil N). rewrite List.app_nil_r.
  rewrite test_lineBreakAtEnd_rest, split_cut, cut_no_LF by assumption.
  cbn [Kiro.pop removelast last negb default List.map app].
  destruct (Kiro.stdoutBuffer k); reflexivity.
Qed.

Lemma flush_plain k t :
  lineBuffer t = [] ->
  ~ In CR (Kiro.stdoutBuffer k) -> ~ In LF (Kiro.stdoutBuffer k) ->
  Kiro.stderrBuffer k = [] ->
  flush now k t
  = match Kiro.stdoutBuffer k with
    | [] => t
    | c :: b => handleLine now (c :: b) t
    end.
Proof.
  intros Hb Hr Hl He. unfold flush. rewrite onClose_plain by assumption.
  destruct (Kiro.stdoutBuffer k) as [|c b] eqn:E.
  - cbn [onEvents fold_left]. rewrite Hb. reflexivity.
  - cbn [onEvents fold_left]. rewrite handleChunk_rest by assumption.
    cbn [setLineBuffer lineBuffer].
    change (handleLine now (c :: b)
              {| cancelled := cancelled t; sentAny := sentAny t;
                 sendChain := sendChain t; toolSeq := toolSeq t;
                 activeTool := activeTool t; lineBuffer := c :: b |})
      with (handleLine now (c :: b) (setLineBuffer (c :: b) t)).
    rewrite handleLine_setLineBuffer, setLineBuffer_twice.
    rewrite <- Hb, <- (handleLine_lineBuffer (c :: b) t).
    apply setLineBuffer_same.
Qed.

(** On a stream without escape introducer and without carriage return
    the turn does not depend on how the stream is cut into deliveries: it
    is the turn over the lines of the whole stream. *)
Lemma plain_stream_turn chunks code :
  plain (concat chunks) ->
  runTurn now (stdoutOnly chunks code) = turnOfStream now code (concat chunks).
Proof.
  intros Hp. unfold runTurn, turnOfStream, stdoutOnly, finish.
  cbn [steps preCancel exitCode drainCancel].
  destruct (runSteps_plain chunks Kiro.initial (initialTurn false))
    as (H1 & H2 & H3); try (intros []); [reflexivity | exact Hp |].
  cbn [Kiro.initial Kiro.stdoutBuffer Kiro.stderrBuffer app] in H1, H2, H3.
  destruct (runSteps now _ Kiro.initial (initialTurn false)) as [k t].
  cbn [fst snd] in H1, H2, H3. subst t.
  f_equal. rewrite flush_plain.
  - rewrite H2. destruct (last (cut [] (concat chunks))) as [[|c b]|];
      reflexivity.
  - apply handleLines_lineBuffer.
  - rewrite H2. apply cut_rest_clean; right; apply Hp.
  - rewrite H2. apply cut_rest_clean; left; reflexivity.
  - exact H3.
Qed.

(** X21: two ways to cut the same plain stream give the same turn,
    hence the same updates in the same order: when the standard output
    holds no escape introducer and no carriage return, the turn does not
    depend on where the deliveries end. *)
Lemma plain_stream_chunking chunks1 chunks2 code :
  concat chunks1 = concat chunks2 -> plain (concat chunks1) ->
  runTurn now (stdoutOnly chunks1 code) = runTurn now (stdoutOnly chunks2 code).
Proof.
  intros E Hp. rewrite !plain_stream_turn; [rewrite E; reflexivity | |exact Hp].
  rewrite <- E. exact Hp.
Qed.

(** *** The scenario of the specification *)

Lemma not_In_forallb (x : N) s :
  forallb (fun c => negb (x =? c)%N) s = true -> ~ In x s.
Proof.
  rewrite forallb_forall. intros H Hin. specialize (H x Hin).
  rewrite N.eqb_refl in H. discriminate.
Qed.

Lemma scenario_plain : plain (concat Sample.scenarioLines).
Proof. repeat split; apply not_In_forallb; vm_compute; reflexivity. Qed.

Lemma scenario_turn :
  turnOfStream now (Some 0%N) (concat Sample.scenarioLines)
  = {| cancelled := false; sentAny := true;
       sendChain :=
         [ ToolCall (toolId now 1) (lit "shell: ls") Execute InProgress
                    (lit "ls");
           ToolCallUpdate (toolId now 1) (Some InProgress)
                          (Some (lit "file.txt")) (Some (lit "file.txt"));
           ToolCallUpdate (toolId now 1) (Some Completed)
                          (Some (lit "file.txt")) (Some (lit "file.txt"));
           AgentMessageChunk (lit "Done." ++ [LF]) ];
       toolSeq := 1; activeTool := None; lineBuffer := [] |}.
Proof. vm_compute. reflexivity. Qed.

(** C3: when the subprocess emits the four lines of the scenario, in
    whatever deliveries, and exits with code 0, the call enqueues exactly
    the start of a tool call of kind [execute] titled [shell: ls], one
    [in_progress] update and one [completed] update of that tool call,
    both with the output [file.txt], and the text [Done.] with its line
    feed, and returns [end_turn]. *)
Theorem scenario_events chunks host blocks session :
  concat chunks = concat Sample.scenarioLines ->
  let r := promptSession now host (stdoutOnly chunks (Some 0%N)) blocks
                         session in
  outcome r = inl EndTurn
  /\ updates r
     = [ ToolCall (toolId now 1) (lit "shell: ls") Execute InProgress
                  (lit "ls");
         ToolCallUpdate (toolId now 1) (Some InProgress)
                        (Some (lit "file.txt")) (Some (lit "file.txt"));
         ToolCallUpdate (toolId now 1) (Some Completed)
                        (Some (lit "file.txt")) (Some (lit "file.txt"));
         AgentMessageChunk (lit "Done." ++ [LF]) ].
Proof.
  intros Hc r. unfold r.
  rewrite promptSession_launched by (right; reflexivity).
  cbv zeta. rewrite plain_stream_turn by (rewrite Hc; apply scenario_plain).
  rewrite Hc, scenario_turn. split; reflexivity.
Qed.

End Chunking.

Lemma scenario_events_witness :
  concat Sample.scenarioCut = concat Sample.scenarioLines
  /\ Agent.outcome
       (Agent.promptSession Sample.clock Sample.hostReview
          (Stream.stdoutOnly Sample.scenarioCut (Some 0%N)) [] Sample.session1)
     = inl Agent.EndTurn
  /\ length
       (Agent.updates
          (Agent.promptSession Sample.clock Sample.hostReview
             (Stream.stdoutOnly Sample.scenarioCut (Some 0%N)) []
             Sample.session1)) = 4.
Proof.
  assert (Hc : concat Sample.scenarioCut = concat Sample.scenarioLines)
    by reflexivity.
  destruct (scenario_events Sample.clock Sample.scenarioCut
              Sample.hostReview [] Sample.session1 Hc) as [Ho Hu].
  split; [exact Hc|]. split; [exact Ho|].
  rewrite Hu. reflexivity.
Defined.

(** * Further properties *)

(** ** ansi.ts and prompt.ts *)

Section Deletion.

Lemma replace_all_sublist r skip p (s : jsstring) :
  sublist (replace_all r skip p s) s.
Proof.
  revert skip p. induction s as [|c s IH]; intros skip p; [constructor|].
  cbn [replace_all]. destruct skip as [|k].
  - destruct (match_at r p (c :: s)) as [st|].
    + destruct (pos st - p); [apply sublist_skip | apply sublist_cons];
        apply IH.
    + apply sublist_skip, IH.
  - apply sublist_cons, IH.
Qed.

(** X1: [stripAnsi] only deletes: what it returns is the input with some
    code units left out, in the same order, so it is never longer than
    the input and holds no code unit that the input does not hold. *)
Theorem stripAnsi_only_deletes (s : jsstring) :
  sublist (stripAnsi s) s
  /\ length (stripAnsi s) <= length s
  /\ (forall c, In c (stripAnsi s) -> In c s).
Proof.
  assert (H : sublist (stripAnsi s) s) by apply replace_all_sublist.
  split; [exact H|]. split.
  - apply sublist_length, H.
  - intros c Hc. apply list_elem_of_In.
    eapply elem_of_sublist; [|exact H]. apply list_elem_of_In, Hc.
Qed.

(** X2: the text of two prompts put one after the other is the text of
    the first followed by the text of the second. *)
Theorem promptToText_app (prompt1 prompt2 : list ContentBlock) :
  promptToText (prompt1 ++ prompt2)
  = promptToText prompt1 ++ promptToText prompt2.
Proof.
  unfold promptToText.
  rewrite !join_empty, !concat_fold_pushChunk.
  rewrite List.map_app, List.concat_app. reflexivity.
Qed.

End Deletion.

(** ** Sessions across calls *)

Section SessionFlow.

Import Agent.

Variable now : N -> N.

Ltac sync_cases :=
  unfold syncKiroDefaultAgent;
  match goal with
  | |- context [syncStarts ?h ?s] => destruct (syncStarts h s)
  end;
  try reflexivity.

Lemma sync_currentModeId host s :
  currentModeId (syncKiroDefaultAgent host s) = currentModeId s.
Proof. sync_cases. Qed.

Lemma sync_currentModelId host s :
  currentModelId (syncKiroDefaultAgent host s) = currentModelId s.
Proof. sync_cases. Qed.

Lemma sync_started host s :
  started (syncKiroDefaultAgent host s) = started s.
Proof. sync_cases. Qed.

Lemma sync_preflightOk host s :
  preflightOk (syncKiroDefaultAgent host s) = preflightOk s.
Proof. sync_cases. Qed.

Lemma sync_setFlags host a b c s :
  syncKiroDefaultAgent host (setFlags a b c s)
  = setFlags a b c (syncKiroDefaultAgent host s)
  \/ (syncKiroDefaultAgent host (setFlags a b c s) = setFlags a b c s
      /\ syncKiroDefaultAgent host s = s).
Proof.
  unfold syncKiroDefaultAgent.
  change (syncStarts host (setFlags a b c s)) with (syncStarts host s).
  destruct (syncStarts host s) as [desired|];
    [left; reflexivity | right; split; reflexivity].
Qed.

Lemma setFlags_setFlags a b c a' b' c' s :
  setFlags a b c (setFlags a' b' c' s) = setFlags a b c s.
Proof. reflexivity. Qed.

Lemma chatConfig_setFlags host input a b c s :
  chatConfig host input (setFlags a b c s)
  = let config := chatConfig host input s in
    {| config_kiroCli := config_kiroCli config;
       config_cwd := config_cwd config;
       config_input := config_input config;
       config_agent := config_agent config;
       config_model := config_model config;
       config_resume := a;
       config_verbose := config_verbose config;
       config_trustAllTools := config_trustAllTools config;
       config_trustTools := config_trustTools config;
       config_wrap := config_wrap config |}.
Proof. reflexivity. Qed.

(** [prompt] reads neither the cancel flag that the session was left
    with nor its subprocess handle. *)
Lemma promptSession_flags host script blocks b s :
  promptSession now host script blocks
                (setFlags (started s) b (preflightOk s) s)
  = promptSession now host script blocks s.
Proof.
  unfold promptSession.
  cbn [setFlags preflightOk started].
  assert (E : syncKiroDefaultAgent host
                (setFlags (started s) b (preflightOk s) s)
              = setFlags (started s) b (preflightOk s)
                         (syncKiroDefaultAgent host s)).
  { destruct (sync_setFlags host (started s) b (preflightOk s) s)
      as [E|[E1 E2]]; [exact E|].
    rewrite E1, E2. reflexivity. }
  rewrite E. clear E.
  set (s' := syncKiroDefaultAgent host s).
  assert (Hst : started s' = started s) by apply sync_started.
  rewrite chatConfig_setFlags. cbn zeta.
  assert (Hc : forall input,
             {| config_kiroCli := config_kiroCli (chatConfig host input s');
                config_cwd := config_cwd (chatConfig host input s');
                config_input := config_input (chatConfig host input s');
                config_agent := config_agent (chatConfig host input s');
                config_model := config_model (chatConfig host input s');
                config_resume := started s;
                config_verbose := config_verbose (chatConfig host input s');
                config_trustAllTools :=
                  config_trustAllTools (chatConfig host input s');
                config_trustTools := config_trustTools (chatConfig host input s');
                config_wrap := config_wrap (chatConfig host input s') |}
             = chatConfig host input s').
  { intros input. unfold chatConfig. cbn. rewrite Hst. reflexivity. }
  rewrite Hc. fold s'.
  change (started (setFlags (started s) b (preflightOk s) s'))
    with (started s).
  rewrite <- Hst.
  destruct (preflightOk s), (ready script); reflexivity.
Qed.

Lemma promptSession_session_after host script blocks s :
  exists s', session_after (promptSession now host script blocks s) = Some s'.
Proof.
  unfold promptSession.
  destruct (preflightOk s), (ready script);
    repeat (match goal with
            | |- context [if ?b then _ else _] => destruct b
            end); eexists; reflexivity.
Qed.

Lemma launched_config host script blocks s :
  launches s script ->
  launched (promptSession now host script blocks s)
  = Some (chatConfig host (promptToText blocks)
                     (syncKiroDefaultAgent host s)).
Proof.
  intros H. rewrite (promptSession_launched now host script blocks s H).
  cbv zeta.
  repeat (match goal with
          | |- context [if ?b then _ else _] => destruct b
          end); reflexivity.
Qed.

Lemma prompt_found (host : Host) (script : Script) (sessionId : jsstring)
    (blocks : list ContentBlock) (sessions : gmap (list N) Session)
    (session : Session) :
  sessions !! sessionId = Some session ->
  exists s',
    session_after (promptSession now host script blocks session) = Some s'
    /\ prompt now host script sessionId blocks sessions
       = (promptSession now host script blocks session,
          <[sessionId := s']> sessions).
Proof.
  intros Hs. unfold prompt. rewrite Hs.
  destruct (promptSession_session_after host script blocks session)
    as [s' E].
  exists s'. rewrite E. split; reflexivity.
Qed.

(** The session that a launched [prompt] leaves: the capability check
    is not made again, and the conversation is marked as started when
    the turn ended normally. *)
Lemma launched_session_after host script blocks s :
  launches s script ->
  exists b,
    session_after (promptSession now host script blocks s)
    = Some (setFlags
              (match outcome (promptSession now host script blocks s) with
               | inl EndTurn => true
               | _ => started s
               end) b true (syncKiroDefaultAgent host s)).
Proof.
  intros H. rewrite (promptSession_launched now host script blocks s H).
  cbv zeta. rewrite sync_started.
  repeat (match goal with
          | |- context [if ?b then _ else _] => destruct b
          end); eexists; reflexivity.
Qed.

(** X3: a cancel request that arrives while no turn runs is forgotten:
    the next [prompt] on the session gives the result, sends the updates
    and leaves the registry that it would without the request. *)
Theorem stale_cancel_forgotten (host : Host) (script : Script)
    (sessionId : jsstring) (blocks : list ContentBlock)
    (sessions : gmap (list N) Session) (session : Session) :
  sessions !! sessionId = Some session ->
  fst (cancel sessionId sessions) = None
  /\ prompt now host script sessionId blocks (snd (cancel sessionId sessions))
     = prompt now host script sessionId blocks sessions.
Proof.
  intros Hs. unfold cancel. rewrite Hs. cbn [fst snd].
  split; [reflexivity|].
  unfold prompt. rewrite lookup_insert_eq, Hs.
  rewrite promptSession_flags.
  destruct (promptSession_session_after host script blocks session)
    as [s' ->].
  rewrite insert_insert_eq. reflexivity.
Qed.

(** X4: a mode chosen with [setSessionMode] is the agent of the next
    launch: the call succeeds for a listed mode, notifies the client of
    the new mode, leaves the other sessions alone, and the subprocess of
    the next [prompt] gets the mode as its agent, or no agent when the
    mode is [default]. *)
Theorem selected_mode_reaches_launch (host : Host) (script : Script)
    (sessionId modeId : jsstring) (blocks : list ContentBlock)
    (sessions : gmap (list N) Session) (session : Session) :
  sessions !! sessionId = Some session ->
  hasMode modeId (availableModes session) = true ->
  launches session script ->
  let r := setSessionMode host sessionId modeId sessions in
  fst (fst r) = None
  /\ snd r = [CurrentModeUpdate modeId]
  /\ (forall other, other <> sessionId ->
                    snd (fst r) !! other = sessions !! other)
  /\ config_agent
       <$> launched (fst (prompt now host script sessionId blocks
                                 (snd (fst r))))
     = Some (if str_eqb modeId (lit "default") then None else Some modeId).
Proof.
  intros Hs Hm Hl r. subst r.
  unfold setSessionMode. rewrite Hs, Hm. cbn [negb fst snd].
  match goal with
  | |- context [<[sessionId := ?x]> sessions] => set (session' := x)
  end.
  assert (Hmode : currentModeId session' = modeId) by reflexivity.
  assert (Hpre : preflightOk session' = preflightOk session) by reflexivity.
  split; [reflexivity|]. split; [reflexivity|]. split.
  - intros other Ho. apply lookup_insert_ne. congruence.
  - unfold prompt. rewrite lookup_insert_eq. cbn [fst].
    rewrite launched_config.
    + cbn [fmap option_fmap option_map chatConfig config_agent].
      rewrite sync_currentModeId, Hmode. reflexivity.
    + destruct Hl as [Hl|Hl]; [left; congruence | right; exact Hl].
Qed.

(** X5: a model chosen with [setSessionModel] is the model of the next
    launch: the call succeeds for a listed model, leaves the other
    sessions alone, and the subprocess of the next [prompt] gets the
    model, or no model when it is [auto]. *)
Theorem selected_model_reaches_launch (host : Host) (script : Script)
    (sessionId id : jsstring) (blocks : list ContentBlock)
    (sessions : gmap (list N) Session) (session : Session) :
  sessions !! sessionId = Some session ->
  hasModel id (availableModels session) = true ->
  launches session script ->
  let r := setSessionModel sessionId id sessions in
  fst r = None
  /\ (forall other, other <> sessionId -> snd r !! other = sessions !! other)
  /\ config_model
       <$> launched (fst (prompt now host script sessionId blocks (snd r)))
     = Some (if str_eqb id (lit "auto") then None else Some id).
Proof.
  intros Hs Hm Hl r. subst r.
  unfold setSessionModel. rewrite Hs, Hm. cbn [negb fst snd].
  split; [reflexivity|]. split.
  - intros other Ho. apply lookup_insert_ne. congruence.
  - unfold prompt. rewrite lookup_insert_eq. cbn [fst].
    rewrite launched_config by exact Hl.
    cbn [fmap option_fmap option_map chatConfig config_model].
    rewrite sync_currentModelId. reflexivity.
Qed.

(** X6: when the next launch resumes the conversation.  A [prompt] that
    launches the subprocess passes the resume flag the session has; the
    [prompt] after it launches the subprocess whatever the capability
    check would answer, and resumes exactly when the first turn ended
    normally or the session had been started before: a cancelled turn
    and a turn that failed do not mark the conversation as started. *)
Theorem resume_follows_completed_turn (host : Host) (script1 script2 : Script)
    (sessionId : jsstring) (blocks1 blocks2 : list ContentBlock)
    (sessions : gmap (list N) Session) (session : Session) :
  sessions !! sessionId = Some session ->
  launches session script1 ->
  let r1 := prompt now host script1 sessionId blocks1 sessions in
  config_resume <$> launched (fst r1) = Some (started session)
  /\ config_resume
       <$> launched (fst (prompt now host script2 sessionId blocks2 (snd r1)))
     = Some (match outcome (fst r1) with
             | inl EndTurn => true
             | _ => started session
             end).
Proof.
  intros Hs Hl r1.
  destruct (prompt_found host script1 sessionId blocks1 sessions session Hs)
    as (s1 & E1 & Er1).
  subst r1. rewrite Er1. cbn [fst snd]. split.
  - rewrite launched_config by exact Hl.
    cbn [fmap option_fmap option_map chatConfig config_resume].
    apply f_equal, sync_started.
  - destruct (launched_session_after host script1 blocks1 session Hl)
      as [b E].
    rewrite E in E1. injection E1 as <-.
    unfold prompt. rewrite lookup_insert_eq. cbn [fst].
    rewrite launched_config by (left; reflexivity).
    cbn [fmap option_fmap option_map chatConfig config_resume].
    rewrite sync_started. reflexivity.
Qed.

(** X7: a capability check that fails changes nothing but what the
    client reads: the turn ends normally with the message of the check
    as its only update (none if the turn was cancelled meanwhile), no
    subprocess is launched, and the next [prompt] runs, check included,
    as if the failed one had not been made. *)
Theorem failed_check_changes_nothing (host : Host) (script1 script2 : Script)
    (sessionId message : jsstring) (blocks1 blocks2 : list ContentBlock)
    (sessions : gmap (list N) Session) (session : Session) :
  sessions !! sessionId = Some session ->
  preflightOk session = false ->
  ready script1 = NotReady message ->
  let r1 := prompt now host script1 sessionId blocks1 sessions in
  outcome (fst r1) = inl EndTurn
  /\ launched (fst r1) = None
  /\ updates (fst r1)
     = (if preCancel script1 then [] else [AgentMessageChunk message])
  /\ prompt now host script2 sessionId blocks2 (snd r1)
     = prompt now host script2 sessionId blocks2 sessions.
Proof.
  intros Hs Hp Hr r1.
  destruct (prompt_found host script1 sessionId blocks1 sessions session Hs)
    as (s1 & E1 & Er1).
  subst r1. rewrite Er1. cbn [fst snd].
  unfold promptSession in E1 |- *. rewrite Hp, Hr in E1 |- *.
  cbn [outcome launched updates session_after] in E1 |- *.
  injection E1 as <-.
  split; [reflexivity|]. split; [reflexivity|]. split.
  - unfold sendText, sendUpdate, initialTurn. cbn [cancelled].
    destruct (preCancel script1); reflexivity.
  - unfold prompt. rewrite lookup_insert_eq, Hs.
    match goal with
    | |- context [setFlags (started session) ?b false session] =>
        replace (setFlags (started session) b false session)
          with (setFlags (started session) b (preflightOk session) session)
          by (rewrite Hp; reflexivity)
    end.
    rewrite promptSession_flags.
    destruct (promptSession_session_after host script2 blocks2 session)
      as [s' ->].
    rewrite insert_insert_eq. reflexivity.
Qed.

Lemma syncStarts_desired host s desired :
  syncStarts host s = Some desired ->
  zedDefaultMode host = Some desired
  /\ (negb (truthy desired) || str_eqb desired (lit "default")) = false.
Proof.
  unfold syncStarts. destruct (zedDefaultMode host) as [d|]; [|discriminate].
  destruct (negb (truthy d) || str_eqb d (lit "default")) eqn:E1;
    [discriminate|].
  destruct (_ && _); [discriminate|].
  destruct (opt_eqb (kiroDefaultAgent s) d); [discriminate|].
  intros H. injection H as <-. split; [reflexivity | exact E1].
Qed.

(** Once the assignments are made the guards let no call through. *)
Lemma syncStarts_completed host host' s desired :
  zedDefaultMode host' = Some desired ->
  syncStarts host' (syncCompletes host desired s) = None.
Proof.
  intros H. unfold syncStarts, syncCompletes. rewrite H.
  cbn [defaultAgentSync lastAttempt lastOk kiroDefaultAgent opt_eqb].
  rewrite str_eqb_refl.
  destruct (negb (truthy desired) || str_eqb desired (lit "default"));
    [reflexivity|].
  destruct (setDefaultExit host) as [[|p]|]; cbn [andb opt_eqb];
    rewrite ?str_eqb_refl; reflexivity.
Qed.

(** X8: when [agent set-default] is called again.  A run of
    [syncKiroDefaultAgent] that has completed is not repeated while the
    mode configured in the settings stays the same, whatever the
    external tool would answer this time: no call is started and the
    session stays as it is, so a failed attempt is not repeated and a
    successful one is remembered.  [setSessionMode] does not await the
    run it starts: it starts one only for the configured mode, and until
    that run has made its assignments the guards still let a call
    through, so a second [setSessionMode] for the same mode, or the run
    that the next [prompt] awaits, starts [agent set-default] again; once
    the assignments are made neither does. *)
Theorem default_agent_sync_not_repeated :
  (forall (host host' : Host) (s : Session),
      zedDefaultMode host' = zedDefaultMode host ->
      syncStarts host' (syncKiroDefaultAgent host s) = None
      /\ syncKiroDefaultAgent host' (syncKiroDefaultAgent host s)
         = syncKiroDefaultAgent host s)
  /\ (forall (host : Host) (sessionId modeId desired : jsstring)
             (sessions : gmap (list N) Session),
        setSessionModeStarts host sessionId modeId sessions = Some desired ->
        let after := snd (fst (setSessionMode host sessionId modeId sessions)) in
        let settled := syncSettles host sessionId desired after in
        desired = modeId
        /\ setSessionModeStarts host sessionId modeId after = Some desired
        /\ (exists session',
              after !! sessionId = Some session'
              /\ syncStarts host session' = Some desired)
        /\ setSessionModeStarts host sessionId modeId settled = None
        /\ (exists session',
              settled !! sessionId = Some session'
              /\ syncStarts host session' = None)).
Proof.
  split.
  - intros host host' s H.
    assert (Hnone : syncStarts host' (syncKiroDefaultAgent host s) = None).
    { unfold syncKiroDefaultAgent.
      destruct (syncStarts host s) as [desired|] eqn:E.
      - apply syncStarts_completed. rewrite H.
        apply (syncStarts_desired host s desired E).
      - unfold syncStarts in E |- *. rewrite H. exact E. }
    split; [exact Hnone|].
    unfold syncKiroDefaultAgent at 1. rewrite Hnone. reflexivity.
  - intros host sessionId modeId desired sessions.
    unfold setSessionModeStarts at 1, setSessionMode.
    destruct (sessions !! sessionId) as [session|] eqn:Hs; [|discriminate].
    destruct (hasMode modeId (availableModes session)) eqn:Hm;
      [|discriminate].
    cbn [negb fst snd].
    destruct (opt_eqb (zedDefaultMode host) modeId
              && negb (opt_eqb (kiroDefaultAgent (setMode modeId session))
                               modeId)) eqn:Hg; [|discriminate].
    intros Hstart.
    destruct (syncStarts_desired host _ desired Hstart) as [Hz _].
    destruct (andb_prop _ _ Hg) as [Hd _].
    rewrite Hz in Hd. cbn [opt_eqb] in Hd. apply str_eqb_eq in Hd.
    split; [exact Hd|]. split; [|split; [|split]].
    + unfold setSessionModeStarts. rewrite lookup_insert_eq.
      change (availableModes (setMode modeId session))
        with (availableModes session). rewrite Hm. cbn [negb].
      change (setMode modeId (setMode modeId session))
        with (setMode modeId session).
      rewrite Hg. exact Hstart.
    + exists (setMode modeId session). split; [|exact Hstart].
      apply lookup_insert_eq.
    + unfold syncSettles. rewrite lookup_insert_eq, insert_insert_eq.
      unfold setSessionModeStarts. rewrite lookup_insert_eq.
      change (availableModes (syncCompletes host desired
                                            (setMode modeId session)))
        with (availableModes session). rewrite Hm. cbn [negb].
      change (setMode modeId (syncCompletes host desired
                                            (setMode modeId session)))
        with (syncCompletes host desired (setMode modeId session)).
      rewrite (syncStarts_completed host host _ desired Hz).
      match goal with
      | |- (if ?b then _ else _) = _ => destruct b
      end; reflexivity.
    + unfold syncSettles. rewrite lookup_insert_eq, insert_insert_eq.
      exists (syncCompletes host desired (setMode modeId session)).
      split; [apply lookup_insert_eq|].
      apply syncStarts_completed, Hz.
Qed.

End SessionFlow.

(** ** Tool calls as the client sees them *)

Section ToolCalls.

Import Agent Stream Trace.

Variable now : N -> N.

Lemma startedIds_app us vs :
  startedIds (us ++ vs) = startedIds us ++ startedIds vs.
Proof. unfold startedIds. induction us as [|[] us IH]; cbn; congruence. Qed.

Lemma startedIds_updateId i us :
  In i (startedIds us) -> exists u, In u us /\ updateId u = Some i.
Proof.
  induction us as [|u us IH]; [intros []|].
  change (u :: us) with ([u] ++ us). rewrite startedIds_app, in_app_iff.
  intros [H|H].
  - exists u. split; [left; reflexivity|].
    destruct u; cbn in H; try destruct H as [H|[]]; try destruct H.
    subst. reflexivity.
  - destruct (IH H) as (v & Hv & E). exists v. split; [right; exact Hv | exact E].
Qed.

Lemma startedIds_other us :
  Forall (fun u => isStart u = false) us -> startedIds us = [].
Proof.
  induction 1 as [|u us Hu _ IH]; [reflexivity|].
  change (u :: us) with ([u] ++ us). rewrite startedIds_app, IH.
  destruct u; try discriminate Hu; reflexivity.
Qed.

Lemma startsFirst_snoc us u :
  startsFirst us ->
  (forall i, updateId u = Some i -> isStart u = false ->
             In i (startedIds us)) ->
  startsFirst (us ++ [u]).
Proof.
  intros Hs Hu before v after i Heq Hv Hn.
  destruct after as [|x after _] using rev_ind.
  - apply List.app_inj_tail in Heq as [-> ->]. apply Hu; assumption.
  - rewrite List.app_comm_cons, List.app_assoc in Heq.
    apply List.app_inj_tail in Heq as [-> ->].
    exact (Hs before v after i eq_refl Hv Hn).
Qed.

Lemma startsFirst_others us extra :
  Forall (fun u => updateId u = None) extra ->
  startsFirst us -> startsFirst (us ++ extra).
Proof.
  intros Hx. revert us. induction Hx as [|u extra Hu _ IH]; intros us Hs.
  - rewrite List.app_nil_r. exact Hs.
  - change (u :: extra) with ([u] ++ extra). rewrite List.app_assoc.
    apply IH, startsFirst_snoc; [exact Hs|]. intros i E. congruence.
Qed.

Lemma Orderly_initial pre : Orderly now (initialTurn pre).
Proof.
  split; cbn.
  - intros i [].
  - constructor.
  - intros before u after i H. destruct before; discriminate H.
  - discriminate.
Qed.

Lemma Orderly_setLineBuffer b t :
  Orderly now t -> Orderly now (setLineBuffer b t).
Proof. intros [H1 H2 H3 H4]. split; assumption. Qed.

Lemma Orderly_setCancelled t :
  Orderly now t -> Orderly now (setCancelled true t).
Proof. intros [H1 H2 H3 H4]. split; try assumption. discriminate. Qed.

Lemma Orderly_close t : Orderly now t -> Orderly now (setActiveTool None t).
Proof. intros [H1 H2 H3 H4]. split; try assumption. discriminate. Qed.

Lemma Orderly_output a a' t :
  activeTool t = Some a -> id a' = id a ->
  Orderly now t -> Orderly now (setActiveTool (Some a') t).
Proof.
  intros Ha Hid [H1 H2 H3 H4]. split; try assumption.
  cbn [setActiveTool activeTool cancelled sendChain].
  intros b [= <-] Hc. rewrite Hid. apply H4; assumption.
Qed.

(** An update that starts no tool call and is about none but the open
    one. *)
Lemma Orderly_send u t :
  isStart u = false ->
  (forall i, updateId u = Some i ->
             exists a, activeTool t = Some a /\ id a = i) ->
  Orderly now t -> Orderly now (sendUpdate u t).
Proof.
  intros Hn Hu [H1 H2 H3 H4].
  assert (E : startedIds (sendChain (sendUpdate u t))
              = startedIds (sendChain t)).
  { rewrite sendUpdate_sendChain, startedIds_app.
    destruct (cancelled t).
    - rewrite (startedIds_other []) by constructor. apply List.app_nil_r.
    - rewrite (startedIds_other [u])
        by (constructor; [exact Hn | constructor]).
      apply List.app_nil_r. }
  split; rewrite ?E, ?sendUpdate_toolSeq, ?sendUpdate_activeTool,
                 ?sendUpdate_cancelled; try assumption.
  rewrite sendUpdate_sendChain. destruct (cancelled t) eqn:Hc.
  - rewrite List.app_nil_r. exact H3.
  - apply startsFirst_snoc; [exact H3|].
    intros i Hi _. destruct (Hu i Hi) as (a & Ha & <-).
    apply H4; [exact Ha | reflexivity].
Qed.

(** The start of the next tool call. *)
Lemma Orderly_open tool t :
  id tool = toolId now (toolSeq t + 1) ->
  Orderly now t ->
  Orderly now (sendToolCall (setActiveTool (Some tool)
                           (setToolSeq (toolSeq t + 1) t))).
Proof.
  intros Hid [H1 H2 H3 H4]. unfold sendToolCall.
  set (t' := setActiveTool (Some tool) (setToolSeq (toolSeq t + 1) t)).
  change (activeTool t') with (Some tool). cbv beta iota.
  set (u := ToolCall _ _ _ _ _).
  assert (Hchain : sendChain t' = sendChain t) by reflexivity.
  assert (Hc : cancelled t' = cancelled t) by reflexivity.
  assert (E : startedIds (sendChain (sendUpdate u t'))
              = startedIds (sendChain t)
                ++ (if cancelled t then [] else [id tool])).
  { rewrite sendUpdate_sendChain, startedIds_app, Hchain, Hc.
    destruct (cancelled t); reflexivity. }
  assert (Hfresh : ~ In (id tool) (startedIds (sendChain t))).
  { intros Hin. destruct (H1 _ Hin) as (k & Hk & Ek).
    rewrite Hid in Ek. apply (toolId_inj now) in Ek. lia. }
  split; rewrite ?E, ?sendUpdate_toolSeq, ?sendUpdate_activeTool,
                 ?sendUpdate_cancelled, ?Hc.
  - intros i Hi. change (toolSeq t') with (toolSeq t + 1)%N.
    apply in_app_or in Hi as [Hi|Hi].
    + destruct (H1 i Hi) as (k & Hk & ->). exists k. split; [lia | reflexivity].
    + destruct (cancelled t); [destruct Hi|].
      destruct Hi as [<-|[]]. exists (toolSeq t + 1)%N. split; [lia | exact Hid].
  - destruct (cancelled t); [rewrite List.app_nil_r; exact H2|].
    apply NoDup_app. split; [exact H2|].
    split; [|apply NoDup_singleton].
    intros i Hi Hi'. apply list_elem_of_In in Hi.
    apply list_elem_of_singleton in Hi'. subst i. contradiction.
  - rewrite sendUpdate_sendChain, Hchain, Hc.
    destruct (cancelled t); [rewrite List.app_nil_r; exact H3|].
    apply startsFirst_snoc; [exact H3|]. intros i _ Hn. discriminate Hn.
  - change (activeTool t') with (Some tool). intros a [= <-] Hf. rewrite Hf.
    apply in_or_app. right. left. reflexivity.
Qed.

Lemma Orderly_sendToolUpdate st t :
  Orderly now t -> Orderly now (sendToolUpdate st t).
Proof.
  intros H. unfold sendToolUpdate.
  destruct (activeTool t) as [a|] eqn:Ha; [|exact H].
  apply Orderly_send; [reflexivity | | exact H].
  cbn [updateId]. intros i [= <-]. exists a. split; [exact Ha | reflexivity].
Qed.

Lemma Orderly_handleLine line t :
  Orderly now t -> Orderly now (handleLine now line t).
Proof.
  intros H. unfold handleLine.
  destruct (exec toolStartRe line) as [[p m]|].
  - destruct (activeTool t) as [a|] eqn:Ha.
    + pose proof (Orderly_sendToolUpdate (Some Completed) t H) as H1.
      match goal with
      | |- Orderly now (sendToolCall (setActiveTool (Some ?tool) _)) =>
          exact (Orderly_open tool (sendToolUpdate (Some Completed) t)
                              eq_refl H1)
      end.
    + match goal with
      | |- Orderly now (sendToolCall (setActiveTool (Some ?tool) _)) =>
          exact (Orderly_open tool t eq_refl H)
      end.
  - destruct (activeTool t) as [a|] eqn:Ha.
    + destruct (test toolDoneRe line).
      * apply Orderly_close, Orderly_sendToolUpdate, H.
      * apply Orderly_sendToolUpdate.
        apply (Orderly_output a); [exact Ha | reflexivity | exact H].
    + unfold sendThought, sendText.
      destruct (existsb _ _); (apply Orderly_send; [reflexivity | | exact H]);
        intros i E; discriminate E.
Qed.

Lemma Orderly_closeTool code t :
  Orderly now t -> Orderly now (closeTool code t).
Proof.
  intros H. unfold closeTool. destruct (activeTool t); [|exact H].
  apply Orderly_close, Orderly_sendToolUpdate, H.
Qed.

Lemma Orderly_runTurn script : Orderly now (runTurn now script).
Proof.
  apply runTurn_preserves.
  - apply Orderly_handleLine.
  - apply Orderly_setLineBuffer.
  - apply Orderly_closeTool.
  - apply Orderly_setCancelled.
  - apply Orderly_initial.
Qed.

(** X9: the tool calls of a turn have identifiers of their own: among
    the updates of a [prompt], no two that start a tool call carry the
    same identifier, whatever the clock gives. *)
Theorem tool_call_ids_distinct (host : Host) (script : Script)
    (blocks : list ContentBlock) (session : Session) :
  NoDup (startedIds (updates (promptSession now host script blocks session))).
Proof.
  destruct (promptSession_updates now host script blocks session)
    as (chain & extra & -> & Hx & Hc).
  rewrite startedIds_app, (startedIds_other extra).
  - rewrite List.app_nil_r. destruct Hc as [->| ->]; [constructor|].
    apply Orderly_runTurn.
  - eapply Forall_impl; [exact Hx|].
    intros u Hu. destruct u; try reflexivity. discriminate Hu.
Qed.

(** X10: the client hears of a tool call before it hears about it: among
    the updates of a [prompt], every update of a tool call comes after
    the update that starts the tool call with that identifier. *)
Theorem tool_updates_follow_start (host : Host) (script : Script)
    (blocks : list ContentBlock) (session : Session) :
  startsFirst (updates (promptSession now host script blocks session)).
Proof.
  destruct (promptSession_updates now host script blocks session)
    as (chain & extra & -> & Hx & Hc).
  apply startsFirst_others; [exact Hx|].
  destruct Hc as [->| ->].
  - intros before u after i H. destruct before; discriminate H.
  - apply Orderly_runTurn.
Qed.

(** A line of output while a tool call is open. *)
Lemma handleLine_output line a t :
  activeTool t = Some a -> cancelled t = false -> outputLine line ->
  handleLine now line t
  = sendUpdate (progressUpdate (id a) (output a ++ [line]))
               (setActiveTool (Some (withOutput a [line])) t).
Proof.
  intros Ha Hc [Hs Hd]. unfold handleLine. rewrite Hs, Ha, Hd.
  unfold sendToolUpdate, toolContent, progressUpdate, withOutput.
  cbn [setActiveTool activeTool output id].
  destruct (output a ++ [line]) as [|x l] eqn:E; [|reflexivity].
  destruct (output a); discriminate E.
Qed.

(** X11: the output of a tool call is reported whole each time.  While a
    tool call is open and the turn is not cancelled, each line that
    neither announces a tool call nor reports the end of one adds one
    update to the chain, in progress, whose content and raw output are
    all the output lines of the tool call so far joined by line feeds;
    the tool call stays open with these lines as its output. *)
Theorem tool_output_accumulates (lines : list jsstring) (a : ActiveTool)
    (t : Turn) :
  activeTool t = Some a -> cancelled t = false ->
  Forall outputLine lines ->
  sendChain (handleLines now lines t)
  = sendChain t
    ++ List.map (fun k => progressUpdate (id a) (output a ++ take k lines))
                (seq 1 (length lines))
  /\ activeTool (handleLines now lines t) = Some (withOutput a lines).
Proof.
  intros Ha Hc Hl. revert a t Ha Hc.
  induction Hl as [|line lines Hline _ IH]; intros a t Ha Hc.
  - cbn. rewrite List.app_nil_r. split; [reflexivity|].
    rewrite Ha. unfold withOutput. rewrite List.app_nil_r.
    destruct a; reflexivity.
  - change (handleLines now (line :: lines) t)
      with (handleLines now lines (handleLine now line t)).
    rewrite (handleLine_output line a t Ha Hc Hline).
    set (a1 := withOutput a [line]).
    set (t1 := sendUpdate _ (setActiveTool (Some a1) t)).
    assert (Ha1 : activeTool t1 = Some a1)
      by (subst t1; rewrite sendUpdate_activeTool; reflexivity).
    assert (Hc1 : cancelled t1 = false)
      by (subst t1; rewrite sendUpdate_cancelled; exact Hc).
    destruct (IH a1 t1 Ha1 Hc1) as [E1 E2]. split.
    + rewrite E1. subst t1. rewrite sendUpdate_sendChain.
      cbn [setActiveTool cancelled sendChain]. rewrite Hc.
      rewrite <- List.app_assoc. f_equal.
      cbn [length seq List.map app]. f_equal.
      rewrite <- (seq_shift (length lines) 1), List.map_map.
      apply List.map_ext. intros k.
      subst a1. unfold withOutput. cbn [id output firstn take].
      rewrite <- List.app_assoc. reflexivity.
    + rewrite E2. subst a1. unfold withOutput. cbn [id kind title rawInput output].
      rewrite <- List.app_assoc. reflexivity.
Qed.

End ToolCalls.

(** ** kiro.ts: what the stream processor emits *)

Section Emitted.

Import Agent Stream Trace.

(** The pieces of a split hold no code unit that the separator cannot
    pass. *)
Lemma split_from_free r cls :
  separates r cls ->
  forall s skip p cur,
    free cls cur -> Forall (free cls) (split_from r skip p cur s).
Proof.
  intros Hsep. induction s as [|c s IH]; intros skip p cur Hcur.
  - constructor; [exact Hcur | constructor].
  - cbn [split_from]. destruct skip as [|k]; [|apply IH, Hcur].
    assert (Hc : forall st, match_at r p (c :: s) = Some st ->
                            pos st - p = 0 -> cls c = false).
    { intros st E Hz. destruct (cls c) eqn:Ec; [|reflexivity].
      destruct (Hsep p c s Ec) as (st' & E' & Hlt).
      rewrite E in E'. injection E' as <-. lia. }
    destruct (match_at r p (c :: s)) as [st|] eqn:E.
    + destruct (pos st - p) as [|k] eqn:Hk.
      * assert (Hone : free cls [c])
          by (constructor; [exact (Hc st eq_refl Hk) | constructor]).
        destruct cur; [apply IH, Hone|].
        constructor; [exact Hcur | apply IH, Hone].
      * constructor; [exact Hcur | apply IH; constructor].
    + apply IH. apply Forall_app. split; [exact Hcur|].
      constructor; [|constructor].
      destruct (cls c) eqn:Ec; [|reflexivity].
      destruct (Hsep p c s Ec) as (st' & E' & _). congruence.
Qed.

Lemma split_free r cls s :
  separates r cls -> Forall (free cls) (split r s).
Proof.
  intros Hsep. destruct s as [|c s].
  - cbn [split]. destruct (match_at r 0 []); repeat constructor.
  - apply split_from_free; [exact Hsep | constructor].
Qed.

Lemma lineBreak_separates : separates Kiro.lineBreak is_break.
Proof.
  intros p c s Hc. unfold is_break in Hc.
  apply orb_true_iff in Hc as [Hc|Hc]; apply N.eqb_eq in Hc; subst c.
  - destruct s as [|d s]; [eexists; split; [reflexivity | cbn; lia]|].
    unfold match_at, Kiro.lineBreak, text, chr.
    cbn [rmatch rest flat_map app]. rewrite N.eqb_refl.
    cbn [rmatch rest flat_map app advance pos caps].
    destruct (LF =? d)%N; eexists; (split; [reflexivity | cbn; lia]).
  - eexists; split; [reflexivity | cbn; lia].
Qed.

Lemma free_unbroken s : free is_break s <-> unbroken s.
Proof.
  unfold free, unbroken, is_break. rewrite List.Forall_forall. split.
  - intros H. split; intros Hin; apply H in Hin; discriminate Hin.
  - intros [Hr Hl] c Hin. apply orb_false_iff.
    split; apply N.eqb_neq; intros <-; contradiction.
Qed.

Lemma processChunk_shape (rawChunk : jsstring) (isFinal : bool)
    (buffer : jsstring) :
  exists lines rest,
    Kiro.processChunk rawChunk isFinal buffer
    = (List.map (fun line => line ++ [LF]) lines
         ++ (if isFinal
             then match rest with [] => [] | _ :: _ => [rest] end
             else []),
       if isFinal then [] else rest)
    /\ Forall unbroken lines /\ unbroken rest.
Proof.
  unfold Kiro.processChunk, Kiro.pop.
  set (combined := buffer ++ stripAnsi rawChunk).
  pose proof (split_free Kiro.lineBreak is_break combined lineBreak_separates)
    as Hparts.
  set (parts := split Kiro.lineBreak combined) in *.
  set (rest := if negb (test Kiro.lineBreakAtEnd combined)
               then default [] (last parts) else []).
  assert (Hrest : unbroken rest).
  { subst rest. destruct (negb _); [|split; intros []].
    destruct (last parts) as [piece|] eqn:E; [|split; intros []].
    apply free_unbroken. exact (Forall_last _ _ _ Hparts E). }
  exists (removelast parts), rest. split; [|split].
  - destruct isFinal; cbn [andb].
    + destruct rest; cbn [length Nat.ltb Nat.leb];
        [rewrite List.app_nil_r|]; reflexivity.
    + rewrite List.app_nil_r. reflexivity.
  - eapply List.Forall_impl; [|apply Forall_removelast, Hparts].
    intros piece. apply free_unbroken.
  - exact Hrest.
Qed.

(** X12: whatever the subprocess writes, the stream processor hands
    over whole lines.  Each chunk event of [processChunk] is a text
    without carriage return and without line feed followed by one line
    feed; only a final call may add, as its last event, the unterminated
    rest, which has no line break and is not empty.  The buffer kept
    between calls has no line break, and a final call leaves it empty. *)
Theorem processChunk_emits_lines (rawChunk : jsstring) (isFinal : bool)
    (buffer : jsstring) :
  exists lines rest,
    fst (Kiro.processChunk rawChunk isFinal buffer)
    = List.map (fun line => line ++ [LF]) lines
        ++ (if isFinal
            then match rest with [] => [] | _ :: _ => [rest] end
            else [])
    /\ snd (Kiro.processChunk rawChunk isFinal buffer)
       = (if isFinal then [] else rest)
    /\ Forall unbroken lines /\ unbroken rest.
Proof.
  destruct (processChunk_shape rawChunk isFinal buffer)
    as (lines & rest & E & Hlines & Hrest).
  exists lines, rest. rewrite E. cbn [fst snd].
  split; [reflexivity|]. split; [reflexivity|]. split; assumption.
Qed.

Lemma cut_concat cur s :
  concat (List.map (fun line => line ++ [LF]) (removelast (cut cur s)))
    ++ default [] (last (cut cur s))
  = cur ++ s.
Proof.
  revert cur. induction s as [|c s IH]; intros cur.
  - cbn. rewrite List.app_nil_r. reflexivity.
  - cbn [cut]. destruct (LF =? c)%N eqn:E.
    + apply N.eqb_eq in E. subst c.
      rewrite removelast_cons, last_cons_nonempty by apply cut_nonempty.
      cbn [List.map concat]. rewrite <- !List.app_assoc.
      rewrite (IH []). reflexivity.
    + rewrite IH, <- List.app_assoc. reflexivity.
Qed.

Lemma emitted_plain chunks st :
  ~ In CR (Kiro.stdoutBuffer st) -> ~ In LF (Kiro.stdoutBuffer st) ->
  Kiro.stderrBuffer st = [] ->
  plain (concat chunks) ->
  concat (emitted (List.map StdoutData chunks) st)
  = Kiro.stdoutBuffer st ++ concat chunks.
Proof.
  revert st. induction chunks as [|chunk chunks IH]; intros st Hr Hl He Hp.
  - cbn [List.map emitted concat]. rewrite onClose_plain by assumption.
    rewrite List.app_nil_r.
    destruct (Kiro.stdoutBuffer st); [reflexivity|].
    cbn. f_equal. apply List.app_nil_r.
  - cbn [List.map emitted concat Kiro.onData] in Hp |- *.
    destruct (plain_app _ _ Hp) as [(Hc1 & Hc2 & Hc3) Hp'].
    assert (Hbc : ~ In CR (Kiro.stdoutBuffer st ++ chunk)).
    { intros H. apply in_app_or in H as [H|H]; contradiction. }
    rewrite processChunk_plain by assumption.
    rewrite List.concat_app, IH.
    + cbn [Kiro.stdoutBuffer]. rewrite List.app_assoc, cut_concat.
      cbn [app]. rewrite <- List.app_assoc. reflexivity.
    + cbn [Kiro.stdoutBuffer]. apply cut_rest_clean. right. exact Hbc.
    + cbn [Kiro.stdoutBuffer]. apply cut_rest_clean. left. reflexivity.
    + exact He.
    + exact Hp'.
Qed.

(** X13: nothing is lost and nothing is added on a plain stream.  When
    the standard output of the subprocess holds no escape introducer and
    no carriage return, the texts of the chunk events of the run, put
    end to end, are the stream, however it was cut into deliveries. *)
Theorem plain_stream_conserved (chunks : list jsstring) :
  plain (concat chunks) ->
  concat (emitted (List.map StdoutData chunks) Kiro.initial) = concat chunks.
Proof.
  intros Hp. rewrite emitted_plain; [reflexivity | | | reflexivity | exact Hp];
    intros [].
Qed.

End Emitted.

(** ** The close of the subprocess *)

Section Tails.

Import Agent Stream Trace.

Variable now : N -> N.

Lemma unbroken_app a b : unbroken a -> unbroken b -> unbroken (a ++ b).
Proof.
  intros [H1 H2] [H3 H4].
  split; intros H; apply in_app_or in H as [H|H]; contradiction.
Qed.

Lemma processChunk_final b :
  unbroken b ->
  Kiro.processChunk [] true b
  = (match b with [] => [] | _ :: _ => [b] end, []).
Proof.
  intros [Hr Hl]. unfold Kiro.processChunk.
  change (stripAnsi []) with (@nil N). rewrite List.app_nil_r.
  rewrite test_lineBreakAtEnd_rest, split_cut, cut_no_LF by assumption.
  cbn [Kiro.pop removelast last negb default List.map app].
  destruct b; reflexivity.
Qed.

(** A chunk event without line break goes to the line buffer, after
    what the buffer holds. *)
Lemma handleChunk_tail b t :
  unbroken (lineBuffer t ++ b) ->
  handleChunk now b t = setLineBuffer (lineBuffer t ++ b) t.
Proof.
  intros [Hr Hl]. unfold handleChunk.
  rewrite split_cut, cut_no_LF by assumption. reflexivity.
Qed.

Lemma onEvents_lineBuffer lines t :
  lineBuffer t = [] -> Forall unbroken lines ->
  lineBuffer (onEvents now (List.map (fun line => line ++ [LF]) lines) t) = [].
Proof.
  intros Hb Hl. rewrite onEvents_lines.
  - rewrite handleLines_lineBuffer. exact Hb.
  - exact Hb.
  - eapply Forall_impl; [exact Hl|]. intros l H. apply H.
  - eapply Forall_impl; [exact Hl|]. intros l H. apply H.
Qed.

(** Between deliveries neither the stream processor nor the agent holds
    a line break: the line buffer of the agent is empty. *)
Lemma runSteps_buffers steps k t :
  unbroken (Kiro.stdoutBuffer k) -> unbroken (Kiro.stderrBuffer k) ->
  lineBuffer t = [] ->
  unbroken (Kiro.stdoutBuffer (fst (runSteps now steps k t)))
  /\ unbroken (Kiro.stderrBuffer (fst (runSteps now steps k t)))
  /\ lineBuffer (snd (runSteps now steps k t)) = [].
Proof.
  revert k t. induction steps as [|[[data|data]|] steps IH];
    intros k t H1 H2 Hb; cbn [runSteps Kiro.onData].
  - auto.
  - destruct (processChunk_shape data false (Kiro.stdoutBuffer k))
      as (lines & rest & -> & Hlines & Hrest).
    rewrite List.app_nil_r. apply IH; cbn; auto.
    apply onEvents_lineBuffer; assumption.
  - destruct (processChunk_shape data false (Kiro.stderrBuffer k))
      as (lines & rest & -> & Hlines & Hrest).
    rewrite List.app_nil_r. apply IH; cbn; auto.
    apply onEvents_lineBuffer; assumption.
  - apply IH; auto.
Qed.

Lemma flush_tails k t :
  unbroken (Kiro.stdoutBuffer k) -> unbroken (Kiro.stderrBuffer k) ->
  lineBuffer t = [] ->
  flush now k t
  = match Kiro.stdoutBuffer k ++ Kiro.stderrBuffer k with
    | [] => t
    | c :: l => handleLine now (c :: l) t
    end.
Proof.
  intros H1 H2 Hb. unfold flush, Kiro.onClose.
  rewrite (processChunk_final _ H1), (processChunk_final _ H2).
  cbn [fst].
  set (a := Kiro.stdoutBuffer k) in *. set (b := Kiro.stderrBuffer k) in *.
  assert (E : onEvents now
                (match a with [] => [] | _ :: _ => [a] end
                 ++ match b with [] => [] | _ :: _ => [b] end) t
              = setLineBuffer (a ++ b) t).
  { assert (Ht : setLineBuffer [] t = t)
      by (rewrite <- Hb; apply setLineBuffer_same).
    destruct a as [|x a], b as [|y b]; cbn [app onEvents fold_left].
    - symmetry. exact Ht.
    - rewrite handleChunk_tail by (rewrite Hb; exact H2).
      rewrite Hb. reflexivity.
    - rewrite handleChunk_tail by (rewrite Hb; exact H1).
      rewrite Hb, List.app_nil_r. reflexivity.
    - rewrite (handleChunk_tail (x :: a) t) by (rewrite Hb; exact H1).
      rewrite Hb. cbn [app].
      rewrite handleChunk_tail; cbn [setLineBuffer lineBuffer].
      + reflexivity.
      + apply (unbroken_app (x :: a) (y :: b)); assumption. }
  rewrite E. cbn [setLineBuffer lineBuffer].
  destruct (a ++ b) as [|c l] eqn:Eab.
  - rewrite <- Hb. apply setLineBuffer_same.
  - change (handleLine now (c :: l)
              {| cancelled := cancelled t; sentAny := sentAny t;
                 sendChain := sendChain t; toolSeq := toolSeq t;
                 activeTool := activeTool t; lineBuffer := c :: l |})
      with (handleLine now (c :: l) (setLineBuffer (c :: l) t)).
    rewrite handleLine_setLineBuffer, setLineBuffer_twice.
    rewrite <- Hb, <- (handleLine_lineBuffer now (c :: l) t).
    apply setLineBuffer_same.
Qed.

(** X20: what the close of the subprocess handles.  Whatever was
    delivered and whenever a cancel request came, when the subprocess
    closes the stream processor holds an unterminated rest of the
    standard output and one of the standard error, both without line
    break, and the agent holds nothing; the flush then handles the two
    rests as one line, the rest of the standard output first, and
    handles nothing when both are empty. *)
Theorem close_joins_unterminated_ends (steps : list Step) (pre : bool) :
  let r := runSteps now steps Kiro.initial (initialTurn pre) in
  unbroken (Kiro.stdoutBuffer (fst r))
  /\ unbroken (Kiro.stderrBuffer (fst r))
  /\ lineBuffer (snd r) = []
  /\ flush now (fst r) (snd r)
     = match Kiro.stdoutBuffer (fst r) ++ Kiro.stderrBuffer (fst r) with
       | [] => snd r
       | c :: l => handleLine now (c :: l) (snd r)
       end.
Proof.
  intros r.
  assert (H0 : unbroken []) by (split; intros []).
  destruct (runSteps_buffers steps Kiro.initial (initialTurn pre) H0 H0
                             eq_refl) as (H1 & H2 & H3).
  fold r in H1, H2, H3.
  repeat split; try apply H1; try apply H2; try exact H3.
  apply flush_tails; assumption.
Qed.

End Tails.

(** ** agent.ts: the agents found *)

Section AgentListing.

Import Agent Trace AgentList.

Lemma class_prefix (cls : N -> bool) (s : jsstring) :
  exists pre s', s = pre ++ s' /\ Forall (fun c => cls c = true) pre
                 /\ stops cls s'.
Proof.
  induction s as [|c s (pre & s' & -> & Hpre & Hs)].
  - exists [], []. repeat split. constructor.
  - destruct (cls c) eqn:E.
    + exists (c :: pre), s'. repeat split; [constructor; assumption | exact Hs].
    + exists [], (c :: pre ++ s'). repeat split; [constructor | exact E].
Qed.

Lemma spaces_separates : separates spaces is_space.
Proof.
  intros p c s Hc.
  destruct (class_prefix is_space s) as (pre & s' & -> & Hpre & Hs).
  exists (MState (S p + length pre) s' []). split; [|cbn [pos]; lia].
  unfold match_at, spaces, plus, space.
  apply (prefer_seq _ _ _ (MState (S p) (pre ++ s') [])).
  - apply prefer_chr, Hc.
  - cbn [rmatch rest]. apply prefer_star_class; [exact Hpre | exact Hs | lia].
Qed.

Lemma parseLine_wellFormed acc line :
  Forall wellFormed (fst acc) ->
  (forall d, snd acc = Some d -> In d (List.map mode_id (fst acc))) ->
  Forall wellFormed (fst (parseLine acc line))
  /\ (forall d, snd (parseLine acc line) = Some d ->
                In d (List.map mode_id (fst (parseLine acc line)))).
Proof.
  intros H1 H2. unfold parseLine.
  set (rest := if startsWith line (lit "*") then _ else _).
  pose proof (split_free spaces is_space rest spaces_separates) as Hfree.
  destruct (split spaces rest) as [|name tail]; [split; assumption|].
  destruct name as [|c name]; [split; assumption|].
  cbn [truthy negb fst snd]. split.
  - apply Forall_app. split; [exact H1|].
    constructor; [|constructor].
    split; [discriminate|]. split; [|reflexivity].
    inversion Hfree; assumption.
  - intros d Hd. rewrite List.map_app, in_app_iff.
    destruct (startsWith line (lit "*")).
    + injection Hd as <-. right. left. reflexivity.
    + left. apply H2, Hd.
Qed.

Lemma parseAgentList_wellFormed out :
  Forall wellFormed (fst (parseAgentList out))
  /\ (forall d, snd (parseAgentList out) = Some d ->
                In d (List.map mode_id (fst (parseAgentList out)))).
Proof.
  unfold parseAgentList.
  assert (H : forall ls acc,
             Forall wellFormed (fst acc) ->
             (forall d, snd acc = Some d -> In d (List.map mode_id (fst acc))) ->
             Forall wellFormed (fst (fold_left parseLine ls acc))
             /\ (forall d, snd (fold_left parseLine ls acc) = Some d ->
                           In d (List.map mode_id
                                   (fst (fold_left parseLine ls acc))))).
  { induction ls as [|l ls IH]; intros acc H1 H2; [split; assumption|].
    cbn [fold_left].
    destruct (parseLine_wellFormed acc l H1 H2) as [H3 H4].
    apply IH; assumption. }
  apply H; [constructor | discriminate].
Qed.

(** X14: what the listing of the agents can give, whatever the external
    tool writes.  Every agent found has a name that is not empty and
    holds no white space, and that name is its identifier; and the
    default agent, when one is marked, is one of the agents found. *)
Theorem listed_agents_well_formed (out : jsstring) :
  Forall wellFormed (fst (parseAgentList out))
  /\ (forall d, snd (parseAgentList out) = Some d ->
                exists m, In m (fst (parseAgentList out)) /\ mode_id m = d).
Proof.
  destruct (parseAgentList_wellFormed out) as [H1 H2].
  split; [exact H1|]. intros d Hd.
  apply H2, in_map_iff in Hd as (m & E & Hin).
  exists m. split; [exact Hin | exact E].
Qed.

(** X15: a new session starts in a mode that the listing gave.  When the
    agents come from the listing, no mode is configured in the settings
    of the host and the environment asks for none (or for [default]),
    the current mode of the new session is one of its available modes,
    and these are the agents found, or the single mode [default] when
    none was found: no entry is added for the current mode. *)
Theorem new_session_mode_from_listing (host : Host) (dir out : jsstring) :
  listKiroAgents host = parseAgentList out ->
  zedDefaultMode host = None ->
  envString host (lit "KIRO_ACP_AGENT") = None
  \/ envString host (lit "KIRO_ACP_AGENT") = Some (lit "default") ->
  modeListed (freshSession host dir)
  /\ availableModes (freshSession host dir) = discoveredModes host.
Proof.
  intros Hl Hz He.
  destruct (parseAgentList_wellFormed out) as [_ Hd].
  assert (Hp : preferredMode host
               = default (default (lit "default")
                                  (mode_id <$> head (fst (parseAgentList out))))
                         (snd (parseAgentList out))).
  { unfold preferredMode. rewrite Hl, Hz.
    destruct (parseAgentList out) as [agents d].
    destruct He as [-> | ->]; reflexivity. }
  assert (Hin : hasMode (preferredMode host) (discoveredModes host) = true).
  { apply hasMode_In. rewrite Hp. unfold discoveredModes. rewrite Hl.
    destruct (parseAgentList out) as [agents d]. cbn [fst snd] in Hd |- *.
    destruct d as [d|].
    - cbn [default]. specialize (Hd d eq_refl).
      destruct agents; [destruct Hd | exact Hd].
    - destruct agents as [|m agents]; left; reflexivity. }
  unfold modeListed, freshSession. cbn [currentModeId availableModes].
  rewrite Hin, !andb_false_r. split; [exact Hin | reflexivity].
Qed.

End AgentListing.

(** ** agent.ts: the text of the settings *)

Section SettingsText.

Import Settings.

Lemma stripComments_bare pre rest :
  bare pre ->
  stripComments Code (pre ++ rest) = pre ++ stripComments Code rest.
Proof.
  intros (H1 & H2 & H3). induction pre as [|c pre IH]; [reflexivity|].
  cbn [app stripComments].
  assert (Hq : is_quote c = false).
  { unfold is_quote. apply orb_false_iff.
    split; apply N.eqb_neq; intros ->; [apply H1 | apply H2]; left;
      reflexivity. }
  assert (Hs : (c =? 47)%N = false)
    by (apply N.eqb_neq; intros ->; apply H3; left; reflexivity).
  rewrite Hq, Hs. cbn [andb]. f_equal.
  apply IH; intros H; [apply H1 | apply H2 | apply H3]; right; exact H.
Qed.

Lemma is_quote_cases q : is_quote q = true -> q = 34%N \/ q = 39%N.
Proof.
  unfold is_quote. intros H. apply orb_true_iff in H as [H|H];
    apply N.eqb_eq in H; auto.
Qed.

Lemma inString_inside q c :
  c <> q -> c <> 92%N -> inString q false c = InString q false.
Proof.
  intros H1 H2. unfold inString.
  apply N.eqb_neq in H1, H2. rewrite H1, H2. reflexivity.
Qed.

Lemma inString_close q : is_quote q = true -> inString q false q = Code.
Proof.
  intros H. unfold inString. rewrite N.eqb_refl.
  destruct (is_quote_cases q H) as [-> | ->]; reflexivity.
Qed.

Lemma stripComments_inside q body rest :
  is_quote q = true -> inside q body ->
  stripComments (InString q false) (body ++ q :: rest)
  = body ++ q :: stripComments Code rest.
Proof.
  intros Hq [H1 H2]. induction body as [|c body IH].
  - cbn [app stripComments]. rewrite inString_close by exact Hq. reflexivity.
  - cbn [app stripComments]. rewrite inString_inside.
    + f_equal. apply IH; intros H; [apply H1 | apply H2]; right; exact H.
    + intros ->. apply H1. left. reflexivity.
    + intros ->. apply H2. left. reflexivity.
Qed.

Lemma stripComments_line body :
  ~ In LF body ->
  stripComments LineComment body = [LF]
  /\ forall rest,
       stripComments LineComment (body ++ LF :: rest)
       = LF :: stripComments Code rest.
Proof.
  intros H. induction body as [|c body IH].
  - split; [reflexivity|]. intros rest. cbn [app stripComments].
    rewrite N.eqb_refl. reflexivity.
  - assert (Hc : (c =? LF)%N = false)
      by (apply N.eqb_neq; intros ->; apply H; left; reflexivity).
    cbn [app stripComments]. rewrite Hc.
    apply IH. intros Hin. apply H. right. exact Hin.
Qed.

Lemma stripComments_block body rest :
  unclosed body ->
  stripComments BlockComment (body ++ 42%N :: 47%N :: rest)
  = stripComments Code rest.
Proof.
  intros H. induction body as [|c body IH]; [reflexivity|].
  cbn [app stripComments].
  assert (E : (c =? 42)%N && next_is 47 (body ++ 42%N :: 47%N :: rest)
              = false).
  { destruct (c =? 42)%N eqn:Ec; [|reflexivity]. apply N.eqb_eq in Ec.
    subst c. destruct body as [|d body]; [reflexivity|].
    cbn [app next_is andb]. apply N.eqb_neq. intros ->.
    apply (H [] body). reflexivity. }
  rewrite E. apply IH. intros a b Hab. apply (H (c :: a) b).
  rewrite Hab. reflexivity.
Qed.

(** X16: what [stripJsonWithComments] does with each part of a text.
    Code that holds no quote and no slash is copied; a string literal
    without backslash is copied whole, slashes included; a line comment
    is replaced by a line feed, also when the text ends in it without
    one; and a block comment is removed up to the first end of comment
    after it, nothing being put in its place. *)
Theorem comments_removed :
  (forall pre rest,
      bare pre ->
      stripJsonWithComments (pre ++ rest) = pre ++ stripJsonWithComments rest)
  /\ (forall q body rest,
        is_quote q = true -> inside q body ->
        stripJsonWithComments (q :: body ++ q :: rest)
        = q :: body ++ q :: stripJsonWithComments rest)
  /\ (forall body rest,
        ~ In LF body ->
        stripJsonWithComments (lit "//" ++ body ++ LF :: rest)
        = LF :: stripJsonWithComments rest)
  /\ (forall body,
        ~ In LF body -> stripJsonWithComments (lit "//" ++ body) = [LF])
  /\ (forall body rest,
        unclosed body ->
        stripJsonWithComments (lit "/*" ++ body ++ lit "*/" ++ rest)
        = stripJsonWithComments rest).
Proof.
  unfold stripJsonWithComments. repeat split.
  - intros pre rest. apply stripComments_bare.
  - intros q body rest Hq Hb. cbn [stripComments]. rewrite Hq.
    f_equal. apply stripComments_inside; assumption.
  - intros body rest Hb. apply (stripComments_line body Hb).
  - intros body Hb. apply (stripComments_line body Hb).
  - intros body rest Hb. apply (stripComments_block body rest Hb).
Qed.

Lemma space_is_bare c :
  is_space c = true -> is_quote c = false /\ (c =? 44)%N = false /\ c <> 47%N.
Proof.
  intros H. repeat split.
  - destruct (is_quote c) eqn:E; [|reflexivity].
    destruct (is_quote_cases c E) as [-> | ->]; discriminate H.
  - apply N.eqb_neq. intros ->. discriminate H.
  - intros ->. discriminate H.
Qed.

Lemma closer_is_bare c :
  ((c =? 125) || (c =? 93))%N = true ->
  is_quote c = false /\ (c =? 44)%N = false /\ c <> 47%N /\ is_space c = false.
Proof.
  intros H. apply orb_true_iff in H as [H|H]; apply N.eqb_eq in H; subst c;
    repeat split; discriminate.
Qed.

Lemma stripCommas_copy q e pre rest :
  Forall (fun c => is_quote c = false /\ (c =? 44)%N = false) pre ->
  stripCommas true q e (pre ++ rest) = pre ++ stripCommas true q e rest.
Proof.
  induction 1 as [|c pre [H1 H2] _ IH]; [reflexivity|].
  cbn [app stripCommas]. rewrite H1, H2. cbn [andb]. f_equal. exact IH.
Qed.

Lemma stripCommas_inside q body rest :
  is_quote q = true -> inside q body ->
  stripCommas false q false (body ++ q :: rest)
  = body ++ q :: stripCommas true 0%N false rest.
Proof.
  intros Hq [H1 H2]. induction body as [|c body IH].
  - cbn [app stripCommas]. rewrite inString_close by exact Hq. reflexivity.
  - cbn [app stripCommas]. rewrite inString_inside.
    + f_equal. apply IH; intros H; [apply H1 | apply H2]; right; exact H.
    + intros ->. apply H1. left. reflexivity.
    + intros ->. apply H2. left. reflexivity.
Qed.

Lemma trimStart_spaces ws rest :
  Forall (fun c => is_space c = true) ws ->
  trimStart (ws ++ rest) = trimStart rest.
Proof.
  induction 1 as [|c ws Hc _ IH]; [reflexivity|].
  cbn [app trimStart]. rewrite Hc. exact IH.
Qed.

Lemma closes_after ws c rest :
  Forall (fun c => is_space c = true) ws -> is_space c = false ->
  closes (ws ++ c :: rest) = ((c =? 125) || (c =? 93))%N.
Proof.
  intros Hws Hc. unfold closes. rewrite trimStart_spaces by exact Hws.
  cbn [trimStart]. rewrite Hc. reflexivity.
Qed.

Lemma spaces_copied ws :
  Forall (fun c => is_space c = true) ws ->
  Forall (fun c => is_quote c = false /\ (c =? 44)%N = false) ws.
Proof.
  intros H. eapply Forall_impl; [exact H|].
  intros c Hc. destruct (space_is_bare c Hc) as (H1 & H2 & _). auto.
Qed.

Lemma stripCommas_comma q e s :
  stripCommas true q e (44%N :: s)
  = if closes s then stripCommas true q e s
    else 44%N :: stripCommas true q e s.
Proof. reflexivity. Qed.

(** Within a string literal the code units are copied, the one after a
    backslash whatever it is. *)
Lemma stripCommas_literal q body rest :
  is_quote q = true -> literalBody q body ->
  stripCommas false q false (body ++ q :: rest)
  = body ++ q :: stripCommas true 0%N false rest.
Proof.
  intros Hq Hb. induction Hb as [|c body H1 H2 Hb IH|c body Hb IH].
  - cbn [app stripCommas]. rewrite inString_close by exact Hq. reflexivity.
  - cbn [app stripCommas]. rewrite inString_inside by assumption.
    f_equal. exact IH.
  - cbn [app stripCommas]. unfold inString at 1. cbn [N.eqb Pos.eqb].
    f_equal. unfold inString at 1. f_equal. exact IH.
Qed.

Lemma stripComments_literal q body rest :
  is_quote q = true -> literalBody q body ->
  stripComments (InString q false) (body ++ q :: rest)
  = body ++ q :: stripComments Code rest.
Proof.
  intros Hq Hb. induction Hb as [|c body H1 H2 Hb IH|c body Hb IH].
  - cbn [app stripComments]. rewrite inString_close by exact Hq. reflexivity.
  - cbn [app stripComments]. rewrite inString_inside by assumption.
    f_equal. exact IH.
  - cbn [app stripComments]. unfold inString at 1. cbn [N.eqb Pos.eqb].
    f_equal. unfold inString at 1. f_equal. exact IH.
Qed.

(** Code without slash and whole string literals hold no comment. *)
Lemma stripComments_whole pre rest :
  wholeLiterals no_slash pre ->
  stripComments Code (pre ++ rest) = pre ++ stripComments Code rest.
Proof.
  induction 1 as [|c s Hq Hc _ IH|q body s Hq Hb _ IH].
  - reflexivity.
  - cbn [app stripComments]. rewrite Hq.
    unfold no_slash in Hc. apply negb_true_iff in Hc. rewrite Hc.
    cbn [andb]. f_equal. exact IH.
  - cbn [app stripComments]. rewrite Hq. f_equal.
    rewrite <- List.app_assoc. cbn [app].
    rewrite stripComments_literal by assumption.
    rewrite <- List.app_assoc. cbn [app]. do 2 f_equal. exact IH.
Qed.

(** What follows a comma does not tell whether an earlier comma is
    followed by a closing brace or bracket. *)
Lemma closes_before_comma s tail :
  closes (s ++ 44%N :: tail) = closes (s ++ [44%N]).
Proof.
  unfold closes. induction s as [|c s IH]; [reflexivity|].
  cbn [app trimStart]. destruct (is_space c); [exact IH | reflexivity].
Qed.

(** The text that a prefix ending outside the string literals gives
    does not depend on what follows the comma after it. *)
Lemma stripCommas_before_comma code pre :
  wholeLiterals code pre ->
  exists out, forall tail,
    stripCommas true 0%N false (pre ++ 44%N :: tail)
    = out ++ stripCommas true 0%N false (44%N :: tail).
Proof.
  induction 1 as [|c s Hq Hc _ [out IH]|q body s Hq Hb _ [out IH]].
  - exists []. reflexivity.
  - destruct (c =? 44)%N eqn:Ec.
    + exists ((if closes (s ++ [44%N]) then [] else [c]) ++ out).
      intros tail. cbn [app]. unfold stripCommas at 1. fold stripCommas.
      rewrite Hq, Ec. cbn [andb].
      rewrite closes_before_comma, IH.
      destruct (closes (s ++ [44%N])); reflexivity.
    + exists (c :: out). intros tail. cbn [app].
      unfold stripCommas at 1. fold stripCommas.
      rewrite Hq, Ec. cbn [andb]. rewrite IH. reflexivity.
  - exists (q :: body ++ q :: out). intros tail. cbn [app].
    unfold stripCommas at 1. fold stripCommas. rewrite Hq. f_equal.
    rewrite <- List.app_assoc. cbn [app].
    rewrite stripCommas_literal by assumption.
    rewrite <- List.app_assoc. cbn [app]. do 2 f_equal. apply IH.
Qed.

Lemma stripCommas_decides ws c rest :
  Forall (fun c => is_space c = true) ws -> is_space c = false ->
  stripCommas true 0%N false (44%N :: ws ++ c :: rest)
  = (if is_closer c then [] else [44%N])
      ++ stripCommas true 0%N false (ws ++ c :: rest).
Proof.
  intros Hws Hc. rewrite stripCommas_comma, closes_after by assumption.
  unfold is_closer. destruct ((c =? 125) || (c =? 93))%N; reflexivity.
Qed.

(** X17: which commas [stripTrailingCommas] removes.  Outside string
    literals, a comma is dropped exactly when the first code unit after
    it that is not white space is a closing brace or bracket; a comma
    followed by anything else, or by nothing but white space, stays, as
    does every comma of a string literal.  This holds for a comma
    anywhere in the text: after a prefix made of code and of whole
    string literals, escapes included, the text before the comma comes
    out the same whatever follows the comma, then the comma or nothing,
    then what the rest gives on its own; code without quote and comma
    is copied.  So of two commas before a closing bracket only the
    second goes. *)
Theorem trailing_commas_removed :
  (forall ws c rest,
      Forall (fun c => is_space c = true) ws -> is_space c = false ->
      stripTrailingCommas (lit "," ++ ws ++ c :: rest)
      = (if ((c =? 125) || (c =? 93))%N then [] else lit ",")
          ++ stripTrailingCommas (ws ++ c :: rest))
  /\ (forall ws,
        Forall (fun c => is_space c = true) ws ->
        stripTrailingCommas (lit "," ++ ws) = lit "," ++ ws)
  /\ (forall q body rest,
        is_quote q = true -> inside q body ->
        stripTrailingCommas (q :: body ++ q :: rest)
        = q :: body ++ q :: stripTrailingCommas rest)
  /\ (forall ws rest,
        Forall (fun c => is_space c = true) ws ->
        stripTrailingCommas (lit ",," ++ ws ++ lit "]" ++ rest)
        = lit "," ++ ws ++ lit "]" ++ stripTrailingCommas rest)
  /\ (forall pre,
        wholeLiterals any pre ->
        exists out,
          stripTrailingCommas (pre ++ lit ",") = out ++ lit ","
          /\ forall ws c rest,
               Forall (fun c => is_space c = true) ws -> is_space c = false ->
               stripTrailingCommas (pre ++ lit "," ++ ws ++ c :: rest)
               = out ++ (if ((c =? 125) || (c =? 93))%N then [] else lit ",")
                   ++ stripTrailingCommas (ws ++ c :: rest))
  /\ (forall pre rest,
        Forall (fun c => is_quote c = false /\ (c =? 44)%N = false) pre ->
        stripTrailingCommas (pre ++ rest) = pre ++ stripTrailingCommas rest)
  /\ (forall q body rest,
        is_quote q = true -> literalBody q body ->
        stripTrailingCommas (q :: body ++ q :: rest)
        = q :: body ++ q :: stripTrailingCommas rest).
Proof.
  unfold stripTrailingCommas.
  split; [|split; [|split; [|split; [|split; [|split]]]]].
  - intros ws c rest Hws Hc.
    change (lit ",") with [44%N]. cbn [app].
    rewrite stripCommas_comma, closes_after by assumption.
    destruct ((c =? 125) || (c =? 93))%N; reflexivity.
  - intros ws Hws. change (lit ",") with [44%N]. cbn [app].
    rewrite stripCommas_comma.
    assert (E : closes ws = false).
    { unfold closes. rewrite <- (List.app_nil_r ws) at 1.
      rewrite trimStart_spaces by exact Hws. reflexivity. }
    rewrite E. f_equal.
    rewrite <- (List.app_nil_r ws) at 1.
    rewrite stripCommas_copy by (apply spaces_copied, Hws).
    apply List.app_nil_r.
  - intros q body rest Hq Hb. cbn [stripCommas]. rewrite Hq.
    f_equal. apply stripCommas_inside; assumption.
  - intros ws rest Hws. change (lit ",,") with [44%N; 44%N].
    change (lit ",") with [44%N]. change (lit "]") with [93%N].
    cbn [app]. rewrite stripCommas_comma.
    change (closes (44%N :: ws ++ 93%N :: rest)) with false. cbv iota.
    rewrite stripCommas_comma, closes_after by (exact Hws || reflexivity).
    cbn [N.eqb orb]. cbv iota. f_equal.
    rewrite stripCommas_copy by (apply spaces_copied, Hws).
    reflexivity.
  - intros pre Hpre.
    destruct (stripCommas_before_comma any pre Hpre) as [out Hout].
    exists out. change (lit ",") with [44%N]. split.
    + rewrite (Hout []). reflexivity.
    + intros ws c rest Hws Hc. cbn [app].
      rewrite Hout, stripCommas_decides by assumption. reflexivity.
  - intros pre rest. apply stripCommas_copy.
  - intros q body rest Hq Hb. cbn [stripCommas]. rewrite Hq.
    f_equal. apply stripCommas_literal; assumption.
Qed.

(** A line comment between a comma and the closing brace or bracket. *)
Lemma comment_stripped ws1 body ws2 rest c :
  Forall (fun c => is_space c = true) ws1 ->
  Forall (fun c => is_space c = true) ws2 ->
  ~ In LF body ->
  ((c =? 125) || (c =? 93))%N = true ->
  stripComments Code
    (lit "," ++ ws1 ++ lit "//" ++ body ++ LF :: ws2 ++ c :: rest)
  = 44%N :: ws1 ++ LF :: ws2 ++ c :: stripComments Code rest.
Proof.
  intros H1 H2 Hb Hc.
  destruct (closer_is_bare c Hc) as (Hq & Hm & Hs & Hsp).
  assert (Hbare : forall ws tail,
             Forall (fun c => is_space c = true) ws ->
             stripComments Code (ws ++ tail) = ws ++ stripComments Code tail).
  { intros ws tail Hws. apply stripComments_bare.
    repeat split; intros Hin;
      apply (proj1 (List.Forall_forall _ _) Hws) in Hin; discriminate Hin. }
  change (lit ",") with [44%N]. cbn [app].
  change (stripComments Code (44%N :: ?x)) with (44%N :: stripComments Code x).
  rewrite Hbare by exact H1.
  change (lit "//") with [47%N; 47%N]. cbn [app].
  change (stripComments Code (47%N :: 47%N :: ?x))
    with (stripComments LineComment x).
  rewrite (proj2 (stripComments_line body Hb)).
  rewrite Hbare by exact H2.
  cbn [stripComments]. rewrite Hq.
  replace (c =? 47)%N with false
    by (symmetry; apply N.eqb_neq; exact Hs).
  reflexivity.
Qed.

(** A comma with only white space before the closing brace or bracket
    is dropped. *)
Lemma comma_dropped ws1 ws2 R c :
  Forall (fun c => is_space c = true) ws1 ->
  Forall (fun c => is_space c = true) ws2 ->
  ((c =? 125) || (c =? 93))%N = true ->
  stripCommas true 0%N false (44%N :: ws1 ++ LF :: ws2 ++ c :: R)
  = ws1 ++ LF :: ws2 ++ c :: stripCommas true 0%N false R.
Proof.
  intros H1 H2 Hc.
  destruct (closer_is_bare c Hc) as (Hq & Hm & Hs & Hsp).
  rewrite stripCommas_comma.
  assert (Hcl : closes (ws1 ++ LF :: ws2 ++ c :: R) = true).
  { change (ws1 ++ LF :: ws2 ++ c :: R)
      with (ws1 ++ [LF] ++ ws2 ++ c :: R).
    rewrite !List.app_assoc, <- (List.app_assoc ws1).
    rewrite closes_after; [exact Hc | | exact Hsp].
    apply Forall_app. split; [exact H1|].
    apply Forall_app. split; [repeat constructor | exact H2]. }
  rewrite Hcl.
  rewrite stripCommas_copy by (apply spaces_copied, H1).
  f_equal.
  change (stripCommas true 0%N false (LF :: ?x))
    with (LF :: stripCommas true 0%N false x).
  f_equal.
  rewrite stripCommas_copy by (apply spaces_copied, H2).
  f_equal. cbn [stripCommas]. rewrite Hq, Hm. reflexivity.
Qed.

(** X18: a trailing comma is found behind a comment.  In the text that
    [zedDefaultMode] hands to the parser the comments are removed before
    the commas, so a comma followed by white space, a line comment and a
    closing brace or bracket on a later line is removed with the
    comment: what stays is the white space, the line feed and the
    closing brace or bracket.  This holds at the start of the text and
    after any prefix made of code without slash and of whole string
    literals, such as the entries of an object: the prefix comes out as
    it does in front of a comma at the end of the text. *)
Theorem trailing_comma_before_comment (ws1 body ws2 rest : jsstring) (c : N) :
  Forall (fun c => is_space c = true) ws1 ->
  Forall (fun c => is_space c = true) ws2 ->
  ~ In LF body ->
  ((c =? 125) || (c =? 93))%N = true ->
  cleaned (lit "," ++ ws1 ++ lit "//" ++ body ++ LF :: ws2 ++ c :: rest)
  = ws1 ++ LF :: ws2 ++ c :: cleaned rest
  /\ forall pre,
       wholeLiterals no_slash pre ->
       exists out,
         cleaned (pre ++ lit ",") = out ++ lit ","
         /\ cleaned (pre ++ lit "," ++ ws1 ++ lit "//" ++ body
                         ++ LF :: ws2 ++ c :: rest)
            = out ++ ws1 ++ LF :: ws2 ++ c :: cleaned rest.
Proof.
  intros H1 H2 Hb Hc. unfold cleaned, stripJsonWithComments.
  pose proof (comment_stripped ws1 body ws2 rest c H1 H2 Hb Hc) as Hstrip.
  split.
  - rewrite Hstrip. apply comma_dropped; assumption.
  - intros pre Hpre.
    destruct (stripCommas_before_comma no_slash pre Hpre) as [out Hout].
    exists out. rewrite !stripComments_whole by exact Hpre.
    rewrite Hstrip. unfold stripTrailingCommas. split.
    + change (stripComments Code (lit ",")) with [44%N].
      rewrite (Hout []). reflexivity.
    + rewrite Hout, comma_dropped by assumption. reflexivity.
Qed.

End SettingsText.

(** ** kiro.ts with an answer marker: what is emitted *)

Section MarkerAnswer.

Import KiroMarker Trace.

Lemma startsWith_length s n : startsWith s n = true -> length n <= length s.
Proof.
  revert s. induction n as [|c n IH]; intros s H; [cbn; lia|].
  destruct s as [|d s]; [discriminate H|].
  cbn [startsWith] in H. apply andb_prop in H as [_ H].
  apply IH in H. cbn [length]. lia.
Qed.

Lemma startsWith_app s n q :
  length n <= length s -> startsWith (s ++ q) n = startsWith s n.
Proof.
  revert s. induction n as [|c n IH]; intros s H;
    [destruct s, q; reflexivity|].
  destruct s as [|d s]; [cbn in H; lia|].
  cbn [app startsWith]. rewrite IH by (cbn [length] in H; lia). reflexivity.
Qed.

Lemma indexOf_from_app n p s q i :
  indexOf_from n p s = Some i ->
  indexOf_from n p (s ++ q) = Some i
  /\ p <= i /\ i + length n <= p + length s.
Proof.
  revert p. induction s as [|c s IH]; intros p H.
  - cbn [indexOf_from] in H. destruct (startsWith [] n) eqn:E; [|discriminate H].
    injection H as <-. apply startsWith_length in E as Hlen.
    destruct n; [|cbn in Hlen; lia].
    destruct q; repeat split; cbn; auto; lia.
  - cbn [indexOf_from] in H. destruct (startsWith (c :: s) n) eqn:E.
    + injection H as <-. apply startsWith_length in E as Hlen.
      split; [|lia]. cbn [app indexOf_from].
      change (c :: s ++ q) with ((c :: s) ++ q).
      rewrite startsWith_app, E by exact Hlen. reflexivity.
    + destruct (IH (S p) H) as (H1 & H2 & H3).
      split; [|cbn [length]; lia].
      cbn [app indexOf_from]. change (c :: s ++ q) with ((c :: s) ++ q).
      rewrite startsWith_app, E by (cbn [length]; lia). exact H1.
Qed.

(** A marker found in the transcript so far is the marker of the whole
    transcript. *)
Lemma markerPos_app p q m :
  markerPos p = Some m ->
  markerPos (p ++ q) = Some m /\ m + 2 <= length p.
Proof.
  unfold markerPos, indexOf. intros H.
  destruct (startsWith p (lit "> ")) eqn:E.
  - injection H as <-. apply startsWith_length in E as Hlen.
    change (length (lit "> ")) with 2 in Hlen.
    rewrite startsWith_app, E by exact Hlen. split; [reflexivity | lia].
  - destruct (indexOf_from (LF :: lit "> ") 0 p) as [idx|] eqn:Ei;
      [|discriminate H].
    injection H as <-.
    destruct (indexOf_from_app _ _ _ q _ Ei) as (H1 & _ & H2).
    change (length (LF :: lit "> ")) with 3 in H2.
    rewrite startsWith_app, E, H1
      by (change (length (lit "> ")) with 2; lia).
    split; [reflexivity | lia].
Qed.

Lemma processStdout_settled chunk isFinal st :
  ~ In ESC (rawCarry st ++ chunk) -> ~ In CSI (rawCarry st ++ chunk) ->
  settled st ->
  let r := processStdout chunk isFinal st in
  settled (snd r)
  /\ (isFinal = true -> rawCarry (snd r) = [])
  /\ (exists pre, rawCarry st ++ chunk = pre ++ rawCarry (snd r))
  /\ cleanStdout (snd r) ++ rawCarry (snd r)
     = cleanStdout st ++ rawCarry st ++ chunk
  /\ (if emitting st
      then emitting (snd r) = true
           /\ concat (fst r) ++ rawCarry (snd r) = rawCarry st ++ chunk
      else if emitting (snd r)
           then exists m, markerPos (cleanStdout (snd r)) = Some m
                          /\ concat (fst r) = drop (m + 2) (cleanStdout (snd r))
           else fst r = []).
Proof.
  intros He Hc Hst r. subst r. unfold processStdout.
  set (carry := rawCarry st ++ chunk) in *.
  set (k := if isFinal then length carry else length carry - CARRY_BYTES).
  assert (Hk : isFinal = true -> drop k carry = []).
  { intros ->. subst k. apply drop_all. }
  pose proof (take_drop k carry) as Hsplit.
  destruct (take k carry) as [|c raw] eqn:Er.
  - cbn [fst snd settled emitting cleanStdout emitCleanIndex rawCarry concat
         app].
    cbn [app] in Hsplit. rewrite Hsplit.
    split; [exact Hst|]. split; [intros H; rewrite <- Hsplit; apply Hk, H|].
    split; [exists []; reflexivity|].
    split; [reflexivity|].
    unfold settled in Hst. destruct (emitting st); auto.
  - assert (Hplain : stripAnsi (c :: raw) = c :: raw).
    { apply stripAnsi_plain; intros H; [apply He | apply Hc];
        rewrite <- Hsplit; apply in_or_app; left; exact H. }
    rewrite Hplain. set (clean := cleanStdout st ++ c :: raw).
    assert (Hclean : clean ++ drop k carry = cleanStdout st ++ carry).
    { subst clean. rewrite <- List.app_assoc, Hsplit. reflexivity. }
    assert (Hpre : exists pre, carry = pre ++ drop k carry)
      by (exists (c :: raw); symmetry; exact Hsplit).
    unfold settled in Hst. destruct (emitting st) eqn:Em.
    + assert (Hnext : drop (emitCleanIndex st) clean = c :: raw).
      { subst clean. rewrite Hst, drop_app_length. reflexivity. }
      rewrite Hnext.
      cbn [fst snd settled emitting cleanStdout emitCleanIndex rawCarry].
      split; [reflexivity|]. split; [exact Hk|]. split; [exact Hpre|].
      split; [exact Hclean|]. split; [reflexivity|].
      cbn [concat]. rewrite List.app_nil_r. exact Hsplit.
    + destruct (markerPos clean) as [m|] eqn:Emark.
      * cbn [fst snd settled emitting cleanStdout emitCleanIndex rawCarry].
        split; [reflexivity|]. split; [exact Hk|]. split; [exact Hpre|].
        split; [exact Hclean|].
        exists m. split; [exact Emark|].
        destruct (drop (m + 2) clean); [reflexivity|].
        cbn [concat]. apply List.app_nil_r.
      * cbn [fst snd settled emitting cleanStdout emitCleanIndex rawCarry].
        split; [exact Emark|]. split; [exact Hk|]. split; [exact Hpre|].
        split; [exact Hclean|]. reflexivity.
Qed.

Lemma answer_marked p q m :
  markerPos p = Some m -> answer (p ++ q) = drop (m + 2) p ++ q.
Proof.
  intros H. destruct (markerPos_app p q m H) as [H1 H2].
  unfold answer. rewrite H1. apply drop_app_le. exact H2.
Qed.

Lemma run_answer chunks st :
  ~ In ESC (rawCarry st ++ concat chunks) ->
  ~ In CSI (rawCarry st ++ concat chunks) ->
  settled st ->
  concat (run chunks st)
  = if emitting st then rawCarry st ++ concat chunks
    else answer (cleanStdout st ++ rawCarry st ++ concat chunks).
Proof.
  revert st. induction chunks as [|chunk chunks IH]; intros st He Hc Hst.
  - cbn [run concat] in He, Hc |- *. unfold onClose.
    destruct (processStdout_settled [] true st He Hc Hst)
      as (H1 & H2 & _ & H3 & H4).
    destruct (processStdout [] true st) as [events st'].
    cbn [fst snd] in H1, H2, H3, H4. specialize (H2 eq_refl).
    rewrite H2, List.app_nil_r in H3. rewrite H2 in H4.
    destruct (emitting st) eqn:Em.
    + destruct H4 as [-> H4]. cbn [fst]. rewrite List.app_nil_r in H4.
      exact H4.
    + rewrite <- H3. unfold settled in H1. destruct (emitting st') eqn:Em'.
      * destruct H4 as (m & Hm & H4). cbn [fst]. rewrite H4.
        unfold answer. rewrite Hm. reflexivity.
      * subst events. unfold answer. rewrite H1.
        destruct (trim (trimEnd (cleanStdout st'))); cbn [fst app concat];
          [reflexivity | apply List.app_nil_r].
  - cbn [run concat] in He, Hc |- *.
    assert (He1 : ~ In ESC (rawCarry st ++ chunk)).
    { intros H. apply He. rewrite List.app_assoc. apply in_or_app. auto. }
    assert (Hc1 : ~ In CSI (rawCarry st ++ chunk)).
    { intros H. apply Hc. rewrite List.app_assoc. apply in_or_app. auto. }
    destruct (processStdout_settled chunk false st He1 Hc1 Hst)
      as (H1 & _ & (pre & Hpre) & H3 & H4).
    destruct (processStdout chunk false st) as [events st'].
    cbn [fst snd] in H1, Hpre, H3, H4.
    assert (Hall : forall x, ~ In x (rawCarry st ++ chunk ++ concat chunks) ->
                             ~ In x (rawCarry st' ++ concat chunks)).
    { intros x Hx Hin. apply Hx.
      rewrite List.app_assoc, Hpre, <- List.app_assoc.
      apply in_or_app. right. exact Hin. }
    rewrite List.concat_app, (IH st' (Hall _ He) (Hall _ Hc) H1).
    destruct (emitting st) eqn:Em.
    + destruct H4 as [-> H4].
      rewrite List.app_assoc, H4, <- List.app_assoc. reflexivity.
    + replace (cleanStdout st ++ rawCarry st ++ chunk ++ concat chunks)
        with (cleanStdout st' ++ rawCarry st' ++ concat chunks)
        by (rewrite (List.app_assoc (cleanStdout st')), H3,
              <- !List.app_assoc; reflexivity).
      destruct (emitting st') eqn:Em'.
      * destruct H4 as (m & Hm & ->).
        rewrite (answer_marked _ _ m Hm). reflexivity.
      * subst events. reflexivity.
Qed.

Lemma startsWith_split s n :
  startsWith s n = true -> exists b, s = n ++ b.
Proof.
  revert s. induction n as [|c n IH]; intros s H; [exists s; reflexivity|].
  destruct s as [|d s]; [discriminate H|].
  cbn [startsWith] in H. apply andb_prop in H as [Hc H].
  apply N.eqb_eq in Hc. subst d.
  destruct (IH s H) as [b ->]. exists b. reflexivity.
Qed.

Lemma startsWith_prefix n b : startsWith (n ++ b) n = true.
Proof.
  induction n as [|c n IH]; [destruct b; reflexivity|].
  cbn [app startsWith]. rewrite N.eqb_refl. exact IH.
Qed.

Lemma indexOf_from_found n p s i :
  indexOf_from n p s = Some i -> exists a b, s = a ++ n ++ b.
Proof.
  revert p. induction s as [|c s IH]; intros p H; cbn [indexOf_from] in H.
  - destruct (startsWith [] n) eqn:E; [|discriminate H].
    destruct (startsWith_split _ _ E) as [b Hb]. exists [], b. exact Hb.
  - destruct (startsWith (c :: s) n) eqn:E.
    + destruct (startsWith_split _ _ E) as [b Hb]. exists [], b. exact Hb.
    + destruct (IH _ H) as (a & b & ->). exists (c :: a), b. reflexivity.
Qed.

(** [indexOf] finds the first occurrence. *)
Lemma indexOf_from_first n p a b :
  (forall a' b', length a' < length a -> a ++ n ++ b <> a' ++ n ++ b') ->
  indexOf_from n p (a ++ n ++ b) = Some (p + length a).
Proof.
  revert p. induction a as [|c a IH]; intros p H.
  - cbn [app length]. rewrite Nat.add_0_r.
    destruct (n ++ b) eqn:E; cbn [indexOf_from]; rewrite <- E;
      rewrite startsWith_prefix; reflexivity.
  - cbn [app indexOf_from].
    destruct (startsWith (c :: a ++ n ++ b) n) eqn:E.
    + destruct (startsWith_split _ _ E) as [b' Hb].
      exfalso. apply (H [] b'); [cbn [length]; lia | exact Hb].
    + rewrite IH.
      * f_equal. cbn [length]. lia.
      * intros a' b' Hlen Heq. apply (H (c :: a') b').
        -- cbn [length]. lia.
        -- cbn [app]. rewrite Heq. reflexivity.
Qed.

(** A text without marker has no position of a marker. *)
Lemma unmarked_markerPos s : unmarked s -> markerPos s = None.
Proof.
  intros [H1 H2]. unfold markerPos, indexOf.
  destruct (startsWith s (lit "> ")) eqn:E.
  { destruct (startsWith_split _ _ E) as [b Hb]. destruct (H1 b Hb). }
  destruct (indexOf_from (LF :: lit "> ") 0 s) as [idx|] eqn:Ei;
    [|reflexivity].
  destruct (indexOf_from_found _ _ _ _ Ei) as (a & b & Hab).
  destruct (H2 a b). exact Hab.
Qed.

(** The marker that follows whole lines without marker is the first. *)
Lemma markerPos_first pre body :
  wholeLines pre -> unmarked pre ->
  markerPos (pre ++ lit "> " ++ body) = Some (length pre).
Proof.
  intros [-> | [l ->]] [H1 H2].
  - unfold markerPos. cbn [app]. rewrite startsWith_prefix. reflexivity.
  - unfold markerPos, indexOf.
    change (lit "> ") with [62%N; 32%N] in *.
    destruct (startsWith ((l ++ [LF]) ++ [62%N; 32%N] ++ body) [62%N; 32%N])
      eqn:E.
    { exfalso. destruct (startsWith_split _ _ E) as [b Hb].
      destruct l as [|x [|y l]]; cbn [app] in Hb.
      - discriminate Hb.
      - injection Hb as _ Hb _. discriminate Hb.
      - injection Hb as -> -> _. apply (H1 (l ++ [LF])). reflexivity. }
    replace ((l ++ [LF]) ++ [62%N; 32%N] ++ body)
      with (l ++ [LF; 62%N; 32%N] ++ body)
      by (rewrite <- List.app_assoc; reflexivity).
    rewrite indexOf_from_first.
    + rewrite length_app. cbn [length]. f_equal; lia.
    + intros a' b' Hlen Heq.
      assert (Hl : l = a' ++ drop (length a') l).
      { rewrite <- (take_drop (length a') l) at 1. f_equal.
        apply (f_equal (take (length a'))) in Heq.
        rewrite take_app_le in Heq by lia.
        rewrite take_app_length in Heq. exact Heq. }
      destruct (drop (length a') l) as [|d0 d] eqn:Ed.
      { rewrite List.app_nil_r in Hl.
        apply (f_equal (@length N)) in Hl. lia. }
      rewrite Hl, <- List.app_assoc in Heq.
      apply List.app_inv_head in Heq. cbn [app] in Heq.
      injection Heq as -> Heq.
      destruct d as [|d1 [|d2 d]]; cbn [app] in Heq.
      * discriminate Heq.
      * injection Heq as _ Heq _. discriminate Heq.
      * injection Heq as -> -> _.
        apply (H2 a' (d ++ [LF])). rewrite Hl at 1.
        rewrite <- List.app_assoc. reflexivity.
Qed.

Lemma answer_after_marker pre body :
  wholeLines pre -> unmarked pre ->
  answer (pre ++ lit "> " ++ body) = body.
Proof.
  intros Hw Hu. unfold answer. rewrite (markerPos_first pre body Hw Hu).
  rewrite List.app_assoc.
  replace (length pre + 2) with (length (pre ++ lit "> "))
    by (rewrite length_app; reflexivity).
  apply drop_app_length.
Qed.

Lemma trimStart_stops s : stops is_space s -> trimStart s = s.
Proof.
  destruct s as [|c s]; [reflexivity|]. cbn [stops trimStart].
  intros ->. reflexivity.
Qed.

Lemma trimEnd_spaces t ws :
  Forall (fun c => is_space c = true) ws -> stops is_space (rev t) ->
  trimEnd (t ++ ws) = t.
Proof.
  intros Hws Ht. unfold trimEnd. rewrite rev_app_distr.
  rewrite trimStart_spaces by (apply List.Forall_rev, Hws).
  rewrite trimStart_stops by exact Ht. apply rev_involutive.
Qed.

Lemma trimStart_last t x :
  is_space x = false -> exists u, trimStart (t ++ [x]) = u ++ [x].
Proof.
  intros Hx. induction t as [|c t IH].
  - exists []. cbn [app trimStart]. rewrite Hx. reflexivity.
  - cbn [app trimStart]. destruct (is_space c); [exact IH|].
    exists (c :: t). reflexivity.
Qed.

Lemma trim_nonempty t :
  t <> [] -> stops is_space (rev t) -> trim t <> [].
Proof.
  intros Hne Ht.
  destruct t as [|c t _] using rev_ind; [congruence|].
  rewrite rev_app_distr in Ht. cbn [rev app stops] in Ht.
  destruct (trimStart_last t c Ht) as [u Hu].
  unfold trim. rewrite Hu.
  rewrite <- (List.app_nil_r (u ++ [c])).
  rewrite trimEnd_spaces.
  - intros E. destruct u; discriminate E.
  - constructor.
  - rewrite rev_app_distr. exact Ht.
Qed.

Lemma answer_unmarked t ws :
  unmarked (t ++ ws) ->
  Forall (fun c => is_space c = true) ws -> stops is_space (rev t) ->
  answer (t ++ ws) = t.
Proof.
  intros Hu Hws Ht. unfold answer.
  rewrite (unmarked_markerPos _ Hu), trimEnd_spaces by assumption.
  destruct t as [|c t]; [reflexivity|].
  destruct (trim (c :: t)) eqn:E; [|reflexivity].
  exfalso. apply (trim_nonempty (c :: t)); [discriminate | exact Ht | exact E].
Qed.

(** X19: with the answer marker, the events are the answer.  When the
    standard output holds no escape introducer, the texts of the chunk
    events of the run, put end to end, are what follows the first answer
    marker of the whole output, a marker being the two code units [> ]
    at the start of the output or right after a line feed: if whole
    lines without marker come before the marker, the events are exactly
    the text after it.  Without a marker they are the output without
    the white space at its end, which is nothing when the output is all
    white space.  So the events do not depend on how the output was
    delivered. *)
Theorem marker_stream_answer (chunks : list jsstring) :
  ~ In ESC (concat chunks) -> ~ In CSI (concat chunks) ->
  (forall pre body,
      concat chunks = pre ++ lit "> " ++ body ->
      wholeLines pre -> unmarked pre ->
      concat (run chunks initial) = body)
  /\ (forall t ws,
        concat chunks = t ++ ws -> unmarked (concat chunks) ->
        Forall (fun c => is_space c = true) ws -> stops is_space (rev t) ->
        concat (run chunks initial) = t)
  /\ (forall chunks',
        concat chunks' = concat chunks ->
        concat (run chunks' initial) = concat (run chunks initial)).
Proof.
  intros He Hc.
  assert (H : forall l, concat l = concat chunks ->
                        concat (run l initial) = answer (concat chunks)).
  { intros l Hl. rewrite <- Hl in He, Hc |- *.
    rewrite run_answer; [reflexivity | exact He | exact Hc |]. reflexivity. }
  rewrite (H chunks eq_refl). split; [|split].
  - intros pre body -> Hw Hu. apply answer_after_marker; assumption.
  - intros t ws Heq Hu Hws Ht. rewrite Heq in Hu |- *.
    apply answer_unmarked; assumption.
  - intros chunks' Heq. apply H, Heq.
Qed.

End MarkerAnswer.


(** ** The announcement of a tool call *)

Section Announcement.

Import Agent Stream Trace.

Variable now : N -> N.

Lemma rmatch_chr_hit (cls : N -> bool) p c s cs :
  cls c = true ->
  rmatch (Chr cls) (MState p (c :: s) cs) = [MState (S p) s cs].
Proof. intros H. cbn [rmatch rest]. rewrite H. reflexivity. Qed.

Lemma rmatch_text s p r cs :
  rmatch (text s) (MState p (s ++ r) cs) = [MState (p + length s) r cs].
Proof.
  revert p. induction s as [|c s IH]; intros p.
  - cbn. rewrite Nat.add_0_r. reflexivity.
  - destruct s as [|d s].
    + cbn [text chr rmatch rest app]. rewrite N.eqb_refl.
      cbn [length advance pos caps]. rewrite Nat.add_1_r. reflexivity.
    + change (text (c :: d :: s)) with (Seq (chr c) (text (d :: s))).
      rewrite rmatch_seq. unfold chr at 1. cbn [app].
      rewrite rmatch_chr_hit by apply N.eqb_refl.
      cbn [flat_map]. rewrite List.app_nil_r.
      change (d :: s ++ r) with ((d :: s) ++ r). rewrite IH.
      cbn [length]. do 2 f_equal. lia.
Qed.

Lemma reject_text c s p d r cs :
  c <> d -> rmatch (text (c :: s)) (MState p (d :: r) cs) = [].
Proof.
  intros H. apply N.eqb_neq in H.
  destruct s as [|e s].
  - cbn [text chr rmatch rest]. rewrite H. reflexivity.
  - change (text (c :: e :: s)) with (Seq (chr c) (text (e :: s))).
    cbn [rmatch chr rest]. rewrite H. reflexivity.
Qed.

(** A lazy star over a class offers every run of code units of the
    class, the shortest first. *)
Lemma iterate_lazy_class (cls : N -> bool) fuel p (pre s : jsstring) cs :
  Forall (fun c => cls c = true) pre -> stops cls s ->
  length (pre ++ s) < fuel ->
  iterate (rmatch (Chr cls)) false fuel (MState p (pre ++ s) cs)
  = List.map (fun k => MState (p + k) (drop k pre ++ s) cs)
             (seq 0 (S (length pre))).
Proof.
  intros Hpre Hs. revert fuel p.
  induction Hpre as [|c pre Hc Hpre IH]; intros fuel p Hf;
    (destruct fuel as [|fuel]; [lia|]).
  - cbn [iterate app length seq List.map drop].
    rewrite reject_chr by exact Hs. cbn [flat_map].
    rewrite Nat.add_0_r. reflexivity.
  - cbn [iterate app]. rewrite rmatch_chr_hit by exact Hc.
    cbn [flat_map rest length].
    replace (length (pre ++ s) <? S (length (pre ++ s))) with true
      by (symmetry; apply Nat.ltb_lt; lia).
    rewrite List.app_nil_r, IH by (cbn [app length] in Hf; lia).
    change (seq 0 (S (S (length pre)))) with (0 :: seq 1 (S (length pre))).
    rewrite <- (seq_shift (S (length pre)) 0).
    cbn [List.map drop]. rewrite List.map_map, Nat.add_0_r. f_equal.
    apply List.map_ext. intros k. cbn [drop]. f_equal. lia.
Qed.

(** What a star over a class leaves is the text without some code units
    of the class at its start. *)
Lemma iterate_class_rest (cls : N -> bool) g fuel st st' :
  In st' (iterate (rmatch (Chr cls)) g fuel st) ->
  exists pre, rest st = pre ++ rest st'
              /\ Forall (fun c => cls c = true) pre.
Proof.
  revert st. induction fuel as [|fuel IH]; intros st H.
  - destruct H as [<-|[]]. exists []. split; [reflexivity | constructor].
  - cbn [iterate] in H.
    assert (Hmore : In st' (flat_map
                      (fun st1 => if length (rest st1) <? length (rest st)
                                  then iterate (rmatch (Chr cls)) g fuel st1
                                  else [])
                      (rmatch (Chr cls) st)) ->
                    exists pre, rest st = pre ++ rest st'
                                /\ Forall (fun c => cls c = true) pre).
    { intros Hin. apply in_flat_map in Hin as (st1 & H1 & H2).
      cbn [rmatch] in H1. destruct (rest st) as [|c s'] eqn:Er; [destruct H1|].
      destruct (cls c) eqn:Ec; [|destruct H1]. destruct H1 as [<-|[]].
      destruct (_ <? _); [|destruct H2].
      destruct (IH _ H2) as (pre & E & Hpre). cbn [advance rest] in E.
      exists (c :: pre). split; [rewrite E; reflexivity|].
      constructor; assumption. }
    assert (Hself : exists pre, rest st = pre ++ rest st
                                /\ Forall (fun c => cls c = true) pre)
      by (exists []; split; [reflexivity | constructor]).
    destruct g.
    + apply in_app_or in H as [H|[<-|[]]]; auto.
    + destruct H as [<-|H]; auto.
Qed.

Lemma prefer_seq_later r1 r2 st l1 x l2 z :
  rmatch r1 st = l1 ++ x :: l2 ->
  Forall (fun y => rmatch r2 y = []) l1 ->
  head (rmatch r2 x) = Some z ->
  head (rmatch (Seq r1 r2) st) = Some z.
Proof.
  intros E Hl1 Hx. cbn [rmatch]. rewrite E. clear E.
  induction Hl1 as [|y l1 Hy _ IH].
  - cbn [app flat_map]. apply head_app_some, Hx.
  - cbn [app flat_map]. rewrite Hy. exact IH.
Qed.

Lemma prefer_group i r st st' :
  head (rmatch r st) = Some st' ->
  head (rmatch (Group i r) st) = Some (capture i st st').
Proof.
  cbn [rmatch]. destruct (rmatch r st); [discriminate|].
  intros [= ->]. reflexivity.
Qed.

Lemma flat_map_nil {A B} (f : A -> list B) (l : list A) :
  Forall (fun a => f a = []) l -> flat_map f l = [].
Proof.
  induction 1 as [|a l Ha _ IH]; [reflexivity|].
  cbn [flat_map]. rewrite Ha, IH. reflexivity.
Qed.

Lemma stops_app (cls : N -> bool) (s r : jsstring) :
  s <> [] -> stops cls s -> stops cls (s ++ r).
Proof. destruct s; [congruence | auto]. Qed.

Lemma stops_rev_tail (cls : N -> bool) (x : N) (w : jsstring) :
  w <> [] -> stops cls (rev (x :: w)) -> stops cls (rev w).
Proof.
  intros Hw. cbn [rev]. destruct (rev w) as [|y l] eqn:E; [|auto].
  exfalso. apply Hw. rewrite <- (rev_involutive w), E. reflexivity.
Qed.

(** White space skipped at the start of a text that ends a word stops
    inside the word. *)
Lemma space_prefix_inside (w tl pre r : jsstring) :
  w <> [] -> stops is_space (rev w) -> Forall (fun c => c <> 40%N) w ->
  w ++ tl = pre ++ r -> Forall (fun c => is_space c = true) pre ->
  exists c r', r = c :: r' /\ c <> 40%N.
Proof.
  revert pre. induction w as [|x w IH]; intros pre Hw Hlast Hno E Hpre;
    [congruence|].
  inversion Hno as [|? ? Hx Hno']; subst.
  destruct pre as [|y pre].
  - exists x, (w ++ tl). split; [symmetry; exact E | exact Hx].
  - cbn [app] in E. injection E as <- E.
    inversion Hpre as [|? ? Hy Hpre']; subst.
    destruct w as [|x' w].
    + cbn in Hlast. congruence.
    + apply (IH pre); try assumption; [discriminate|].
      apply (stops_rev_tail _ x); [discriminate | exact Hlast].
Qed.

Lemma search_hit r p s st :
  match_at r p s = Some st -> search r p s = Some (p, st).
Proof. intros H. destruct s; cbn [search]; rewrite H; reflexivity. Qed.

Lemma trim_word s : word s -> trim s = s.
Proof.
  intros (_ & H1 & H2 & _). unfold trim, trimEnd.
  rewrite (trimStart_stops s H1), (trimStart_stops _ H2).
  apply rev_involutive.
Qed.

Lemma announcement_parts command name :
  announcement command name
  = lit "I will run the following command:"
      ++ 32%N :: command
      ++ 32%N :: lit "(using tool:" ++ 32%N :: name ++ [41%N].
Proof.
  unfold announcement.
  change (lit "I will run the following command: ")
    with (lit "I will run the following command:" ++ [32%N]).
  change (lit " (using tool: ") with (32%N :: lit "(using tool:" ++ [32%N]).
  change (lit ")") with [41%N].
  rewrite <- !List.app_assoc. cbn [app].
  rewrite <- !List.app_assoc. reflexivity.
Qed.

Lemma stops_rev_drop (cls : N -> bool) k (w : jsstring) :
  k < length w -> stops cls (rev w) -> stops cls (rev (drop k w)).
Proof.
  revert w. induction k as [|k IH]; intros w Hk H; [exact H|].
  destruct w as [|x w]; [cbn in Hk; lia|].
  cbn [drop]. apply IH; [cbn in Hk; lia|].
  apply (stops_rev_tail _ x); [|exact H].
  destruct w; [cbn in Hk; lia | discriminate].
Qed.

(** The ways to match a lazy run of code units of a class, in a capture
    group: every length from one code unit on, the shortest first. *)
Lemma lazy_group_candidates i (cls : N -> bool) p c (s : jsstring) cs :
  cls c = true -> Forall (fun c => cls c = true) s ->
  rmatch (Group i (plus false (Chr cls))) (MState p (c :: s) cs)
  = List.map (fun k => MState (S p + k) (drop k s)
                              ((i, firstn (S k) (c :: s)) :: cs))
             (seq 0 (S (length s))).
Proof.
  intros Hc Hs. unfold plus.
  change (rmatch (Group i (Seq (Chr cls) (Star false (Chr cls))))
                 (MState p (c :: s) cs))
    with (List.map (capture i (MState p (c :: s) cs))
            (rmatch (Seq (Chr cls) (Star false (Chr cls)))
                    (MState p (c :: s) cs))).
  rewrite rmatch_seq, rmatch_chr_hit by exact Hc.
  cbn [flat_map]. rewrite List.app_nil_r.
  change (rmatch (Star false (Chr cls)) (MState (S p) s cs))
    with (iterate (rmatch (Chr cls)) false (S (length s))
                  (MState (S p) s cs)).
  assert (E : iterate (rmatch (Chr cls)) false (S (length s))
                      (MState (S p) s cs)
              = List.map (fun k => MState (S p + k) (drop k s) cs)
                         (seq 0 (S (length s)))).
  { pose proof (iterate_lazy_class cls (S (length s)) (S p) s [] cs Hs I)
      as E.
    rewrite List.app_nil_r in E. rewrite E by lia.
    apply List.map_ext. intros k. rewrite List.app_nil_r. reflexivity. }
  rewrite E, List.map_map. apply List.map_ext. intros k.
  unfold capture. cbn [pos rest caps].
  replace (S p + k - p) with (S k) by lia. reflexivity.
Qed.

(** The tail of the pattern fails while the command goes on. *)
Lemma toolStartTail_inside p (w tl : jsstring) cs :
  w <> [] -> stops is_space (rev w) -> Forall (fun c => c <> 40%N) w ->
  rmatch toolStartTail (MState p (w ++ tl) cs) = [].
Proof.
  intros Hw Hlast Hno. unfold toolStartTail. rewrite rmatch_seq.
  apply flat_map_nil, List.Forall_forall. intros st' Hin.
  unfold space in Hin. cbn [rmatch] in Hin.
  apply iterate_class_rest in Hin as (pre & E & Hpre). cbn [rest] in E.
  destruct (space_prefix_inside w tl pre (rest st') Hw Hlast Hno E Hpre)
    as (c & r' & Er & Hc).
  destruct st' as [q rs cs']. cbn [rest] in Er. subst rs.
  rewrite rmatch_seq.
  change (lit "(using tool:") with (40%N :: lit "using tool:").
  rewrite reject_text by congruence. reflexivity.
Qed.

(** The tail of the pattern on the rest of an announcement. *)
Lemma toolStartTail_match p (name : jsstring) cs :
  word name -> Forall (fun c => c <> 41%N) name ->
  exists q,
    head (rmatch toolStartTail
            (MState p (32%N :: lit "(using tool:" ++ 32%N :: name ++ [41%N])
                    cs))
    = Some (MState q [] ((2, name) :: cs)).
Proof.
  intros (Hne & Hfirst & _ & _) Hno.
  destruct name as [|n0 name]; [congruence|].
  inversion Hno as [|? ? Hn0 Hname]; subst.
  assert (Hcls : forall c, c <> 41%N ->
                           negb (existsb (N.eqb c) (lit ")")) = true).
  { intros c Hc. change (lit ")") with [41%N]. cbn [existsb].
    rewrite orb_false_r. apply negb_true_iff, N.eqb_neq, Hc. }
  eexists. unfold toolStartTail.
  eapply prefer_seq.
  { unfold space. cbn [rmatch rest].
    apply (prefer_star_class is_space [32%N]);
      [repeat constructor | reflexivity | cbn [app length]; lia]. }
  eapply prefer_seq.
  { rewrite rmatch_text. reflexivity. }
  eapply prefer_seq.
  { unfold space. cbn [rmatch rest].
    apply (prefer_star_class is_space [32%N] _ _ ((n0 :: name) ++ [41%N]));
      [repeat constructor | exact Hfirst | cbn [app length]; lia]. }
  eapply prefer_seq.
  { apply prefer_group. unfold plus, none_of.
    eapply prefer_seq; [apply prefer_chr, Hcls, Hn0|].
    cbn [rmatch rest].
    apply (prefer_star_class _ name _ _ [41%N]);
      [|reflexivity | exact (Nat.lt_succ_diag_r _)].
    eapply List.Forall_impl; [|exact Hname]. intros c Hc. apply Hcls, Hc. }
  unfold capture. cbn [pos rest caps].
  eapply prefer_seq.
  { unfold chr. apply prefer_chr. reflexivity. }
  eapply prefer_seq.
  { unfold space. cbn [rmatch rest]. apply prefer_star_stop. reflexivity. }
  cbn [rmatch rest head].
  match goal with
  | |- Some (MState _ [] ((2, take ?k ?l) :: cs)) = _ =>
      replace (take k l) with (n0 :: name); [reflexivity|]
  end.
  match goal with
  | |- _ = take ?k _ => replace k with (length (n0 :: name))
      by (cbn [length]; lia)
  end.
  symmetry. apply take_app_length.
Qed.

(** The tool start pattern on an announcement: it matches from the
    start of the line, and its groups are the command and the name. *)
Lemma exec_announcement command name :
  word command -> Forall (fun c => c <> 40%N) command ->
  word name -> Forall (fun c => c <> 41%N) name ->
  exists m,
    exec toolStartRe (announcement command name) = Some (0, m)
    /\ group 1 (caps m) = Some command /\ group 2 (caps m) = Some name.
Proof.
  intros (Hne & Hfirst & Hlast & Hterm) Hno Hname Hnp.
  destruct command as [|c0 command]; [congruence|].
  inversion Hterm as [|? ? Hc0 Hterm']; subst.
  inversion Hno as [|? ? _ Hno']; subst.
  destruct (toolStartTail_match (35 + length command) name
              [(1, c0 :: command)] Hname Hnp) as [q Hq].
  exists (MState q [] [(2, name); (1, c0 :: command)]).
  split; [|split; reflexivity].
  rewrite announcement_parts.
  set (tl := 32%N :: lit "(using tool:" ++ 32%N :: name ++ [41%N]) in *.
  assert (Hdot : forall c, is_terminator c = false ->
                           negb ((c =? 10) || (c =? 13) || (c =? 8232)
                                 || (c =? 8233))%N = true).
  { intros c Hc. unfold is_terminator in Hc. rewrite Hc. reflexivity. }
  assert (Htl : Forall (fun c => is_terminator c = false) tl).
  { destruct Hname as (_ & _ & _ & Hn). subst tl.
    change (lit "(using tool:")
      with ([40; 117; 115; 105; 110; 103; 32; 116; 111; 111; 108; 58]%N).
    cbn [app]. repeat (constructor; [reflexivity|]).
    apply Forall_app. split; [exact Hn | repeat constructor]. }
  unfold exec. apply search_hit. unfold match_at.
  change toolStartRe
    with (Seq Bol
            (Seq (text (lit "I will run the following command:"))
               (Seq (Star true space)
                  (Seq (Group 1 (plus false dot)) toolStartTail)))).
  eapply prefer_seq; [reflexivity|].
  eapply prefer_seq; [rewrite rmatch_text; reflexivity|].
  eapply prefer_seq.
  { unfold space. cbn [rmatch rest].
    apply (prefer_star_class is_space [32%N] _ _ ((c0 :: command) ++ tl));
      [repeat constructor | exact Hfirst | exact (Nat.lt_succ_diag_r _)]. }
  unfold dot.
  eapply prefer_seq_later.
  - change ((c0 :: command) ++ tl) with (c0 :: (command ++ tl)).
    rewrite lazy_group_candidates.
    + rewrite length_app.
      replace (S (length command + length tl))
        with (length command + S (length tl)) by lia.
      rewrite seq_app, List.map_app. cbn [seq List.map Nat.add].
      reflexivity.
    + apply Hdot, Hc0.
    + apply Forall_app. split.
      * eapply List.Forall_impl; [|exact Hterm']. intros c Hc. apply Hdot, Hc.
      * eapply List.Forall_impl; [|exact Htl]. intros c Hc. apply Hdot, Hc.
  - apply List.Forall_map, List.Forall_forall. intros k Hk.
    apply in_seq in Hk.
    rewrite drop_app_le by lia.
    apply toolStartTail_inside.
    + intros E. apply (f_equal length) in E.
      rewrite length_drop in E. cbn [length] in E. lia.
    + apply (stops_rev_drop is_space (S k) (c0 :: command));
        [cbn [length]; lia | exact Hlast].
    + apply Forall_drop, Hno'.
  - rewrite drop_app_length.
    change (take (S (length command)) (c0 :: command ++ tl))
      with (c0 :: take (length command) (command ++ tl)).
    rewrite take_app_length. exact Hq.
Qed.

(** X23: an announcement opens a tool call.  When no tool call is open
    and the turn is not cancelled, the line that announces the tool
    [name] on the command [command] (both without white space at their
    ends and without line terminator, the command without opening and
    the name without closing parenthesis) enqueues one update that
    starts a tool call in progress with the next identifier, the title
    made of the name, a colon and the command, the command as raw input,
    and the kind [execute] exactly when the name is [shell]; that tool
    call is then the open one. *)
Theorem announcement_opens_tool_call (command name : jsstring) (t : Turn) :
  word command -> Forall (fun c => c <> 40%N) command ->
  word name -> Forall (fun c => c <> 41%N) name ->
  activeTool t = None -> cancelled t = false ->
  let tool := announced (toolId now (toolSeq t + 1)) command name in
  let t' := handleLine now (announcement command name) t in
  sendChain t'
  = sendChain t
    ++ [ToolCall (id tool) (title tool) (kind tool) InProgress
                 (rawInput tool)]
  /\ activeTool t' = Some tool
  /\ toolSeq t' = (toolSeq t + 1)%N.
Proof.
  intros Hcommand Hno Hname Hnp Ha Hc tool t'. subst tool t'.
  destruct (exec_announcement command name Hcommand Hno Hname Hnp)
    as (m & E & E1 & E2).
  unfold handleLine. rewrite E, Ha, E1, E2. cbn [default].
  unfold Datatypes.id.
  rewrite (trim_word command Hcommand), (trim_word name Hname).
  destruct Hname as (Hne & _).
  destruct name as [|n0 name]; [congruence|].
  unfold sendToolCall, announced.
  cbn [setActiveTool setToolSeq activeTool id title kind rawInput].
  rewrite sendUpdate_sendChain, sendUpdate_activeTool, sendUpdate_toolSeq.
  cbn [setActiveTool setToolSeq cancelled sendChain activeTool toolSeq].
  rewrite Hc. repeat split.
Qed.

Lemma search_text_inside (d pre post : jsstring) p :
  exists r, search (text d) p (pre ++ d ++ post) = Some r.
Proof.
  revert p. induction pre as [|c pre IH]; intros p.
  - exists (p, MState (p + length d) post []).
    apply search_hit. unfold match_at. cbn [app].
    rewrite rmatch_text. reflexivity.
  - cbn [app search]. destruct (match_at _ _ _) as [st|].
    + exists (p, st). reflexivity.
    + apply IH.
Qed.

(** X24: the completion text closes the tool call wherever it stands.
    While a tool call is open and the turn is not cancelled, a line that
    holds the text "- Completed in " anywhere, at its start or after any
    other text, and is no announcement, enqueues one update that gives
    the tool call the status [completed] with the output printed before
    the line; no tool call is open afterwards, and the line is not part
    of the output. *)
Theorem completion_text_closes_tool_call (pre post : jsstring)
    (a : ActiveTool) (t : Turn) :
  activeTool t = Some a -> cancelled t = false ->
  exec toolStartRe (pre ++ lit "- Completed in " ++ post) = None ->
  let t' := handleLine now (pre ++ lit "- Completed in " ++ post) t in
  sendChain t'
  = sendChain t
    ++ [ToolCallUpdate (id a) (Some Completed) (reported (output a))
                       (reported (output a))]
  /\ activeTool t' = None.
Proof.
  intros Ha Hc Hs t'. subst t'. unfold handleLine. rewrite Hs, Ha.
  assert (Hd : test toolDoneRe (pre ++ lit "- Completed in " ++ post) = true).
  { unfold test, exec, toolDoneRe.
    destruct (search_text_inside (lit "- Completed in ") pre post 0)
      as [r ->]. reflexivity. }
  rewrite Hd. unfold sendToolUpdate, toolContent. rewrite Ha.
  cbn [setActiveTool activeTool sendChain].
  rewrite sendUpdate_sendChain, Hc. split; reflexivity.
Qed.

End Announcement.

(** ** The further properties on concrete inputs *)

Section FurtherRuns.

Import Agent Stream Trace.

Lemma stale_cancel_forgotten_witness :
  fst (cancel (lit "session-1") Sample.registry1) = None
  /\ prompt Sample.clock Sample.hostReview Sample.scenario (lit "session-1") []
            (snd (cancel (lit "session-1") Sample.registry1))
     = prompt Sample.clock Sample.hostReview Sample.scenario
              (lit "session-1") [] Sample.registry1.
Proof.
  apply (stale_cancel_forgotten Sample.clock Sample.hostReview Sample.scenario
           (lit "session-1") [] Sample.registry1 Sample.session1).
  reflexivity.
Defined.

Lemma selected_mode_reaches_launch_witness :
  config_agent
    <$> launched
          (fst (prompt Sample.clock Sample.hostReview Sample.scenario
                       (lit "session-1") []
                       (snd (fst (setSessionMode Sample.hostReview
                                    (lit "session-1") (lit "build")
                                    Sample.registry1)))))
  = Some (Some (lit "build")).
Proof.
  destruct (selected_mode_reaches_launch Sample.clock Sample.hostReview
              Sample.scenario (lit "session-1") (lit "build") []
              Sample.registry1 Sample.session1)
    as (_ & _ & _ & H); [reflexivity | reflexivity | right; reflexivity|].
  exact H.
Defined.

Lemma selected_model_reaches_launch_witness :
  config_model
    <$> launched
          (fst (prompt Sample.clock Sample.hostReview Sample.scenario
                       (lit "session-1") []
                       (snd (setSessionModel (lit "session-1")
                                             (lit "claude-sonnet-4")
                                             Sample.registry1))))
  = Some (Some (lit "claude-sonnet-4")).
Proof.
  destruct (selected_model_reaches_launch Sample.clock Sample.hostReview
              Sample.scenario (lit "session-1") (lit "claude-sonnet-4") []
              Sample.registry1 Sample.session1)
    as (_ & _ & H); [reflexivity | reflexivity | right; reflexivity|].
  exact H.
Defined.

Lemma resume_follows_completed_turn_witness :
  config_resume
    <$> launched
          (fst (prompt Sample.clock Sample.hostReview Sample.scenario
                       (lit "session-1") [] Sample.registry1))
  = Some false
  /\ config_resume
       <$> launched
             (fst (prompt Sample.clock Sample.hostReview Sample.helloExit2
                          (lit "session-1") []
                          (snd (prompt Sample.clock Sample.hostReview
                                       Sample.scenario (lit "session-1") []
                                       Sample.registry1))))
     = Some true.
Proof.
  destruct (resume_follows_completed_turn Sample.clock Sample.hostReview
              Sample.scenario Sample.helloExit2 (lit "session-1") [] []
              Sample.registry1 Sample.session1)
    as [H1 H2]; [reflexivity | right; reflexivity|].
  split; [exact H1|].
  etransitivity; [exact H2|]. vm_compute. reflexivity.
Defined.

Lemma failed_check_changes_nothing_witness :
  updates (fst (prompt Sample.clock Sample.hostReview Cases.notLoggedIn
                       (lit "session-1") [] Sample.registry1))
  = [AgentMessageChunk (lit "not logged in")]
  /\ prompt Sample.clock Sample.hostReview Sample.scenario (lit "session-1") []
            (snd (prompt Sample.clock Sample.hostReview Cases.notLoggedIn
                         (lit "session-1") [] Sample.registry1))
     = prompt Sample.clock Sample.hostReview Sample.scenario
              (lit "session-1") [] Sample.registry1.
Proof.
  destruct (failed_check_changes_nothing Sample.clock Sample.hostReview
              Cases.notLoggedIn Sample.scenario (lit "session-1")
              (lit "not logged in") [] [] Sample.registry1 Sample.session1)
    as (_ & _ & H1 & H2); [reflexivity | reflexivity | reflexivity|].
  split; [exact H1 | exact H2].
Defined.

Lemma default_agent_sync_not_repeated_witness :
  syncKiroDefaultAgent Sample.hostReview
    (syncKiroDefaultAgent Cases.hostRefusing Sample.session1)
  = syncKiroDefaultAgent Cases.hostRefusing Sample.session1
  /\ setSessionModeStarts Sample.hostReview (lit "session-1") (lit "review")
       Sample.registry1 = Some (lit "review")
  /\ setSessionModeStarts Sample.hostReview (lit "session-1") (lit "review")
       (snd (fst (setSessionMode Sample.hostReview (lit "session-1")
                                 (lit "review") Sample.registry1)))
     = Some (lit "review")
  /\ setSessionModeStarts Sample.hostReview (lit "session-1") (lit "review")
       (syncSettles Sample.hostReview (lit "session-1") (lit "review")
          (snd (fst (setSessionMode Sample.hostReview (lit "session-1")
                                    (lit "review") Sample.registry1))))
     = None.
Proof.
  destruct default_agent_sync_not_repeated as [Hdone Hpending].
  assert (Hs : setSessionModeStarts Sample.hostReview (lit "session-1")
                 (lit "review") Sample.registry1 = Some (lit "review"))
    by reflexivity.
  destruct (Hpending Sample.hostReview (lit "session-1") (lit "review")
              (lit "review") Sample.registry1 Hs)
    as (_ & Hagain & _ & Hafter & _).
  split; [|split; [exact Hs | split; [exact Hagain | exact Hafter]]].
  apply (Hdone Cases.hostRefusing Sample.hostReview Sample.session1).
  reflexivity.
Defined.

Lemma tool_output_accumulates_witness :
  sendChain (handleLines Sample.clock [lit "a.txt"; lit "b.txt"] Cases.toolOpen)
  = [ progressUpdate (lit "tool-1700000000000-1") [lit "a.txt"];
      progressUpdate (lit "tool-1700000000000-1") [lit "a.txt"; lit "b.txt"] ].
Proof.
  destruct (tool_output_accumulates Sample.clock [lit "a.txt"; lit "b.txt"]
              Cases.listingFiles Cases.toolOpen)
    as [H _]; [reflexivity | reflexivity | |exact H].
  repeat constructor.
Defined.

Lemma plain_stream_conserved_witness :
  concat (emitted (List.map StdoutData Sample.scenarioCut) Kiro.initial)
  = concat Sample.scenarioCut.
Proof.
  apply (plain_stream_conserved Sample.scenarioCut).
  repeat split; apply not_In_forallb; vm_compute; reflexivity.
Defined.

Lemma plain_stream_chunking_witness :
  runTurn Sample.clock (stdoutOnly Sample.scenarioLines (Some 0%N))
  = runTurn Sample.clock (stdoutOnly Sample.scenarioCut (Some 0%N)).
Proof.
  apply (plain_stream_chunking Sample.clock Sample.scenarioLines
           Sample.scenarioCut (Some 0%N)); [reflexivity|].
  apply scenario_plain.
Defined.

Lemma carry_window_short_stream_witness :
  KiroMarker.run Sample.colourCut KiroMarker.initial
  = KiroMarker.run Sample.colourWhole KiroMarker.initial.
Proof.
  apply (carry_window_short_stream Sample.colourCut Sample.colourWhole);
    [reflexivity|].
  vm_compute. lia.
Defined.

Lemma listed_agents_well_formed_witness :
  exists m,
    In m (fst (AgentList.parseAgentList Cases.listing))
    /\ mode_id m = lit "build".
Proof.
  apply (proj2 (listed_agents_well_formed Cases.listing) (lit "build")).
  vm_compute. reflexivity.
Defined.

Lemma new_session_mode_from_listing_witness :
  modeListed (freshSession Cases.hostListing (lit "/tmp"))
  /\ availableModes (freshSession Cases.hostListing (lit "/tmp"))
     = discoveredModes Cases.hostListing.
Proof.
  apply (new_session_mode_from_listing Cases.hostListing (lit "/tmp")
           Cases.listing); [reflexivity | reflexivity | left; reflexivity].
Defined.

Lemma comments_removed_witness :
  Settings.stripJsonWithComments
    (lit "/*" ++ lit " a * b / c " ++ lit "*/" ++ lit "1")
  = Settings.stripJsonWithComments (lit "1").
Proof.
  destruct comments_removed as (_ & _ & _ & _ & H).
  apply (H (lit " a * b / c ") (lit "1")).
  intros a b E. vm_compute in E.
  repeat (destruct a as [|? a]; [discriminate E | injection E as _ E]).
  destruct a; discriminate E.
Defined.

Lemma trailing_commas_removed_witness :
  Settings.stripTrailingCommas (lit "," ++ [LF; 32%N] ++ 93%N :: lit "}")
  = [] ++ Settings.stripTrailingCommas ([LF; 32%N] ++ 93%N :: lit "}")
  /\ Settings.stripTrailingCommas (lit "[1" ++ lit "," ++ [] ++ 93%N :: [])
     = lit "[1]"
  /\ Settings.stripTrailingCommas
       ((lit "{" ++ 34%N :: lit "k,]" ++ 34%N :: lit ": [1, 2")
          ++ lit "," ++ lit " " ++ 93%N :: lit ",}")
     = (lit "{" ++ 34%N :: lit "k,]" ++ 34%N :: lit ": [1, 2")
         ++ lit " ]}".
Proof.
  destruct trailing_commas_removed as (H & _ & _ & _ & Hpre & _).
  split; [|split].
  - apply (H [LF; 32%N] 93%N (lit "}")); [repeat constructor | reflexivity].
  - destruct (Hpre (lit "[1")) as (out & Hout & Hdec).
    { repeat (apply Settings.whole_code; [reflexivity | reflexivity|]).
      apply Settings.whole_end. }
    destruct (List.app_inj_tail out (lit "[1") 44%N 44%N) as [-> _];
      [etransitivity; [symmetry; exact Hout | reflexivity]|].
    rewrite Hdec; [reflexivity | constructor | reflexivity].
  - destruct (Hpre (lit "{" ++ 34%N :: lit "k,]" ++ 34%N :: lit ": [1, 2"))
      as (out & Hout & Hdec).
    { apply Settings.whole_code; [reflexivity | reflexivity|].
      apply (Settings.whole_literal Settings.any 34%N (lit "k,]")
               (lit ": [1, 2")); [reflexivity | |].
      - repeat (apply Settings.body_plain; [discriminate | discriminate|]).
        apply Settings.body_end.
      - repeat (apply Settings.whole_code; [reflexivity | reflexivity|]).
        apply Settings.whole_end. }
    destruct (List.app_inj_tail out
                (lit "{" ++ 34%N :: lit "k,]" ++ 34%N :: lit ": [1, 2")
                44%N 44%N) as [-> _];
      [etransitivity; [symmetry; exact Hout | reflexivity]|].
    rewrite Hdec; [reflexivity | repeat constructor | reflexivity].
Defined.

Lemma trailing_comma_before_comment_witness :
  Settings.cleaned
    (lit "," ++ lit " " ++ lit "//" ++ lit " note" ++ LF :: lit "  "
       ++ 125%N :: lit " ")
  = lit " " ++ LF :: lit "  " ++ 125%N :: Settings.cleaned (lit " ")
  /\ Settings.cleaned
       ((lit "{ " ++ 34%N :: lit "a/b" ++ 34%N :: lit ": 1")
          ++ lit "," ++ lit " " ++ lit "//" ++ lit " note" ++ LF :: lit "  "
          ++ 125%N :: [LF])
     = (lit "{ " ++ 34%N :: lit "a/b" ++ 34%N :: lit ": 1")
         ++ lit " " ++ LF :: lit "  " ++ 125%N :: [LF].
Proof.
  assert (Hnote : ~ In LF (lit " note"))
    by (apply not_In_forallb; vm_compute; reflexivity).
  split.
  - apply (trailing_comma_before_comment (lit " ") (lit " note") (lit "  ")
             (lit " ") 125%N); try (repeat constructor). exact Hnote.
  - destruct (trailing_comma_before_comment (lit " ") (lit " note") (lit "  ")
                [LF] 125%N) as [_ Hpre];
      [repeat constructor | repeat constructor | exact Hnote | reflexivity|].
    destruct (Hpre (lit "{ " ++ 34%N :: lit "a/b" ++ 34%N :: lit ": 1"))
      as (out & Hout & Hclean).
    { repeat (apply Settings.whole_code; [reflexivity | reflexivity|]).
      apply (Settings.whole_literal Settings.no_slash 34%N (lit "a/b")
               (lit ": 1")); [reflexivity | |].
      - repeat (apply Settings.body_plain; [discriminate | discriminate|]).
        apply Settings.body_end.
      - repeat (apply Settings.whole_code; [reflexivity | reflexivity|]).
        apply Settings.whole_end. }
    destruct (List.app_inj_tail out
                (lit "{ " ++ 34%N :: lit "a/b" ++ 34%N :: lit ": 1")
                44%N 44%N) as [-> _];
      [etransitivity; [symmetry; exact Hout | reflexivity]|].
    rewrite Hclean. reflexivity.
Defined.

Lemma marker_stream_answer_witness :
  concat (KiroMarker.run Cases.bannerThenAnswer KiroMarker.initial)
  = lit "Hello" ++ [LF]
  /\ concat (KiroMarker.run [lit " Hel"; lit "lo " ++ [LF]] KiroMarker.initial)
     = lit " Hello".
Proof.
  split.
  - destruct (marker_stream_answer Cases.bannerThenAnswer) as (Hmarked & _);
      [apply not_In_forallb; vm_compute; reflexivity
      |apply not_In_forallb; vm_compute; reflexivity|].
    apply (Hmarked (lit "Powered by kiro" ++ [LF]) (lit "Hello" ++ [LF])).
    + reflexivity.
    + right. exists (lit "Powered by kiro"). reflexivity.
    + split.
      * intros b H. discriminate H.
      * intros a b H. cbn in H.
        repeat (destruct a as [|? a];
                [discriminate H | injection H as _ H]).
        destruct a; discriminate H.
  - destruct (marker_stream_answer [lit " Hel"; lit "lo " ++ [LF]])
      as (_ & Hplain & _);
      [apply not_In_forallb; vm_compute; reflexivity
      |apply not_In_forallb; vm_compute; reflexivity|].
    apply (Hplain (lit " Hello") [32%N; LF]).
    + reflexivity.
    + split.
      * intros b H. discriminate H.
      * intros a b H. cbn in H.
        repeat (destruct a as [|? a];
                [discriminate H | injection H as _ H]).
        destruct a; discriminate H.
    + repeat constructor.
    + reflexivity.
Defined.

Lemma announcement_opens_tool_call_witness :
  sendChain (handleLine Sample.clock (announcement (lit "ls -la") (lit "shell"))
                        (initialTurn false))
  = [ToolCall (lit "tool-1700000000000-1") (lit "shell: ls -la") Execute
              InProgress (lit "ls -la")].
Proof.
  assert (Hword : forall s, s <> [] -> stops is_space s ->
                            stops is_space (rev s) ->
                            Forall (fun c => is_terminator c = false) s ->
                            word s)
    by (intros s H1 H2 H3 H4; repeat split; assumption).
  destruct (announcement_opens_tool_call Sample.clock (lit "ls -la")
              (lit "shell") (initialTurn false)) as (H & _);
    [ apply Hword; [discriminate | reflexivity | reflexivity |];
      repeat (apply List.Forall_cons; [reflexivity|]); apply List.Forall_nil
    | repeat (apply List.Forall_cons; [discriminate|]); apply List.Forall_nil
    | apply Hword; [discriminate | reflexivity | reflexivity |];
      repeat (apply List.Forall_cons; [reflexivity|]); apply List.Forall_nil
    | repeat (apply List.Forall_cons; [discriminate|]); apply List.Forall_nil
    | reflexivity
    | reflexivity
    | exact H ].
Defined.

Lemma completion_text_closes_tool_call_witness :
  sendChain (handleLine Sample.clock
               (lit "total" ++ lit "- Completed in " ++ lit "0.1s")
               Cases.toolOpen)
  = [ToolCallUpdate (lit "tool-1700000000000-1") (Some Completed) None None]
  /\ activeTool (handleLine Sample.clock
                   (lit "total" ++ lit "- Completed in " ++ lit "0.1s")
                   Cases.toolOpen) = None.
Proof.
  apply (completion_text_closes_tool_call Sample.clock (lit "total")
           (lit "0.1s") Cases.listingFiles Cases.toolOpen);
    [reflexivity | reflexivity | vm_compute; reflexivity].
Defined.

End FurtherRuns.
